(** * SSH channel layer of asyncssh: flow control, waiters and teardown

    A shallow embedding of [asyncssh/channel.py] (class [SSHChannel]) and
    the properties of its send path, receive path, request queue and
    cleanup.  The channel object is a record, its methods are computations
    in a small state/output/exception monad, and the objects it shares
    with its callers (asyncio futures) live in an explicit heap. *)

From stdpp Require Import gmap strings list.
From Stdlib Require Import ZArith Lia.
From Stdlib Require Strings.Byte.

Open Scope Z_scope.

(** ** Python values *)

(** [bytes] and [bytearray] objects. *)
Definition bytes : Type := list Byte.byte.

(** A [str] object, as its sequence of code points. *)
Definition pystr : Type := list N.

(** [len(x)] as a Python integer. *)
Definition len {A : Type} (l : list A) : Z := Z.of_nat (length l).

(** [l[:n]] and the remainder left by [del l[:n]], for any Python integer
    [n]: a negative bound counts from the end. *)
Definition slice_bound {A : Type} (n : Z) (l : list A) : nat :=
  if n <? 0 then Z.to_nat (Z.max 0 (len l + n)) else Z.to_nat n.

Definition slice_to {A : Type} (n : Z) (l : list A) : list A :=
  take (slice_bound n l) l.

Definition slice_from {A : Type} (n : Z) (l : list A) : list A :=
  drop (slice_bound n l) l.

(** What [bytes.decode] does: a string, or a [UnicodeDecodeError] of which
    the channel reads [start] and [reason], or a [LookupError] for an
    unknown codec name. *)
Inductive decode_result : Type :=
| Decoded (s : pystr)
| UnicodeDecodeError (start : nat) (reason : string)
| LookupError.

(** What [str.encode] does. *)
Inductive encode_result : Type :=
| Encoded (b : bytes)
| UnicodeEncodeError.

(** ** CPython's strict UTF-8 decoder

    [bytes.decode('utf-8')] as implemented by CPython ([utf8_decode] in
    [Objects/stringlib/codecs.h]): one code point at a time, the error
    position being the lead byte of the offending sequence. *)
Module Utf8.

Open Scope N_scope.

Inductive step : Type :=
| Char (cp : N) (width : nat)
| UnexpectedEnd
| InvalidStart
| InvalidContinuation.

Definition is_continuation (ch : N) : bool := (0x80 <=? ch) && (ch <? 0xC0).

(** Decode the sequence that starts at the head of a non-empty input. *)
Definition next (s : list N) : step :=
  match s with
  | [] => UnexpectedEnd
  | ch :: t =>
    if ch <? 0x80 then Char ch 1
    else if ch <? 0xE0 then
      if ch <? 0xC2 then InvalidStart
      else match t with
           | [] => UnexpectedEnd
           | ch2 :: _ =>
             if negb (is_continuation ch2) then InvalidContinuation
             else Char (N.shiftl ch 6 + ch2 - (N.shiftl 0xC0 6 + 0x80)) 2
           end
    else if ch <? 0xF0 then
      match t with
      | [] => UnexpectedEnd
      | [ch2] =>
        if negb (is_continuation ch2)
           || (if ch2 <? 0xA0 then ch =? 0xE0 else ch =? 0xED)
        then InvalidContinuation else UnexpectedEnd
      | ch2 :: ch3 :: _ =>
        if negb (is_continuation ch2) then InvalidContinuation
        else if (ch =? 0xE0) && (ch2 <? 0xA0) then InvalidContinuation
        else if (ch =? 0xED) && (0xA0 <=? ch2) then InvalidContinuation
        else if negb (is_continuation ch3) then InvalidContinuation
        else Char (N.shiftl ch 12 + N.shiftl ch2 6 + ch3
                   - (N.shiftl 0xE0 12 + N.shiftl 0x80 6 + 0x80)) 3
      end
    else if ch <? 0xF5 then
      match t with
      | [] => UnexpectedEnd
      | ch2 :: t2 =>
        if negb (is_continuation ch2)
           || (if ch2 <? 0x90 then ch =? 0xF0 else ch =? 0xF4)
        then InvalidContinuation
        else match t2 with
             | [] => UnexpectedEnd
             | ch3 :: t3 =>
               if negb (is_continuation ch3) then InvalidContinuation
               else match t3 with
                    | [] => UnexpectedEnd
                    | ch4 :: _ =>
                      if negb (is_continuation ch4) then InvalidContinuation
                      else Char (N.shiftl ch 18 + N.shiftl ch2 12
                                 + N.shiftl ch3 6 + ch4
                                 - (N.shiftl 0xF0 18 + N.shiftl 0x80 12
                                    + N.shiftl 0x80 6 + 0x80)) 4
                    end
             end
      end
    else InvalidStart
  end.

(** The decoding loop; [fuel] bounds the number of code points and
    [length s] is always enough. *)
Fixpoint loop (fuel pos : nat) (s : list N) (acc : pystr) : decode_result :=
  match s with
  | [] => Decoded acc
  | _ :: _ =>
    match fuel with
    | O => Decoded acc
    | S fuel' =>
      match next s with
      | Char cp w => loop fuel' (pos + w)%nat (drop w s) (acc ++ [cp])
      | UnexpectedEnd => UnicodeDecodeError pos "unexpected end of data"
      | InvalidStart => UnicodeDecodeError pos "invalid start byte"
      | InvalidContinuation =>
        UnicodeDecodeError pos "invalid continuation byte"
      end
    end
  end.

Definition decode (b : bytes) : decode_result :=
  loop (length b) 0 (Byte.to_N <$> b) [].

End Utf8.

(** A codec table that knows UTF-8 only, for the concrete scenarios. *)
Definition utf8_codec (encoding : string) (b : bytes) : decode_result :=
  if bool_decide (encoding = "utf-8") then Utf8.decode b else LookupError.

(** ** Protocol constants *)

(** Modelled from the spec: [asyncssh/constants.py] is not among the
    sources.  These are the message types of the wire table; the channel
    only ever compares them for equality, so their numbers are left
    out. *)
Inductive msgtype : Type :=
| MSG_CHANNEL_OPEN
| MSG_CHANNEL_WINDOW_ADJUST
| MSG_CHANNEL_DATA
| MSG_CHANNEL_EXTENDED_DATA
| MSG_CHANNEL_EOF
| MSG_CHANNEL_CLOSE
| MSG_CHANNEL_REQUEST
| MSG_CHANNEL_SUCCESS
| MSG_CHANNEL_FAILURE.

Global Instance msgtype_eq_dec : EqDecision msgtype.
Proof. solve_decision. Defined.

(** Modelled from the spec: the disconnect code of a protocol error and
    the reason code of a failed open, from the same missing module. *)
Inductive disc_code : Type := DISC_PROTOCOL_ERROR.
Inductive open_code : Type := OPEN_CONNECT_FAILED.

(** Modelled from the spec: the extended data type [STDERR], from the
    same missing module; its number is the one of RFC 4254, section
    5.2. *)
Definition EXTENDED_DATA_STDERR : Z := 1.

(** ** Packets handed to the connection *)

(** Modelled from the spec: [asyncssh/packet.py] is not among the
    sources.  [conn.send_packet] receives the fields built by its
    constructors [Byte], [UInt32], [String] and [Boolean], the field
    kinds of the wire table; they are recorded unserialised. *)
Module Packet.
Inductive field : Type :=
| Byte (m : msgtype)
| UInt32 (n : Z)
| String (s : bytes)
| Boolean (b : bool).
End Packet.

Definition packet : Type := list Packet.field.

(** ** Exceptions *)
Inductive exn : Type :=
| DisconnectError (code : disc_code) (reason : string)
| ChannelOpenError (code : open_code) (reason : string)
| OSError (msg : string)
| BrokenPipeError (msg : string)
| AttributeError
| TypeError
| InvalidStateError
| UnicodeError
| CodecLookupError.

(** ** asyncio futures

    A future is pending until it is cancelled or settled; [set_result] and
    [set_exception] raise [InvalidStateError] on a future that is no
    longer pending. *)
Inductive value : Type :=
| VNone
| VBool (b : bool)
| VPacket (p : bytes).

Inductive future : Type :=
| Pending
| Cancelled
| Result (v : value)
| Exception (e : option exn).

(** ** The session

    The application object behind the channel.  Its callbacks are recorded
    as events; the only answer the channel reads back is the truth value
    returned by [eof_received()]. *)
Record session : Type := Session { eof_received_answer : bool }.

(** The channel states; both [_send_state] and [_recv_state] are Python
    strings drawn from these. *)
Inductive state : Type :=
| closed | open_sent | open_received | open
| eof_pending | eof_sent | close_pending | close_sent
| eof_received.

Global Instance state_eq_dec : EqDecision state.
Proof. solve_decision. Defined.

(** An item of [_recv_buf]: received bytes or the [_EOF] marker. *)
Inductive rdata : Type :=
| EOF
| Data (b : bytes).

(** What is handed to [session.data_received]. *)
Inductive payload : Type :=
| PBytes (b : bytes)
| PStr (s : pystr).

(** Everything the channel does to its collaborators, in order. *)
Inductive event : Type :=
| ConnSendPacket (p : packet)
| ConnRemoveChannel (n : Z)
| LoopCallSoonCleanup
| SessDataReceived (data : payload) (datatype : option Z)
| SessEofReceived
| SessConnectionLost (exc : option exn)
| SessPauseWriting
| SessResumeWriting.

(** ** The channel object

    One field per attribute of [SSHChannel.__init__] that the methods
    below read or write.  [_conn] tells whether the connection reference
    is still held.  [_send_window] and [_send_pktsize] are [None] until
    the open handshake assigns them; they are only read behind the
    truthiness test of [_send_window], where [None] and [0] agree, so
    [None] is represented by [0].  [futures] is the heap of the
    [asyncio.Future] objects the channel created: waiters are shared with
    the coroutines that await them and are named by their index. *)
Record chan : Type := Chan {
  _conn : bool;
  _session : option session;
  _encoding : option string;
  _send_state : state;
  _send_chan : option Z;
  _send_window : Z;
  _send_pktsize : Z;
  _send_paused : bool;
  _send_buf : list (bytes * option Z);
  _send_buf_len : Z;
  _recv_state : state;
  _init_recv_window : Z;
  _recv_window : Z;
  _recv_pktsize : Z;
  _recv_paused : bool;
  _recv_buf : list (rdata * option Z);
  _recv_partial : gmap (option Z) bytes;
  _open_waiter : option nat;
  _request_waiters : list nat;
  _close_waiters : list nat;
  _send_high_water : Z;
  _send_low_water : Z;
  _recv_chan : option Z;
  _read_datatypes : gset Z;
  _write_datatypes : gset Z;
  futures : list future
}.

Definition set_conn (v : bool) (c : chan) : chan :=
  Chan v (_session c) (_encoding c) (_send_state c) (_send_chan c)
    (_send_window c) (_send_pktsize c) (_send_paused c) (_send_buf c)
    (_send_buf_len c) (_recv_state c) (_init_recv_window c) (_recv_window c)
    (_recv_pktsize c) (_recv_paused c) (_recv_buf c) (_recv_partial c)
    (_open_waiter c) (_request_waiters c) (_close_waiters c)
    (_send_high_water c) (_send_low_water c) (_recv_chan c)
    (_read_datatypes c) (_write_datatypes c) (futures c).

Definition set_session (v : option session) (c : chan) : chan :=
  Chan (_conn c) v (_encoding c) (_send_state c) (_send_chan c)
    (_send_window c) (_send_pktsize c) (_send_paused c) (_send_buf c)
    (_send_buf_len c) (_recv_state c) (_init_recv_window c) (_recv_window c)
    (_recv_pktsize c) (_recv_paused c) (_recv_buf c) (_recv_partial c)
    (_open_waiter c) (_request_waiters c) (_close_waiters c)
    (_send_high_water c) (_send_low_water c) (_recv_chan c)
    (_read_datatypes c) (_write_datatypes c) (futures c).

Definition set_send_state (v : state) (c : chan) : chan :=
  Chan (_conn c) (_session c) (_encoding c) v (_send_chan c)
    (_send_window c) (_send_pktsize c) (_send_paused c) (_send_buf c)
    (_send_buf_len c) (_recv_state c) (_init_recv_window c) (_recv_window c)
    (_recv_pktsize c) (_recv_paused c) (_recv_buf c) (_recv_partial c)
    (_open_waiter c) (_request_waiters c) (_close_waiters c)
    (_send_high_water c) (_send_low_water c) (_recv_chan c)
    (_read_datatypes c) (_write_datatypes c) (futures c).

Definition set_send_chan (v : option Z) (c : chan) : chan :=
  Chan (_conn c) (_session c) (_encoding c) (_send_state c) v
    (_send_window c) (_send_pktsize c) (_send_paused c) (_send_buf c)
    (_send_buf_len c) (_recv_state c) (_init_recv_window c) (_recv_window c)
    (_recv_pktsize c) (_recv_paused c) (_recv_buf c) (_recv_partial c)
    (_open_waiter c) (_request_waiters c) (_close_waiters c)
    (_send_high_water c) (_send_low_water c) (_recv_chan c)
    (_read_datatypes c) (_write_datatypes c) (futures c).

Definition set_send_window (v : Z) (c : chan) : chan :=
  Chan (_conn c) (_session c) (_encoding c) (_send_state c) (_send_chan c) v
    (_send_pktsize c) (_send_paused c) (_send_buf c) (_send_buf_len c)
    (_recv_state c) (_init_recv_window c) (_recv_window c) (_recv_pktsize c)
    (_recv_paused c) (_recv_buf c) (_recv_partial c) (_open_waiter c)
    (_request_waiters c) (_close_waiters c) (_send_high_water c)
    (_send_low_water c) (_recv_chan c) (_read_datatypes c)
    (_write_datatypes c) (futures c).

Definition set_send_pktsize (v : Z) (c : chan) : chan :=
  Chan (_conn c) (_session c) (_encoding c) (_send_state c) (_send_chan c)
    (_send_window c) v (_send_paused c) (_send_buf c) (_send_buf_len c)
    (_recv_state c) (_init_recv_window c) (_recv_window c) (_recv_pktsize c)
    (_recv_paused c) (_recv_buf c) (_recv_partial c) (_open_waiter c)
    (_request_waiters c) (_close_waiters c) (_send_high_water c)
    (_send_low_water c) (_recv_chan c) (_read_datatypes c)
    (_write_datatypes c) (futures c).

Definition set_send_paused (v : bool) (c : chan) : chan :=
  Chan (_conn c) (_session c) (_encoding c) (_send_state c) (_send_chan c)
    (_send_window c) (_send_pktsize c) v (_send_buf c) (_send_buf_len c)
    (_recv_state c) (_init_recv_window c) (_recv_window c) (_recv_pktsize c)
    (_recv_paused c) (_recv_buf c) (_recv_partial c) (_open_waiter c)
    (_request_waiters c) (_close_waiters c) (_send_high_water c)
    (_send_low_water c) (_recv_chan c) (_read_datatypes c)
    (_write_datatypes c) (futures c).

Definition set_send_buf (v : list (bytes * option Z)) (c : chan) : chan :=
  Chan (_conn c) (_session c) (_encoding c) (_send_state c) (_send_chan c)
    (_send_window c) (_send_pktsize c) (_send_paused c) v (_send_buf_len c)
    (_recv_state c) (_init_recv_window c) (_recv_window c) (_recv_pktsize c)
    (_recv_paused c) (_recv_buf c) (_recv_partial c) (_open_waiter c)
    (_request_waiters c) (_close_waiters c) (_send_high_water c)
    (_send_low_water c) (_recv_chan c) (_read_datatypes c)
    (_write_datatypes c) (futures c).

Definition set_send_buf_len (v : Z) (c : chan) : chan :=
  Chan (_conn c) (_session c) (_encoding c) (_send_state c) (_send_chan c)
    (_send_window c) (_send_pktsize c) (_send_paused c) (_send_buf c) v
    (_recv_state c) (_init_recv_window c) (_recv_window c) (_recv_pktsize c)
    (_recv_paused c) (_recv_buf c) (_recv_partial c) (_open_waiter c)
    (_request_waiters c) (_close_waiters c) (_send_high_water c)
    (_send_low_water c) (_recv_chan c) (_read_datatypes c)
    (_write_datatypes c) (futures c).

Definition set_recv_state (v : state) (c : chan) : chan :=
  Chan (_conn c) (_session c) (_encoding c) (_send_state c) (_send_chan c)
    (_send_window c) (_send_pktsize c) (_send_paused c) (_send_buf c)
    (_send_buf_len c) v (_init_recv_window c) (_recv_window c)
    (_recv_pktsize c) (_recv_paused c) (_recv_buf c) (_recv_partial c)
    (_open_waiter c) (_request_waiters c) (_close_waiters c)
    (_send_high_water c) (_send_low_water c) (_recv_chan c)
    (_read_datatypes c) (_write_datatypes c) (futures c).

Definition set_recv_window (v : Z) (c : chan) : chan :=
  Chan (_conn c) (_session c) (_encoding c) (_send_state c) (_send_chan c)
    (_send_window c) (_send_pktsize c) (_send_paused c) (_send_buf c)
    (_send_buf_len c) (_recv_state c) (_init_recv_window c) v
    (_recv_pktsize c) (_recv_paused c) (_recv_buf c) (_recv_partial c)
    (_open_waiter c) (_request_waiters c) (_close_waiters c)
    (_send_high_water c) (_send_low_water c) (_recv_chan c)
    (_read_datatypes c) (_write_datatypes c) (futures c).

Definition set_recv_paused (v : bool) (c : chan) : chan :=
  Chan (_conn c) (_session c) (_encoding c) (_send_state c) (_send_chan c)
    (_send_window c) (_send_pktsize c) (_send_paused c) (_send_buf c)
    (_send_buf_len c) (_recv_state c) (_init_recv_window c) (_recv_window c)
    (_recv_pktsize c) v (_recv_buf c) (_recv_partial c) (_open_waiter c)
    (_request_waiters c) (_close_waiters c) (_send_high_water c)
    (_send_low_water c) (_recv_chan c) (_read_datatypes c)
    (_write_datatypes c) (futures c).

Definition set_recv_buf (v : list (rdata * option Z)) (c : chan) : chan :=
  Chan (_conn c) (_session c) (_encoding c) (_send_state c) (_send_chan c)
    (_send_window c) (_send_pktsize c) (_send_paused c) (_send_buf c)
    (_send_buf_len c) (_recv_state c) (_init_recv_window c) (_recv_window c)
    (_recv_pktsize c) (_recv_paused c) v (_recv_partial c) (_open_waiter c)
    (_request_waiters c) (_close_waiters c) (_send_high_water c)
    (_send_low_water c) (_recv_chan c) (_read_datatypes c)
    (_write_datatypes c) (futures c).

Definition set_recv_partial (v : gmap (option Z) bytes) (c : chan) : chan :=
  Chan (_conn c) (_session c) (_encoding c) (_send_state c) (_send_chan c)
    (_send_window c) (_send_pktsize c) (_send_paused c) (_send_buf c)
    (_send_buf_len c) (_recv_state c) (_init_recv_window c) (_recv_window c)
    (_recv_pktsize c) (_recv_paused c) (_recv_buf c) v (_open_waiter c)
    (_request_waiters c) (_close_waiters c) (_send_high_water c)
    (_send_low_water c) (_recv_chan c) (_read_datatypes c)
    (_write_datatypes c) (futures c).

Definition set_open_waiter (v : option nat) (c : chan) : chan :=
  Chan (_conn c) (_session c) (_encoding c) (_send_state c) (_send_chan c)
    (_send_window c) (_send_pktsize c) (_send_paused c) (_send_buf c)
    (_send_buf_len c) (_recv_state c) (_init_recv_window c) (_recv_window c)
    (_recv_pktsize c) (_recv_paused c) (_recv_buf c) (_recv_partial c) v
    (_request_waiters c) (_close_waiters c) (_send_high_water c)
    (_send_low_water c) (_recv_chan c) (_read_datatypes c)
    (_write_datatypes c) (futures c).

Definition set_request_waiters (v : list nat) (c : chan) : chan :=
  Chan (_conn c) (_session c) (_encoding c) (_send_state c) (_send_chan c)
    (_send_window c) (_send_pktsize c) (_send_paused c) (_send_buf c)
    (_send_buf_len c) (_recv_state c) (_init_recv_window c) (_recv_window c)
    (_recv_pktsize c) (_recv_paused c) (_recv_buf c) (_recv_partial c)
    (_open_waiter c) v (_close_waiters c) (_send_high_water c)
    (_send_low_water c) (_recv_chan c) (_read_datatypes c)
    (_write_datatypes c) (futures c).

Definition set_close_waiters (v : list nat) (c : chan) : chan :=
  Chan (_conn c) (_session c) (_encoding c) (_send_state c) (_send_chan c)
    (_send_window c) (_send_pktsize c) (_send_paused c) (_send_buf c)
    (_send_buf_len c) (_recv_state c) (_init_recv_window c) (_recv_window c)
    (_recv_pktsize c) (_recv_paused c) (_recv_buf c) (_recv_partial c)
    (_open_waiter c) (_request_waiters c) v (_send_high_water c)
    (_send_low_water c) (_recv_chan c) (_read_datatypes c)
    (_write_datatypes c) (futures c).

Definition set_send_high_water (v : Z) (c : chan) : chan :=
  Chan (_conn c) (_session c) (_encoding c) (_send_state c) (_send_chan c)
    (_send_window c) (_send_pktsize c) (_send_paused c) (_send_buf c)
    (_send_buf_len c) (_recv_state c) (_init_recv_window c) (_recv_window c)
    (_recv_pktsize c) (_recv_paused c) (_recv_buf c) (_recv_partial c)
    (_open_waiter c) (_request_waiters c) (_close_waiters c) v
    (_send_low_water c) (_recv_chan c) (_read_datatypes c)
    (_write_datatypes c) (futures c).

Definition set_send_low_water (v : Z) (c : chan) : chan :=
  Chan (_conn c) (_session c) (_encoding c) (_send_state c) (_send_chan c)
    (_send_window c) (_send_pktsize c) (_send_paused c) (_send_buf c)
    (_send_buf_len c) (_recv_state c) (_init_recv_window c) (_recv_window c)
    (_recv_pktsize c) (_recv_paused c) (_recv_buf c) (_recv_partial c)
    (_open_waiter c) (_request_waiters c) (_close_waiters c)
    (_send_high_water c) v (_recv_chan c) (_read_datatypes c)
    (_write_datatypes c) (futures c).

Definition set_recv_chan (v : option Z) (c : chan) : chan :=
  Chan (_conn c) (_session c) (_encoding c) (_send_state c) (_send_chan c)
    (_send_window c) (_send_pktsize c) (_send_paused c) (_send_buf c)
    (_send_buf_len c) (_recv_state c) (_init_recv_window c) (_recv_window c)
    (_recv_pktsize c) (_recv_paused c) (_recv_buf c) (_recv_partial c)
    (_open_waiter c) (_request_waiters c) (_close_waiters c)
    (_send_high_water c) (_send_low_water c) v (_read_datatypes c)
    (_write_datatypes c) (futures c).

Definition set_futures (v : list future) (c : chan) : chan :=
  Chan (_conn c) (_session c) (_encoding c) (_send_state c) (_send_chan c)
    (_send_window c) (_send_pktsize c) (_send_paused c) (_send_buf c)
    (_send_buf_len c) (_recv_state c) (_init_recv_window c) (_recv_window c)
    (_recv_pktsize c) (_recv_paused c) (_recv_buf c) (_recv_partial c)
    (_open_waiter c) (_request_waiters c) (_close_waiters c)
    (_send_high_water c) (_send_low_water c) (_recv_chan c)
    (_read_datatypes c) (_write_datatypes c) v.


(** Reading a field back from an updated channel object. *)
Ltac chan_simpl :=
  cbn [_conn _session _encoding _send_state _send_chan _send_window
       _send_pktsize _send_paused _send_buf _send_buf_len _recv_state
       _init_recv_window _recv_window _recv_pktsize _recv_paused
       _recv_buf _recv_partial _open_waiter _request_waiters
       _close_waiters _send_high_water _send_low_water _recv_chan
       _read_datatypes _write_datatypes futures set_conn set_session
       set_send_state set_send_chan set_send_window set_send_pktsize
       set_send_paused set_send_buf set_send_buf_len set_recv_state
       set_recv_window set_recv_paused set_recv_buf set_recv_partial
       set_open_waiter set_request_waiters set_close_waiters
       set_send_high_water set_send_low_water set_recv_chan
       set_futures] in *.

(** ** The monad of channel methods

    A method starts from a channel object and either returns a value, the
    updated object and the events it caused, or raises, or loops for
    ever.  An exception abandons the call: none of the methods below
    catches one, and a protocol error tears the whole connection down. *)
Inductive outcome (A : Type) : Type :=
| Done (a : A) (c : chan) (out : list event)
| Raise (e : exn)
| Diverge.

Arguments Done {A} a c out.
Arguments Raise {A} e.
Arguments Diverge {A}.

Definition M (A : Type) : Type := chan -> outcome A.

Definition ret {A : Type} (a : A) : M A := fun c => Done a c [].

Definition bind {A B : Type} (m : M A) (k : A -> M B) : M B := fun c =>
  match m c with
  | Done a c1 out1 =>
    match k a c1 with
    | Done b c2 out2 => Done b c2 (out1 ++ out2)
    | Raise e => Raise e
    | Diverge => Diverge
    end
  | Raise e => Raise e
  | Diverge => Diverge
  end.

Definition get : M chan := fun c => Done c c [].
Definition modify (f : chan -> chan) : M unit := fun c => Done tt (f c) [].
Definition emit (e : event) : M unit := fun c => Done tt c [e].
Definition raise {A : Type} (e : exn) : M A := fun _ => Raise e.
Definition diverge {A : Type} : M A := fun _ => Diverge.

Declare Scope chan_scope.
Delimit Scope chan_scope with chan.
Notation "'let*' x ':=' m 'in' k" := (bind m (fun x => k))
  (at level 10, x name, m at level 100, k at level 200) : chan_scope.
Notation "m >> k" := (bind m (fun _ => k))
  (at level 90, right associativity) : chan_scope.
Open Scope chan_scope.

(** Python's [if cond: body]. *)
Definition when (b : bool) (m : M unit) : M unit := if b then m else ret tt.

(** ** Futures *)

(** [asyncio.Future(loop=self._loop)]. *)
Definition new_future : M nat :=
  let* c := get in
  modify (set_futures (futures c ++ [Pending])) >> ret (length (futures c)).

(** [waiter.cancelled()]. *)
Definition cancelled (w : nat) : M bool :=
  let* c := get in
  match futures c !! w with
  | Some Cancelled => ret true
  | Some _ => ret false
  | None => raise AttributeError
  end.

(** Settle a future; only a pending one accepts it. *)
Definition settle (w : nat) (f : future) : M unit :=
  let* c := get in
  match futures c !! w with
  | Some Pending => modify (set_futures (<[w := f]> (futures c)))
  | Some _ => raise InvalidStateError
  | None => raise AttributeError
  end.

Definition set_result (w : nat) (v : value) : M unit := settle w (Result v).

Definition set_exception (w : nat) (e : option exn) : M unit :=
  settle w (Exception e).

(** [waiter.cancel()], called by whoever awaits the future. *)
Definition cancel (w : nat) (c : chan) : chan :=
  match futures c !! w with
  | Some Pending => set_futures (<[w := Cancelled]> (futures c)) c
  | _ => c
  end.

(** ** Collaborators *)

(** A callback on [self._session]; [None] has no methods. *)
Definition call_session (ev : event) : M unit :=
  let* c := get in
  match _session c with
  | None => raise AttributeError
  | Some _ => emit ev
  end.

(** [self._conn.send_packet(...)]. *)
Definition conn_send_packet (p : packet) : M unit :=
  let* c := get in
  if _conn c then emit (ConnSendPacket p) else raise AttributeError.

Definition _send_packet (pkttype : msgtype) (args : list Packet.field)
  : M unit :=
  let* c := get in
  match _send_chan c with
  | None => raise (OSError "Channel not open")
  | Some n => conn_send_packet (Packet.Byte pkttype :: Packet.UInt32 n :: args)
  end.

Definition _send_request (request : bytes) (args : list Packet.field)
    (want_reply : bool) : M unit :=
  _send_packet MSG_CHANNEL_REQUEST
    (Packet.String request :: Packet.Boolean want_reply :: args).

(** ** Teardown *)

Fixpoint fail_waiters (exc : option exn) (ws : list nat) : M unit :=
  match ws with
  | [] => ret tt
  | waiter :: ws' => set_exception waiter exc >> fail_waiters exc ws'
  end.

Fixpoint resolve_waiters (ws : list nat) : M unit :=
  match ws with
  | [] => ret tt
  | waiter :: ws' =>
    (let* gone := cancelled waiter in
     when (negb gone) (set_result waiter VNone)) >>
    resolve_waiters ws'
  end.

(** The five [if] blocks of [_cleanup], in order. *)
Definition cleanup_open_waiter : M unit :=
  let* c := get in
  match _open_waiter c with
  | Some w =>
    set_exception w
      (Some (ChannelOpenError OPEN_CONNECT_FAILED "SSH connection closed")) >>
    modify (set_open_waiter None)
  | None => ret tt
  end.

Definition cleanup_request_waiters (exc : option exn) : M unit :=
  let* c := get in
  match _request_waiters c with
  | [] => ret tt
  | ws => fail_waiters exc ws >> modify (set_request_waiters [])
  end.

Definition cleanup_close_waiters : M unit :=
  let* c := get in
  match _close_waiters c with
  | [] => ret tt
  | ws => resolve_waiters ws >> modify (set_close_waiters [])
  end.

Definition cleanup_session (exc : option exn) : M unit :=
  let* c := get in
  match _session c with
  | Some _ => emit (SessConnectionLost exc) >> modify (set_session None)
  | None => ret tt
  end.

Definition cleanup_conn : M unit :=
  let* c := get in
  when (_conn c)
    (match _recv_chan c with
     | Some n =>
       when (negb (n =? 0))
         (emit (ConnRemoveChannel n) >> modify (set_recv_chan None))
     | None => ret tt
     end >>
     modify (set_conn false)).

Definition _cleanup (exc : option exn) : M unit :=
  cleanup_open_waiter >>
  cleanup_request_waiters exc >>
  cleanup_close_waiters >>
  cleanup_session exc >>
  cleanup_conn >>
  modify (set_send_state closed) >>
  modify (set_recv_state closed).

Definition process_connection_close (exc : option exn) : M unit :=
  _cleanup exc.

(** ** Send path *)

Definition _pause_resume_writing : M unit :=
  let* c := get in
  if _send_paused c then
    when (_send_buf_len c <=? _send_low_water c)
      (modify (set_send_paused false) >> call_session SessResumeWriting)
  else
    when (_send_high_water c <? _send_buf_len c)
      (modify (set_send_paused true) >> call_session SessPauseWriting).

(** The test of the [while] loop of [_flush_send_buf]. *)
Definition can_send (c : chan) : bool :=
  match _send_buf c with
  | [] => false
  | _ :: _ => negb (_send_window c =? 0)
  end.

(** One run of the loop body: cut a packet off the head chunk, debit the
    buffer length and the window, send it. *)
Definition flush_body : M unit :=
  let* c := get in
  match _send_buf c with
  | [] => ret tt
  | (buf, datatype) :: rest =>
    let pktsize := Z.min (_send_window c) (_send_pktsize c) in
    let data := if pktsize <? len buf then slice_to pktsize buf else buf in
    modify (set_send_buf
              (if pktsize <? len buf
               then (slice_from pktsize buf, datatype) :: rest
               else rest)) >>
    modify (fun c => set_send_buf_len (_send_buf_len c - len data) c) >>
    modify (fun c => set_send_window (_send_window c - len data) c) >>
    match datatype with
    | None => _send_packet MSG_CHANNEL_DATA [Packet.String data]
    | Some dt =>
      _send_packet MSG_CHANNEL_EXTENDED_DATA
        [Packet.UInt32 dt; Packet.String data]
    end
  end.

Fixpoint flush_loop (fuel : nat) : M unit := fun c =>
  if can_send c then
    match fuel with
    | O => Diverge
    | S fuel' => (flush_body >> flush_loop fuel') c
    end
  else Done tt c [].

(** Every run of the body that changes the buffer removes a chunk or
    shortens the head chunk, so this many runs empty it; a run that leaves
    the buffer as it was repeats for ever. *)
Definition flush_fuel (c : chan) : nat :=
  length (_send_buf c) + length (concat (fst <$> _send_buf c)).

(** The end of [_flush_send_buf]: once the buffer is empty, a pending
    EOF or close goes out. *)
Definition flush_finish : M unit :=
  let* c := get in
  match _send_buf c with
  | [] =>
    match _send_state c with
    | eof_pending =>
      _send_packet MSG_CHANNEL_EOF [] >> modify (set_send_state eof_sent)
    | close_pending =>
      _send_packet MSG_CHANNEL_CLOSE [] >> modify (set_send_state close_sent)
    | _ => ret tt
    end
  | _ :: _ => ret tt
  end.

Definition _flush_send_buf : M unit :=
  (let* c := get in flush_loop (flush_fuel c)) >>
  _pause_resume_writing >>
  flush_finish.

(** [self._send_state in {'close_pending', 'close_sent', 'closed'}]. *)
Definition closing (s : state) : bool :=
  match s with
  | close_pending | close_sent | closed => true
  | _ => false
  end.

Definition abort : M unit :=
  let* c := get in
  match _send_state c with
  | close_sent | closed => ret tt
  | _ => _send_packet MSG_CHANNEL_CLOSE [] >> modify (set_send_state close_sent)
  end.

Definition close : M unit :=
  let* c := get in
  if closing (_send_state c) then ret tt
  else modify (set_send_state close_pending) >> _flush_send_buf.

Definition write_eof : M unit :=
  let* c := get in
  match _send_state c with
  | open => modify (set_send_state eof_pending) >> _flush_send_buf
  | _ => raise (BrokenPipeError "Channel not open for sending")
  end.

(** ** Waiters of the open handshake, requests and close *)

(** [_open], up to the point where the coroutine awaits the waiter it
    returns. *)
Definition _open (chantype : bytes) (args : list Packet.field) : M nat :=
  let* c := get in
  match _send_state c with
  | closed =>
    let* waiter := new_future in
    modify (set_open_waiter (Some waiter)) >>
    match _recv_chan c with
    | None => raise TypeError
    | Some n =>
      conn_send_packet
        (Packet.Byte MSG_CHANNEL_OPEN :: Packet.String chantype
         :: Packet.UInt32 n :: Packet.UInt32 (_recv_window c)
         :: Packet.UInt32 (_recv_pktsize c) :: args)
    end >>
    modify (set_send_state open_sent) >>
    ret waiter
  | _ => raise (OSError "Channel already open")
  end.

Definition process_open_confirmation (send_chan send_window send_pktsize : Z)
    (pkt : bytes) : M unit :=
  let* c := get in
  match _open_waiter c with
  | None => raise (DisconnectError DISC_PROTOCOL_ERROR "Channel not being opened")
  | Some w =>
    modify (set_send_chan (Some send_chan)) >>
    modify (set_send_window send_window) >>
    modify (set_send_pktsize send_pktsize) >>
    modify (set_send_state open) >>
    modify (set_recv_state open) >>
    (let* gone := cancelled w in
     when (negb gone) (set_result w (VPacket pkt))) >>
    modify (set_open_waiter None)
  end.

(** [_make_request], up to the point where the coroutine awaits the
    waiter it returns. *)
Definition _make_request (request : bytes) (args : list Packet.field)
  : M nat :=
  let* waiter := new_future in
  modify (fun c => set_request_waiters (_request_waiters c ++ [waiter]) c) >>
  _send_request request args true >>
  ret waiter.

(** [_process_response], for a [CHANNEL_SUCCESS] or [CHANNEL_FAILURE]
    packet whose payload has been checked to be empty. *)
Definition _process_response (pkttype : msgtype) : M unit :=
  let* c := get in
  match _send_state c with
  | open | eof_pending | eof_sent | close_pending | close_sent =>
    match _request_waiters c with
    | waiter :: rest =>
      modify (set_request_waiters rest) >>
      let* gone := cancelled waiter in
      when (negb gone)
        (set_result waiter
           (VBool (bool_decide (pkttype = MSG_CHANNEL_SUCCESS))))
    | [] =>
      raise (DisconnectError DISC_PROTOCOL_ERROR "Unexpected channel response")
    end
  | _ => raise (DisconnectError DISC_PROTOCOL_ERROR "Channel not open")
  end.

(** [wait_closed]: [Some waiter] when the coroutine suspends on a new
    close waiter, [None] when it returns at once. *)
Definition wait_closed : M (option nat) :=
  let* c := get in
  match _session c with
  | Some _ =>
    let* waiter := new_future in
    modify (fun c => set_close_waiters (_close_waiters c ++ [waiter]) c) >>
    ret (Some waiter)
  | None => ret None
  end.

(** ** Receive path *)

(** [self._recv_state in {'open', 'eof_received'}]. *)
Definition receiving (s : state) : bool :=
  match s with
  | open | eof_received => true
  | _ => false
  end.

(** [_process_window_adjust], for a parsed [adjust]. *)
Definition _process_window_adjust (adjust : Z) : M unit :=
  let* c := get in
  if receiving (_recv_state c) then
    modify (set_send_window (_send_window c + adjust)) >> _flush_send_buf
  else raise (DisconnectError DISC_PROTOCOL_ERROR "Channel not open").

Definition _process_close : M unit :=
  let* c := get in
  if receiving (_recv_state c) then
    modify (set_send_buf []) >>
    modify (set_send_buf_len 0) >>
    (match _send_state c with
     | close_sent | closed => ret tt
     | _ => _send_packet MSG_CHANNEL_CLOSE []
     end) >>
    emit LoopCallSoonCleanup
  else raise (DisconnectError DISC_PROTOCOL_ERROR "Channel not open").

Definition pause_reading : M unit := modify (set_recv_paused true).

(** The value of [self._encoding] when it is truthy. *)
Definition text_encoding (c : chan) : option string :=
  match _encoding c with
  | Some "" => None
  | e => e
  end.

Section Codecs.

(** The codecs of the Python runtime: [b.decode(encoding)] and
    [s.encode(encoding)]. *)
Variable bytes_decode : string -> bytes -> decode_result.
Variable str_encode : string -> pystr -> encode_result.

(** The [while input:] loop of [_deliver_data]; the result is the input
    left over when it ends.  Each round either ends the loop or drops a
    non-empty prefix, so [length input] rounds are always enough. *)
Fixpoint decode_loop (fuel : nat) (encoding : string) (datatype : option Z)
    (input : bytes) : M bytes :=
  match input with
  | [] => ret []
  | _ :: _ =>
    match fuel with
    | O => diverge
    | S fuel' =>
      match bytes_decode encoding input with
      | Decoded data =>
        call_session (SessDataReceived (PStr data) datatype) >> ret []
      | UnicodeDecodeError start reason =>
        if (0 <? start)%nat then
          match bytes_decode "utf-8" (take start input) with
          | Decoded data =>
            call_session (SessDataReceived (PStr data) datatype) >>
            decode_loop fuel' encoding datatype (drop start input)
          | UnicodeDecodeError _ _ => raise UnicodeError
          | LookupError => raise CodecLookupError
          end
        else if bool_decide (reason = "unexpected end of data") then ret input
        else raise (DisconnectError DISC_PROTOCOL_ERROR "Unicode decode error")
      | LookupError => raise CodecLookupError
      end
    end
  end.

(** [_deliver_data].  The test [recv_window < init_recv_window / 2]
    compares an integer with the exact half of an integer, that is
    [2 * recv_window < init_recv_window]. *)
Definition _deliver_data (data : rdata) (datatype : option Z) : M unit :=
  match data with
  | EOF =>
    let* c := get in
    if bool_decide (is_Some (_recv_partial c !! datatype)) then
      raise (DisconnectError DISC_PROTOCOL_ERROR "Unicode decode error")
    else
      match _session c with
      | None => raise AttributeError
      | Some s =>
        emit SessEofReceived >> when (negb (eof_received_answer s)) close
      end
  | Data d =>
    modify (fun c => set_recv_window (_recv_window c - len d) c) >>
    (let* c := get in
     when (2 * _recv_window c <? _init_recv_window c)
       (_send_packet MSG_CHANNEL_WINDOW_ADJUST
          [Packet.UInt32 (_init_recv_window c - _recv_window c)] >>
        modify (set_recv_window (_init_recv_window c)))) >>
    let* c := get in
    match text_encoding c with
    | Some encoding =>
      let input :=
        match _recv_partial c !! datatype with
        | Some tail => tail ++ d
        | None => d
        end in
      modify (set_recv_partial (delete datatype (_recv_partial c))) >>
      let* rest := decode_loop (length input) encoding datatype input in
      match rest with
      | [] => ret tt
      | _ :: _ =>
        modify (fun c =>
                  set_recv_partial (<[datatype := rest]> (_recv_partial c)) c)
      end
    | None => call_session (SessDataReceived (PBytes d) datatype)
    end
  end.

Definition _accept_data (data : rdata) (datatype : option Z) : M unit :=
  match data with
  | Data [] => ret tt
  | _ =>
    let* c := get in
    if closing (_send_state c) then ret tt
    else if match data with
            | Data d => _recv_window c <? len d
            | EOF => false
            end
    then raise (DisconnectError DISC_PROTOCOL_ERROR "Window exceeded")
    else if _recv_paused c then
      modify (set_recv_buf (_recv_buf c ++ [(data, datatype)]))
    else _deliver_data data datatype
  end.

(** [_process_data], for a parsed [data]. *)
Definition _process_data (data : bytes) : M unit :=
  let* c := get in
  match _recv_state c with
  | open => _accept_data (Data data) None
  | _ =>
    raise (DisconnectError DISC_PROTOCOL_ERROR "Channel not open for sending")
  end.

(** [_process_extended_data], for a parsed [datatype] and [data]. *)
Definition _process_extended_data (datatype : Z) (data : bytes) : M unit :=
  let* c := get in
  match _recv_state c with
  | open =>
    if bool_decide (datatype ∈ _read_datatypes c) then
      _accept_data (Data data) (Some datatype)
    else raise (DisconnectError DISC_PROTOCOL_ERROR "Invalid extended data type")
  | _ =>
    raise (DisconnectError DISC_PROTOCOL_ERROR "Channel not open for sending")
  end.

Definition _process_eof : M unit :=
  let* c := get in
  match _recv_state c with
  | open => modify (set_recv_state eof_received) >> _accept_data EOF None
  | _ =>
    raise (DisconnectError DISC_PROTOCOL_ERROR "Channel not open for sending")
  end.

(** A callback runs the session's code before it returns, and that code
    may call [pause_reading()]: [pauses ev] tells whether the session
    does so inside the callback [ev].  The [while] loop of
    [resume_reading] is the one place where the channel tests
    [_recv_paused] again after a callback it made itself. *)
Variable pauses : event -> bool.

Definition session_callback (e : event) : bool :=
  match e with
  | SessDataReceived _ _ | SessEofReceived | SessConnectionLost _
  | SessPauseWriting | SessResumeWriting => true
  | ConnSendPacket _ | ConnRemoveChannel _ | LoopCallSoonCleanup => false
  end.

(** Whether the session called [pause_reading()] inside one of the
    callbacks of a run. *)
Definition pause_requested (out : list event) : bool :=
  existsb (fun e => session_callback e && pauses e) out.

(** [_deliver_data] as the loop of [resume_reading] sees it, with what
    the session did to [_recv_paused] inside the callbacks.  Nothing
    [_deliver_data] does after a callback reads or writes the flag, so
    it is set when the delivery has returned. *)
Definition deliver_buffered (data : rdata) (datatype : option Z)
  : M unit := fun c =>
  match _deliver_data data datatype c with
  | Done r c' out =>
    Done r (if pause_requested out then set_recv_paused true c' else c') out
  | Raise e => Raise e
  | Diverge => Diverge
  end.

(** The [while] loop of [resume_reading]; a buffered item is popped, then
    delivered, and the loop stops when the buffer is empty or the
    session has paused reading again.  Delivery never buffers, so
    [length _recv_buf] rounds are enough. *)
Fixpoint resume_loop (fuel : nat) : M unit := fun c =>
  match _recv_buf c with
  | [] => Done tt c []
  | (data, datatype) :: rest =>
    if _recv_paused c then Done tt c []
    else
      match fuel with
      | O => Diverge
      | S fuel' =>
        (modify (set_recv_buf rest) >>
         deliver_buffered data datatype >>
         resume_loop fuel') c
      end
  end.

Definition resume_reading : M unit :=
  let* c := get in
  when (_recv_paused c)
    (modify (set_recv_paused false) >> resume_loop (length (_recv_buf c))).

(** [write], for [bytes] on a binary channel and [str] on a text one. *)
Definition write (data : payload) (datatype : option Z) : M unit :=
  let* c := get in
  match _send_state c with
  | open =>
    if match datatype with
       | Some dt => bool_decide (dt ∈ _write_datatypes c)
       | None => true
       end
    then
      let empty := match data with PBytes b => len b =? 0 | PStr s => len s =? 0 end in
      if empty then ret tt
      else
        let* raw :=
          match text_encoding c, data with
          | Some encoding, PStr s =>
            match str_encode encoding s with
            | Encoded b => ret b
            | UnicodeEncodeError => raise UnicodeError
            end
          | Some _, PBytes _ => raise AttributeError
          | None, PBytes b => ret b
          | None, PStr _ => raise TypeError
          end in
        modify (fun c => set_send_buf (_send_buf c ++ [(raw, datatype)]) c) >>
        modify (fun c => set_send_buf_len (_send_buf_len c + len raw) c) >>
        _flush_send_buf
    else raise (OSError "Invalid extended data type")
  | _ => raise (BrokenPipeError "Channel not open for sending")
  end.

End Codecs.

(** ** Construction

    [SSHChannel.__init__]: a closed channel with reading paused and the
    default write buffer limits of [set_write_buffer_limits()], registered
    with the connection under [recv_chan].  The class attributes
    [_read_datatypes] and [_write_datatypes] are those of the variant. *)
Definition SSHChannel_init (encoding : option string) (window max_pktsize : Z)
    (recv_chan : Z) (read_datatypes write_datatypes : gset Z) : chan :=
  {| _conn := true; _session := None; _encoding := encoding;
     _send_state := closed; _send_chan := None; _send_window := 0;
     _send_pktsize := 0; _send_paused := false; _send_buf := [];
     _send_buf_len := 0;
     _recv_state := closed; _init_recv_window := window;
     _recv_window := window; _recv_pktsize := max_pktsize;
     _recv_paused := true; _recv_buf := []; _recv_partial := ∅;
     _open_waiter := None; _request_waiters := []; _close_waiters := [];
     _send_high_water := 65536; _send_low_water := 65536 `div` 4;
     _recv_chan := Some recv_chan;
     _read_datatypes := read_datatypes; _write_datatypes := write_datatypes;
     futures := [] |}.

(** The assignment [self._session = session] made once the channel is
    open ([create], [_finish_open_request]). *)
Definition install_session (s : session) : M unit :=
  modify (set_session (Some s)).

(** Run a method for its effect on the channel. *)
Definition exec {A : Type} (m : M A) (c : chan) : option chan :=
  match m c with
  | Done _ c' _ => Some c'
  | _ => None
  end.

(** The events of a run. *)
Definition events {A : Type} (m : M A) (c : chan) : list event :=
  match m c with
  | Done _ _ out => out
  | _ => []
  end.

(** ** Observing runs *)

(** The value carried by a [CHANNEL_WINDOW_ADJUST] packet. *)
Definition window_adjust_of (e : event) : option Z :=
  match e with
  | ConnSendPacket [Packet.Byte MSG_CHANNEL_WINDOW_ADJUST; Packet.UInt32 _;
                    Packet.UInt32 n] => Some n
  | _ => None
  end.

Definition window_adjusts (out : list event) : list Z :=
  omap window_adjust_of out.

(** The payload of an outbound [CHANNEL_DATA] or [CHANNEL_EXTENDED_DATA]
    packet. *)
Definition data_payload_of (e : event) : option bytes :=
  match e with
  | ConnSendPacket [Packet.Byte MSG_CHANNEL_DATA; Packet.UInt32 _;
                    Packet.String data] => Some data
  | ConnSendPacket [Packet.Byte MSG_CHANNEL_EXTENDED_DATA; Packet.UInt32 _;
                    Packet.UInt32 _; Packet.String data] => Some data
  | _ => None
  end.

Definition data_payloads (out : list event) : list bytes :=
  omap data_payload_of out.

Definition is_channel_close (e : event) : bool :=
  match e with
  | ConnSendPacket [Packet.Byte MSG_CHANNEL_CLOSE; Packet.UInt32 _] => true
  | _ => false
  end.

(** How many [CHANNEL_CLOSE] packets a run sent. *)
Definition channel_closes (out : list event) : nat :=
  length (filter (fun e => is_channel_close e = true) out).

Definition is_session_data (e : event) : Prop :=
  match e with
  | SessDataReceived _ _ => True
  | _ => False
  end.

(** An inbound data packet, parsed. *)
Inductive inbound : Type :=
| ChannelData (data : bytes)
| ChannelExtendedData (datatype : Z) (data : bytes).

Definition inbound_len (p : inbound) : Z :=
  match p with
  | ChannelData data => len data
  | ChannelExtendedData _ data => len data
  end.

(** The extended data type of a packet is one the channel reads. *)
Definition inbound_valid (c : chan) (p : inbound) : Prop :=
  match p with
  | ChannelData _ => True
  | ChannelExtendedData datatype _ => datatype ∈ _read_datatypes c
  end.

(** The window left after delivering [n] bytes, and the adjustment
    announced for it. *)
Definition after_debit (c : chan) (n : Z) : Z :=
  let w := _recv_window c - n in
  if 2 * w <? _init_recv_window c then _init_recv_window c else w.

Definition adjust_for (c : chan) (n : Z) : list Z :=
  let w := _recv_window c - n in
  if 2 * w <? _init_recv_window c then [_init_recv_window c - w] else [].

Section Observers.

Variable bytes_decode : string -> bytes -> decode_result.

(** The packet handler the connection dispatches an inbound data packet
    to. *)
Definition process_inbound (p : inbound) : M unit :=
  match p with
  | ChannelData data => _process_data bytes_decode data
  | ChannelExtendedData datatype data =>
    _process_extended_data bytes_decode datatype data
  end.

(** The number of payload bytes taken in since the last
    [CHANNEL_WINDOW_ADJUST] was sent, read off after each packet of a
    sequence, up to the first packet that raises.  [acc] is the count
    before the sequence; a packet that makes the channel send an
    adjustment starts the count afresh. *)
Fixpoint accepted_since_adjust (acc : Z) (ps : list inbound) (c : chan)
  : list Z :=
  match ps with
  | [] => []
  | p :: ps' =>
    match process_inbound p c with
    | Done _ c' out =>
      let acc' := acc + inbound_len p in
      acc' :: accepted_since_adjust
                (match window_adjusts out with [] => acc' | _ :: _ => 0 end)
                ps' c'
    | _ => []
    end
  end.

End Observers.

(** ** A channel after the open handshake

    The client's [create]: [_open], the peer's confirmation with its
    channel number, window and packet size, the session, and
    [resume_reading].  The session of the examples calls
    [pause_reading()] from no callback. *)
Definition chantype_session : bytes :=
  [Byte.x73; Byte.x65; Byte.x73; Byte.x73; Byte.x69; Byte.x6f; Byte.x6e].

Definition handshake (send_window send_pktsize : Z) : M unit :=
  _open chantype_session [] >>
  process_open_confirmation 0 send_window send_pktsize [] >>
  install_session (Session true) >>
  resume_reading utf8_codec (fun _ => false).

Definition client_channel (encoding : option string)
    (window send_window send_pktsize : Z) : chan :=
  let c0 :=
    SSHChannel_init encoding window 32768 1 {[EXTENDED_DATA_STDERR]} ∅ in
  default c0 (exec (handshake send_window send_pktsize) c0).


(** The [CHANNEL_WINDOW_ADJUST] packet, if any, sent on delivering [n]
    bytes. *)
Definition adjust_packets (c : chan) (send_chan n : Z) : list event :=
  (fun k => ConnSendPacket [Packet.Byte MSG_CHANNEL_WINDOW_ADJUST;
                            Packet.UInt32 send_chan; Packet.UInt32 k])
  <$> adjust_for c n.

(** ** Concrete channels *)

(** A binary client channel after the handshake: receive window 100, the
    peer's window 4 and packet size 100. *)
Definition binary_channel : chan := client_channel None 100 4 100.

(** An encoder for channels that never encode. *)
Definition no_encoder (encoding : string) (s : pystr) : encode_result :=
  UnicodeEncodeError.

(** The same channel after the session wrote ten bytes, of which the
    peer's window took four, and then called [close()]. *)
Definition closing_channel : chan :=
  default binary_channel
    (exec (write no_encoder (PBytes (replicate 10 Byte.x00)) None >> close)
       binary_channel).

(** Thirty bytes of payload. *)
Definition thirty : bytes := replicate 30 Byte.x00.

(** A channel on which [pause_reading()] was called. *)
Definition paused_channel : chan :=
  default binary_channel (exec pause_reading binary_channel).


(** The binary channel after the session wrote ten bytes: the peer's
    window of four took the first four, six stay buffered. *)
Definition buffered_channel : chan :=
  default binary_channel
    (exec (write no_encoder (PBytes (replicate 10 Byte.x00)) None)
       binary_channel).

(** The same channel after [abort()]. *)
Definition aborted_channel : chan :=
  default buffered_channel (exec abort buffered_channel).

(** A binary channel whose peer grants a window of 1000 bytes in packets
    of at most 100. *)
Definition wide_channel : chan := client_channel None 100 1000 100.

(** ** Observing the send path *)

(** The payload the next run of the loop body of [_flush_send_buf] cuts
    off the head chunk. *)
Definition next_payload (c : chan) : bytes :=
  match _send_buf c with
  | [] => []
  | (buf, _) :: _ =>
    let pktsize := Z.min (_send_window c) (_send_pktsize c) in
    if pktsize <? len buf then slice_to pktsize buf else buf
  end.

(** The total length of a list of payloads. *)
Definition total_len (payloads : list bytes) : Z :=
  foldr (fun p n => len p + n) 0 payloads.

(** Each payload of the list fits the packet size and the send window
    left by the payloads sent before it. *)
Fixpoint fits_window (pktsize window : Z) (payloads : list bytes) : Prop :=
  match payloads with
  | [] => True
  | p :: ps =>
    len p <= Z.min pktsize window /\ fits_window pktsize (window - len p) ps
  end.

(** The channel can reach its collaborators: it holds its connection,
    knows the peer's channel number and has a session. *)
Definition connected (c : chan) : Prop :=
  _conn c = true /\ is_Some (_send_chan c) /\ is_Some (_session c).

(** [c'] is [c] but for the send buffer, its length and the send
    window. *)
Definition send_frame (c c' : chan) : Prop :=
  c' = set_send_window (_send_window c')
         (set_send_buf_len (_send_buf_len c')
            (set_send_buf (_send_buf c') c)).

(** The number of runs of the loop body of [_flush_send_buf] that can
    still change the send buffer. *)
Definition send_measure (c : chan) : nat := flush_fuel c.

(** [c'] is [c] but for what [_flush_send_buf] may write: the send
    buffer, its length, the send window, the pause flag and the send
    state. *)
Definition flush_frame (c c' : chan) : Prop :=
  c' = set_send_state (_send_state c')
         (set_send_paused (_send_paused c')
            (set_send_window (_send_window c')
               (set_send_buf_len (_send_buf_len c')
                  (set_send_buf (_send_buf c') c)))).

(** The send state once the buffer has drained. *)
Definition drained (s : state) : state :=
  match s with
  | eof_pending => eof_sent
  | close_pending => close_sent
  | _ => s
  end.

(** What happens to a channel while it closes: the local side calls
    [close()], the peer opens the send window. *)
Inductive close_step : Type :=
| CallClose
| PeerWindowAdjust (adjust : Z).

Definition close_step_run (s : close_step) : M unit :=
  match s with
  | CallClose => close
  | PeerWindowAdjust adjust => _process_window_adjust adjust
  end.

Fixpoint close_steps_run (steps : list close_step) : M unit :=
  match steps with
  | [] => ret tt
  | s :: steps' => close_step_run s >> close_steps_run steps'
  end.

(** A window adjustment is an unsigned quantity. *)
Definition close_step_ok (s : close_step) : Prop :=
  match s with
  | CallClose => True
  | PeerWindowAdjust adjust => 0 <= adjust
  end.

(** The channel can send: it is connected and open for receiving, its
    send window is not negative and the peer's packet size is positive. *)
Definition sendable (c : chan) : Prop :=
  connected c /\ receiving (_recv_state c) = true
  /\ 0 <= _send_window c /\ 0 < _send_pktsize c.

(** A channel on which [close()] has not been called yet. *)
Definition not_closing (c : chan) : Prop :=
  _send_state c = open \/ _send_state c = eof_pending
  \/ _send_state c = eof_sent.

(** A channel after [close()]: either the close is pending behind
    buffered data, or it has been sent and the buffer is empty. *)
Definition close_requested (c : chan) : Prop :=
  (_send_state c = close_pending /\ _send_buf c <> [])
  \/ (_send_state c = close_sent /\ _send_buf c = []).

(** One if [c] still has to send its close and [c'] has sent it. *)
Definition close_sent_between (c c' : chan) : nat :=
  if bool_decide (_send_state c = close_pending)
     && bool_decide (_send_state c' = close_sent)
  then 1 else 0.

(** ** Observing the request queue *)

(** What happens on the request side of a channel: the local side makes
    a request that wants a reply, the peer answers with
    [CHANNEL_SUCCESS] or [CHANNEL_FAILURE]. *)
Inductive request_step : Type :=
| MakeRequest (request : bytes) (args : list Packet.field)
| Response (success : bool).

Definition response_type (success : bool) : msgtype :=
  if success then MSG_CHANNEL_SUCCESS else MSG_CHANNEL_FAILURE.

(** Run the steps; the result lists the waiters of the requests made,
    in the order the requests were made. *)
Fixpoint requests_run (steps : list request_step) : M (list nat) :=
  match steps with
  | [] => ret []
  | MakeRequest request args :: steps' =>
    let* waiter := _make_request request args in
    let* waiters := requests_run steps' in
    ret (waiter :: waiters)
  | Response success :: steps' =>
    _process_response (response_type success) >> requests_run steps'
  end.

(** The answers of the peer, in order of arrival. *)
Fixpoint responses (steps : list request_step) : list bool :=
  match steps with
  | [] => []
  | MakeRequest _ _ :: steps' => responses steps'
  | Response success :: steps' => success :: responses steps'
  end.

Fixpoint requests_made (steps : list request_step) : nat :=
  match steps with
  | [] => 0
  | MakeRequest _ _ :: steps' => S (requests_made steps')
  | Response _ :: steps' => requests_made steps'
  end.

(** With [pending] requests in flight at the start, no response of the
    sequence arrives before its request was made. *)
Fixpoint never_ahead (pending : nat) (steps : list request_step) : Prop :=
  match steps with
  | [] => True
  | MakeRequest _ _ :: steps' => never_ahead (S pending) steps'
  | Response _ :: steps' =>
    match pending with
    | O => False
    | S pending' => never_ahead pending' steps'
    end
  end.

(** [self._send_state] is one in which [_process_response] takes a
    response. *)
Definition takes_responses (s : state) : bool :=
  match s with
  | open | eof_pending | eof_sent | close_pending | close_sent => true
  | _ => false
  end.

(** The channel can make requests and take responses. *)
Definition requesting (c : chan) : Prop :=
  _conn c = true /\ is_Some (_send_chan c)
  /\ takes_responses (_send_state c) = true.

(** The state a waiter is in after the run, by its place in the queue:
    the [i]-th waiter holds the [i]-th response, or is still pending. *)
Definition settled_by (answers : list bool) (i : nat) : future :=
  match answers !! i with
  | Some success => Result (VBool success)
  | None => Pending
  end.

(** The request queue holds distinct pending waiters. *)
Definition queue_pending (c : chan) : Prop :=
  NoDup (_request_waiters c)
  /\ forall w, w ∈ _request_waiters c -> futures c !! w = Some Pending.

(** ** Channels with waiters, for the concrete scenarios *)

(** The client channel between the peer's open confirmation and the
    installation of the session by [create]. *)
Definition confirmed_channel : chan :=
  let c0 :=
    SSHChannel_init None 100 32768 1 {[EXTENDED_DATA_STDERR]} ∅ in
  default c0
    (exec (_open chantype_session [] >>
           process_open_confirmation 0 4 100 []) c0).

(** The request name [b'pty-req']. *)
Definition request_pty : bytes :=
  [Byte.x70; Byte.x74; Byte.x79; Byte.x2d; Byte.x72; Byte.x65; Byte.x71].

(** The binary channel with one request in flight whose caller gave up
    and cancelled the waiter. *)
Definition cancelled_request_channel : chan :=
  match _make_request request_pty [] binary_channel with
  | Done waiter c _ => cancel waiter c
  | _ => binary_channel
  end.

(** A channel whose [_open] is in flight and whose caller cancelled the
    open waiter. *)
Definition cancelled_open_channel : chan :=
  let c0 :=
    SSHChannel_init None 100 32768 1 {[EXTENDED_DATA_STDERR]} ∅ in
  match _open chantype_session [] c0 with
  | Done waiter c _ => cancel waiter c
  | _ => c0
  end.

(** The binary channel with two coroutines in [wait_closed], the first
    of which was cancelled. *)
Definition waiting_channel : chan :=
  match (let* w1 := wait_closed in
         let* w2 := wait_closed in
         ret (w1, w2)) binary_channel with
  | Done (Some w1, _) c _ => cancel w1 c
  | _ => binary_channel
  end.

(** From [fs] to [fs'] nothing happened to the futures but that some
    pending ones were failed. *)
Definition failed_only (fs fs' : list future) : Prop :=
  forall w,
    fs' !! w = fs !! w
    \/ (fs !! w = Some Pending /\ exists e, fs' !! w = Some (Exception e)).

(** The waiting channel after the connection was lost. *)
Definition torn_down_channel : chan :=
  default waiting_channel (exec (_cleanup None) waiting_channel).

(** A client channel with encoding ["utf-8"] after the handshake. *)
Definition text_channel : chan := client_channel (Some "utf-8") 100 4 100.

(** The first two bytes of U+2603 in UTF-8, and its last byte followed by
    the letter x. *)
Definition snowman_head : bytes := [Byte.xe2; Byte.x98].
Definition snowman_tail_x : bytes := [Byte.x83; Byte.x78].
(** ** The send side as a byte stream *)

(** The payload of an outbound data packet with its data type: [None]
    for [CHANNEL_DATA], the extended data type for
    [CHANNEL_EXTENDED_DATA]. *)
Definition sent_chunk_of (e : event) : option (bytes * option Z) :=
  match e with
  | ConnSendPacket [Packet.Byte MSG_CHANNEL_DATA; Packet.UInt32 _;
                    Packet.String data] => Some (data, None)
  | ConnSendPacket [Packet.Byte MSG_CHANNEL_EXTENDED_DATA; Packet.UInt32 _;
                    Packet.UInt32 dt; Packet.String data] =>
    Some (data, Some dt)
  | _ => None
  end.

Definition sent_chunks (out : list event) : list (bytes * option Z) :=
  omap sent_chunk_of out.

(** A list of chunks as one stream of bytes, each tagged with the data
    type of its chunk. *)
Definition tagged (chunks : list (bytes * option Z))
  : list (Byte.byte * option Z) :=
  chunks ≫= (fun chunk => (fun b => (b, chunk.2)) <$> chunk.1).

(** [get_write_buffer_size]. *)
Definition get_write_buffer_size (c : chan) : Z := _send_buf_len c.

(** The number of bytes that are in [_send_buf]. *)
Definition buffered_len (c : chan) : Z := len (tagged (_send_buf c)).

(** The calls to [pause_writing] and [resume_writing] of a run. *)
Definition is_writing_event (e : event) : bool :=
  match e with
  | SessPauseWriting | SessResumeWriting => true
  | _ => false
  end.

Definition writing_events (out : list event) : list event :=
  filter (fun e => is_writing_event e = true) out.

(** What the session and the peer do to the send side of a channel. *)
Inductive send_step : Type :=
| SessionWrite (data : payload) (datatype : option Z)
| SessionWriteEof
| SessionClose
| SessionAbort
| InboundWindowAdjust (adjust : Z)
| InboundClose.

Section SendSteps.

Variable str_encode : string -> pystr -> encode_result.

Definition send_step_run (s : send_step) : M unit :=
  match s with
  | SessionWrite data datatype => write str_encode data datatype
  | SessionWriteEof => write_eof
  | SessionClose => close
  | SessionAbort => abort
  | InboundWindowAdjust adjust => _process_window_adjust adjust
  | InboundClose => _process_close
  end.

Fixpoint send_steps_run (steps : list send_step) : M unit :=
  match steps with
  | [] => ret tt
  | s :: steps' => send_step_run s >> send_steps_run steps'
  end.

(** The chunk a [write] appends to the send buffer: nothing for empty
    data, the data of a binary channel, the encoded string of a text
    channel. *)
Definition written_chunk (c : chan) (s : send_step)
  : list (bytes * option Z) :=
  match s with
  | SessionWrite data datatype =>
    match text_encoding c, data with
    | None, PBytes ((_ :: _) as b) => [(b, datatype)]
    | Some encoding, PStr ((_ :: _) as s) =>
      match str_encode encoding s with
      | Encoded b => [(b, datatype)]
      | UnicodeEncodeError => []
      end
    | _, _ => []
    end
  | _ => []
  end.

Definition written (c : chan) (steps : list send_step)
  : list (bytes * option Z) :=
  steps ≫= written_chunk c.

End SendSteps.

(** The session's view of the pause flag: starting from [paused], the
    calls [evs] to [pause_writing] and [resume_writing] take turns and
    leave the flag at [paused']. *)
Fixpoint alternates (paused : bool) (evs : list event) (paused' : bool)
  : Prop :=
  match evs with
  | [] => paused' = paused
  | SessPauseWriting :: evs' => paused = false /\ alternates true evs' paused'
  | SessResumeWriting :: evs' => paused = true /\ alternates false evs' paused'
  | _ :: _ => False
  end.

(** The pause flag agrees with the water marks: writing is paused only
    above the low-water mark and goes on only up to the high-water
    mark. *)
Definition backpressure_consistent (c : chan) : Prop :=
  if _send_paused c then _send_low_water c < _send_buf_len c
  else _send_buf_len c <= _send_high_water c.

(** The steps that leave the buffered data alone. *)
Definition keeps_send_buf (s : send_step) : Prop :=
  match s with
  | InboundClose => False
  | _ => True
  end.

(** ** Write buffer limits *)

(** The limits [set_write_buffer_limits(high, low)] settles on, high
    first, or [None] where it raises [ValueError]. *)
Definition write_buffer_limits (high low : option Z) : option (Z * Z) :=
  let high :=
    match high with
    | Some h => h
    | None => match low with Some l => 4 * l | None => 65536 end
    end in
  let low :=
    match low with
    | Some l => l
    | None => high `div` 4
    end in
  if (0 <=? low) && (low <=? high) then Some (high, low) else None.

(** [set_write_buffer_limits]; [None] stands for the [ValueError], which
    is raised before the channel is touched. *)
Definition set_write_buffer_limits (high low : option Z) (c : chan)
  : option (outcome unit) :=
  match write_buffer_limits high low with
  | None => None
  | Some (high, low) =>
    Some ((modify (set_send_high_water high) >>
           modify (set_send_low_water low) >>
           _pause_resume_writing) c)
  end.

(** The binary channel with a high-water mark of five bytes and a
    low-water mark of one. *)
Definition limited_channel : chan :=
  match set_write_buffer_limits (Some 5) (Some 1) binary_channel with
  | Some (Done _ c _) => c
  | _ => binary_channel
  end.

(** Ten bytes, numbered. *)
Definition ten : bytes :=
  [Byte.x00; Byte.x01; Byte.x02; Byte.x03; Byte.x04; Byte.x05; Byte.x06;
   Byte.x07; Byte.x08; Byte.x09].

(** A session that writes ten bytes to standard output, is granted
    three bytes of window, writes two more bytes, closes and is granted
    the rest. *)
Definition stream_steps : list send_step :=
  [SessionWrite (PBytes ten) None; InboundWindowAdjust 3;
   SessionWrite (PBytes [Byte.x0a; Byte.x0b]) None; SessionClose;
   InboundWindowAdjust 20].

Definition streamed_channel : chan :=
  default limited_channel
    (exec (send_steps_run no_encoder stream_steps) limited_channel).

(** The channel with the limits 5 and 1 after ten bytes were written into
    a window of four: six bytes wait and writing is paused. *)
Definition paused_writer : chan :=
  default limited_channel
    (exec (write no_encoder (PBytes ten) None) limited_channel).

(** ** Half-closing the send side *)

Definition is_channel_eof (e : event) : bool :=
  match e with
  | ConnSendPacket [Packet.Byte MSG_CHANNEL_EOF; Packet.UInt32 _] => true
  | _ => false
  end.

(** How many [CHANNEL_EOF] packets a run sent. *)
Definition channel_eofs (out : list event) : nat :=
  length (filter (fun e => is_channel_eof e = true) out).

(** The events of a run that follow its first [CHANNEL_EOF]. *)
Fixpoint after_eof (out : list event) : list event :=
  match out with
  | [] => []
  | e :: out' => if is_channel_eof e then out' else after_eof out'
  end.

(** The send side can no longer take data or send an EOF: the state is
    neither ['open'] nor ['eof_pending'] and nothing is buffered. *)
Definition past_eof (c : chan) : Prop :=
  _send_buf c = [] /\ _send_state c <> open /\ _send_state c <> eof_pending.

(** A channel that has sent its EOF has nothing buffered. *)
Definition eof_after_data (c : chan) : Prop :=
  _send_state c = eof_sent -> _send_buf c = [].

(** A session that writes ten bytes and half-closes; the peer grants
    three bytes of window, then twenty, and the session closes. *)
Definition eof_steps : list send_step :=
  [SessionWrite (PBytes ten) None; SessionWriteEof; InboundWindowAdjust 3;
   InboundWindowAdjust 20; SessionClose].

Definition half_closed_channel : chan :=
  default limited_channel
    (exec (send_steps_run no_encoder eof_steps) limited_channel).

(** ** Closing from both sides *)

(** A session that writes ten bytes, half-closes and closes while the
    peer's window is exhausted, and then aborts. *)
Definition closing_steps : list send_step :=
  [SessionWrite (PBytes ten) None; SessionWriteEof; SessionClose;
   InboundWindowAdjust 2; SessionAbort; SessionClose].

(** ** Observing deliveries *)





(** The binary channel after [pause_reading()], three bytes on standard
    output and two on standard error. *)
Definition eof_waiting_channel : chan :=
  default paused_channel
    (exec (_process_data utf8_codec [Byte.x61; Byte.x62; Byte.x63] >>
           _process_extended_data utf8_codec EXTENDED_DATA_STDERR
             [Byte.x64; Byte.x65]) paused_channel).

(** The same channel after the peer's EOF. *)
Definition backlog_channel : chan :=
  default eof_waiting_channel
    (exec (_process_eof utf8_codec) eof_waiting_channel).

(** A session that calls [pause_reading()] when it is handed extended
    data, and one that calls it from no callback. *)
Definition pauses_on_extended_data (e : event) : bool :=
  match e with
  | SessDataReceived _ (Some _) => true
  | _ => false
  end.

Definition never_pauses (e : event) : bool := false.


(** ** Observing the teardown *)

(** What [_cleanup] tells the session and the connection. *)
Definition cleanup_events (exc : option exn) (c : chan) : list event :=
  match _session c with
  | Some _ => [SessConnectionLost exc]
  | None => []
  end ++
  match _conn c, _recv_chan c with
  | true, Some n => if n =? 0 then [] else [ConnRemoveChannel n]
  | _, _ => []
  end.

(** ** Integers and ASCII text on the wire *)

(** [int.to_bytes(length, 'big')] and [int.from_bytes(b, 'big')] of the
    Python runtime, for unsigned integers: the digits in base 256, most
    significant first.  [to_bytes] raises [OverflowError], here [None],
    for a negative integer or one that does not fit. *)
Definition byte_of_int (v : Z) : Byte.byte :=
  default Byte.x00 (Byte.of_N (Z.to_N (v `mod` 256))).

Definition int_of_byte (b : Byte.byte) : Z := Z.of_N (Byte.to_N b).

Fixpoint digits_big (length : nat) (v : Z) : bytes :=
  match length with
  | O => []
  | S length' =>
    byte_of_int (v `div` 256 ^ Z.of_nat length') :: digits_big length' v
  end.

Definition int_to_bytes (length : nat) (v : Z) : option bytes :=
  if (0 <=? v) && (v <? 256 ^ Z.of_nat length)
  then Some (digits_big length v) else None.

Definition int_from_bytes (b : bytes) : Z :=
  foldl (fun acc x => acc * 256 + int_of_byte x) 0 b.

(** Modelled from the spec: [asyncssh/packet.py] is not among the
    sources.  Where the channel builds a byte string out of them,
    [Byte(value)] is the one byte of an unsigned 8-bit integer and
    [UInt32(value)] the four bytes of an unsigned 32-bit integer, most
    significant first, as the wire format has them; an integer out of
    range raises, here [None]. *)
Module Wire.
Definition Byte (value : Z) : option bytes := int_to_bytes 1 value.
Definition UInt32 (value : Z) : option bytes := int_to_bytes 4 value.
End Wire.

(** [b.decode('ascii')] and [s.encode('ascii')] of the Python runtime. *)
Fixpoint ascii_decode_from (pos : nat) (b : bytes) : decode_result :=
  match b with
  | [] => Decoded []
  | x :: b' =>
    if (Byte.to_N x <? 128)%N then
      match ascii_decode_from (S pos) b' with
      | Decoded s => Decoded (Byte.to_N x :: s)
      | e => e
      end
    else UnicodeDecodeError pos "ordinal not in range(128)"
  end.

Definition ascii_decode (b : bytes) : decode_result := ascii_decode_from 0 b.

Fixpoint ascii_encode (s : pystr) : encode_result :=
  match s with
  | [] => Encoded []
  | cp :: s' =>
    if (cp <? 128)%N then
      match Byte.of_N cp, ascii_encode s' with
      | Some x, Encoded b => Encoded (x :: b)
      | _, _ => UnicodeEncodeError
      end
    else UnicodeEncodeError
  end.

(** A byte string literal of ASCII characters. *)
Definition ascii_bytes (s : string) : bytes := String.list_byte_of_string s.

(** ** Terminal modes

    The encoded terminal modes of a [pty-req] request: the client's
    [create] builds the string, the server's [_process_pty_req_request]
    takes it apart. *)

(** The exceptions [create] raises before it sends the request. *)
Inductive create_error : Type :=
| ValueError (msg : string)
| OverflowError
| UnicodeEncodeError_raised.

Section TerminalModes.

(** The opcodes [PTY_OP_END] and [PTY_OP_RESERVED] of
    [asyncssh/constants.py], which is not among the sources. *)
Variable PTY_OP_END PTY_OP_RESERVED : Z.

(** The [for mode, value in term_modes.items()] loop of [create];
    [items] is the dictionary in the order Python iterates over it and
    [modes] the string built so far. *)
Fixpoint encode_modes_loop (items : list (Z * Z)) (modes : bytes)
  : create_error + bytes :=
  match items with
  | [] => inr modes
  | (mode, value) :: items' =>
    if (mode <=? PTY_OP_END) || (PTY_OP_RESERVED <=? mode)
    then inl (ValueError "Invalid pty mode")
    else
      match Wire.Byte mode, Wire.UInt32 value with
      | Some b, Some v => encode_modes_loop items' (modes ++ b ++ v)
      | None, _ => inl (ValueError "bytes must be in range(0, 256)")
      | _, None => inl OverflowError
      end
  end.

(** The modes string of [create], with its terminator. *)
Definition encode_modes (items : list (Z * Z)) : create_error + bytes :=
  match encode_modes_loop items [] with
  | inr modes =>
    match Wire.Byte PTY_OP_END with
    | Some e => inr (modes ++ e)
    | None => inl (ValueError "bytes must be in range(0, 256)")
    end
  | inl e => inl e
  end.

(** The [while idx < len(modes)] loop of [_process_pty_req_request];
    [modes] is what is left of the string from [idx] on and
    [term_modes] the dictionary [self._term_modes]. *)
Fixpoint decode_modes_loop (modes : bytes) (term_modes : gmap Z Z)
  : exn + gmap Z Z :=
  match modes with
  | [] => inr term_modes
  | m :: rest =>
    let mode := int_of_byte m in
    if (mode =? PTY_OP_END) || (PTY_OP_RESERVED <=? mode) then inr term_modes
    else
      match rest with
      | b1 :: b2 :: b3 :: b4 :: rest' =>
        decode_modes_loop rest'
          (<[mode := int_from_bytes [b1; b2; b3; b4]]> term_modes)
      | _ =>
        inl (DisconnectError DISC_PROTOCOL_ERROR "Invalid pty modes string")
      end
  end.

(** The terminal size [create] sends: four integers, two integers with
    the pixel sizes zero, or nothing at all. *)
Definition pty_term_size (term_size : list Z)
  : create_error + Z * Z * Z * Z :=
  match term_size with
  | [width; height; pixwidth; pixheight] =>
    inr (width, height, pixwidth, pixheight)
  | [width; height] => inr (width, height, 0, 0)
  | [] => inr (0, 0, 0, 0)
  | _ =>
    inl (ValueError "If set, terminal size must be a tuple of 2 or 4 integers")
  end.

(** The arguments of the [pty-req] request [create] makes for a
    non-empty [term_type].  [UInt32(width)] and the three after it are
    evaluated when the request is made and raise [OverflowError] for a
    size that is not an unsigned 32-bit integer, so that no request is
    sent. *)
Definition pty_req_args (term_type : pystr) (term_size : list Z)
    (term_modes : list (Z * Z)) : create_error + list Packet.field :=
  match ascii_encode term_type with
  | Encoded term_type =>
    match pty_term_size term_size with
    | inr (width, height, pixwidth, pixheight) =>
      match encode_modes term_modes with
      | inr modes =>
        match Wire.UInt32 width, Wire.UInt32 height,
              Wire.UInt32 pixwidth, Wire.UInt32 pixheight with
        | Some _, Some _, Some _, Some _ =>
          inr [Packet.String term_type; Packet.UInt32 width;
               Packet.UInt32 height; Packet.UInt32 pixwidth;
               Packet.UInt32 pixheight; Packet.String modes]
        | _, _, _, _ => inl OverflowError
        end
      | inl e => inl e
      end
    | inl e => inl e
    end
  | UnicodeEncodeError => inl UnicodeEncodeError_raised
  end.

End TerminalModes.

(** ** Request handlers

    What a request handler of a channel variant does: it returns a truth
    value, having updated the attributes [S] of the variant and made the
    calls [C] on the session, or it raises. *)
Inductive handled (S C : Type) : Type :=
| Handled (result : bool) (s : S) (calls : list C)
| Failed (e : exn).

Arguments Handled {S C} result s calls.
Arguments Failed {S C} e.

(** ** Server channels *)

Module SSHServerChannel.

(** The attributes [SSHServerChannel.__init__] adds to the channel. *)
Record fields : Type := Fields {
  _env : gmap pystr pystr;
  _command : option pystr;
  _subsystem : option pystr;
  _term_type : option pystr;
  _term_size : Z * Z * Z * Z;
  _term_modes : gmap Z Z
}.

(** What the channel asks of its connection: the permissions and the
    options of the key and the certificate the client authenticated
    with. *)
Record connection : Type := Connection {
  check_key_permission : string -> bool;
  check_certificate_permission : string -> bool;
  get_certificate_option_force_command : option pystr;
  get_key_option_command : option pystr;
  get_key_option_environment : gmap pystr pystr
}.

(** The answers of the server session to the requests it is asked
    about. *)
Record server_session : Type := ServerSession {
  pty_requested_answer : pystr -> Z * Z * Z * Z -> gmap Z Z -> bool;
  shell_requested_answer : bool;
  exec_requested_answer : pystr -> bool;
  subsystem_requested_answer : pystr -> bool;
  break_received_answer : Z -> bool
}.

(** The calls made on the session. *)
Inductive call : Type :=
| pty_requested (term_type : pystr) (term_size : Z * Z * Z * Z)
    (term_modes : gmap Z Z)
| shell_requested
| exec_requested (command : pystr)
| subsystem_requested (subsystem : pystr)
| terminal_size_changed (width height pixwidth pixheight : Z)
| signal_received (signal : pystr)
| break_received (msec : Z).

Definition init (conn : connection) : fields :=
  {| _env := get_key_option_environment conn; _command := None;
     _subsystem := None; _term_type := None; _term_size := (0, 0, 0, 0);
     _term_modes := ∅ |}.

Section Handlers.

Variable PTY_OP_END PTY_OP_RESERVED : Z.
Variable conn : connection.
Variable session : server_session.

(** The handlers, for the parsed fields of the request. *)
Definition _process_pty_req_request (term_type : bytes)
    (width height pixwidth pixheight : Z) (modes : bytes) (s : fields)
  : handled fields call :=
  match ascii_decode term_type with
  | Decoded term_type =>
    let s := {| _env := _env s; _command := _command s;
                _subsystem := _subsystem s; _term_type := Some term_type;
                _term_size := _term_size s; _term_modes := _term_modes s |} in
    if negb (check_key_permission conn "pty")
       || negb (check_certificate_permission conn "pty")
    then Handled false s []
    else
      let term_size := (width, height, pixwidth, pixheight) in
      match decode_modes_loop PTY_OP_END PTY_OP_RESERVED modes
              (_term_modes s) with
      | inr term_modes =>
        Handled (pty_requested_answer session term_type term_size term_modes)
          {| _env := _env s; _command := _command s;
             _subsystem := _subsystem s; _term_type := Some term_type;
             _term_size := term_size; _term_modes := term_modes |}
          [pty_requested term_type term_size term_modes]
      | inl e => Failed e
      end
  | _ => Failed (DisconnectError DISC_PROTOCOL_ERROR "Invalid pty request")
  end.

Definition _process_env_request (name value : bytes) (s : fields)
  : handled fields call :=
  match Utf8.decode name, Utf8.decode value with
  | Decoded name, Decoded value =>
    Handled true
      {| _env := <[name := value]> (_env s); _command := _command s;
         _subsystem := _subsystem s; _term_type := _term_type s;
         _term_size := _term_size s; _term_modes := _term_modes s |}
      []
  | _, _ => Handled false s []
  end.

Definition _start_session (command subsystem : option pystr) (s : fields)
  : handled fields call :=
  let forced_command :=
    match get_certificate_option_force_command conn with
    | None => get_key_option_command conn
    | forced => forced
    end in
  let command :=
    match forced_command with
    | Some forced => Some forced
    | None => command
    end in
  match command, subsystem with
  | Some command, _ =>
    Handled (exec_requested_answer session command)
      {| _env := _env s; _command := Some command;
         _subsystem := _subsystem s; _term_type := _term_type s;
         _term_size := _term_size s; _term_modes := _term_modes s |}
      [exec_requested command]
  | None, Some subsystem =>
    Handled (subsystem_requested_answer session subsystem)
      {| _env := _env s; _command := _command s;
         _subsystem := Some subsystem; _term_type := _term_type s;
         _term_size := _term_size s; _term_modes := _term_modes s |}
      [subsystem_requested subsystem]
  | None, None => Handled (shell_requested_answer session) s [shell_requested]
  end.

Definition _process_shell_request (s : fields) : handled fields call :=
  _start_session None None s.

Definition _process_exec_request (command : bytes) (s : fields)
  : handled fields call :=
  match Utf8.decode command with
  | Decoded command => _start_session (Some command) None s
  | _ => Handled false s []
  end.

Definition _process_subsystem_request (subsystem : bytes) (s : fields)
  : handled fields call :=
  match ascii_decode subsystem with
  | Decoded subsystem => _start_session None (Some subsystem) s
  | _ => Handled false s []
  end.

Definition _process_window_change_request
    (width height pixwidth pixheight : Z) (s : fields) : handled fields call :=
  Handled true
    {| _env := _env s; _command := _command s; _subsystem := _subsystem s;
       _term_type := _term_type s;
       _term_size := (width, height, pixwidth, pixheight);
       _term_modes := _term_modes s |}
    [terminal_size_changed width height pixwidth pixheight].

Definition _process_signal_request (signal : bytes) (s : fields)
  : handled fields call :=
  match ascii_decode signal with
  | Decoded signal => Handled true s [signal_received signal]
  | _ => Handled false s []
  end.

Definition _process_break_request (msec : Z) (s : fields)
  : handled fields call :=
  Handled (break_received_answer session msec) s [break_received msec].

End Handlers.

Definition get_environment (s : fields) : gmap pystr pystr := _env s.
Definition get_command (s : fields) : option pystr := _command s.
Definition get_subsystem (s : fields) : option pystr := _subsystem s.
Definition get_terminal_type (s : fields) : option pystr := _term_type s.
Definition get_terminal_size (s : fields) : Z * Z * Z * Z := _term_size s.
Definition get_terminal_mode (mode : Z) (s : fields) : option Z :=
  _term_modes s !! mode.

(** [exit]: the exit status goes out in an [exit-status] request, then
    the channel closes. *)
Definition exit (status : Z) : M unit :=
  let* c := get in
  match _send_state c with
  | open | eof_pending | eof_sent =>
    _send_request (ascii_bytes "exit-status")
      [Packet.UInt32 (Z.land status 0xff)] false >>
    close
  | _ => raise (OSError "Channel not open")
  end.

Section Encoders.

Variable str_encode : string -> pystr -> encode_result.

Definition exit_with_signal (signal : pystr) (core_dumped : bool)
    (msg lang : pystr) : M unit :=
  let* c := get in
  match _send_state c with
  | open | eof_pending | eof_sent =>
    match ascii_encode signal, str_encode "utf-8" msg, ascii_encode lang with
    | Encoded signal, Encoded msg, Encoded lang =>
      _send_request (ascii_bytes "exit-signal")
        [Packet.String signal; Packet.Boolean core_dumped;
         Packet.String msg; Packet.String lang] false >>
      close
    | _, _, _ => raise UnicodeError
    end
  | _ => raise (OSError "Channel not open")
  end.

End Encoders.

End SSHServerChannel.

(** ** Client channels *)

Module SSHClientChannel.

(** The attributes [SSHClientChannel.__init__] adds to the channel. *)
Record fields : Type := Fields {
  _exit_status : option Z;
  _exit_signal : option (pystr * bool * pystr * pystr)
}.

Definition init : fields := {| _exit_status := None; _exit_signal := None |}.

(** The calls made on the session. *)
Inductive call : Type :=
| xon_xoff_requested (client_can_do : bool)
| exit_status_received (status : Z)
| exit_signal_received (signal : pystr) (core_dumped : bool)
    (msg lang : pystr).

(** The handlers, for the parsed fields of the request. *)
Definition _process_xon_xoff_request (client_can_do : bool) (s : fields)
  : handled fields call :=
  Handled true s [xon_xoff_requested client_can_do].

Definition _process_exit_status_request (status : Z) (s : fields)
  : handled fields call :=
  let status := Z.land status 0xff in
  Handled true
    {| _exit_status := Some status; _exit_signal := _exit_signal s |}
    [exit_status_received status].

Definition _process_exit_signal_request (signal : bytes)
    (core_dumped : bool) (msg lang : bytes) (s : fields)
  : handled fields call :=
  match ascii_decode signal, Utf8.decode msg, ascii_decode lang with
  | Decoded signal, Decoded msg, Decoded lang =>
    Handled true
      {| _exit_status := _exit_status s;
         _exit_signal := Some (signal, core_dumped, msg, lang) |}
      [exit_signal_received signal core_dumped msg lang]
  | _, _, _ =>
    Failed (DisconnectError DISC_PROTOCOL_ERROR "Invalid exit signal request")
  end.

Definition get_exit_status (s : fields) : option Z :=
  match _exit_status s with
  | Some status => Some status
  | None =>
    match _exit_signal s with
    | Some _ => Some (-1)
    | None => None
    end
  end.

Definition get_exit_signal (s : fields)
  : option (pystr * bool * pystr * pystr) :=
  _exit_signal s.

End SSHClientChannel.

(** ** A terminal request, for the concrete scenarios *)

(** The opcodes of RFC 4254, section 8: [TTY_OP_END] is 0 and the
    opcodes from 160 on are not yet defined. *)
Definition rfc_PTY_OP_END : Z := 0.
Definition rfc_PTY_OP_RESERVED : Z := 160.

(** The string ['xterm']. *)
Definition xterm : pystr := [120; 116; 101; 114; 109]%N.

(** Echo on, and both speeds at 38400 baud. *)
Definition example_modes : gmap Z Z :=
  {[ 53 := 1; 128 := 38400; 129 := 38400 ]}.

(** A connection that grants every permission and forces no command,
    and one whose certificate forces the command ['x']. *)
Definition permissive : SSHServerChannel.connection :=
  {| SSHServerChannel.check_key_permission := fun _ => true;
     SSHServerChannel.check_certificate_permission := fun _ => true;
     SSHServerChannel.get_certificate_option_force_command := None;
     SSHServerChannel.get_key_option_command := None;
     SSHServerChannel.get_key_option_environment := ∅ |}.

Definition forcing : SSHServerChannel.connection :=
  {| SSHServerChannel.check_key_permission := fun _ => true;
     SSHServerChannel.check_certificate_permission := fun _ => true;
     SSHServerChannel.get_certificate_option_force_command := Some [120%N];
     SSHServerChannel.get_key_option_command := Some [121%N];
     SSHServerChannel.get_key_option_environment := ∅ |}.

(** A session that accepts every request. *)
Definition accepting : SSHServerChannel.server_session :=
  {| SSHServerChannel.pty_requested_answer := fun _ _ _ => true;
     SSHServerChannel.shell_requested_answer := true;
     SSHServerChannel.exec_requested_answer := fun _ => true;
     SSHServerChannel.subsystem_requested_answer := fun _ => true;
     SSHServerChannel.break_received_answer := fun _ => true |}.

(** A mode and its value fit the modes string. *)
Definition valid_mode (PTY_OP_END PTY_OP_RESERVED : Z) (item : Z * Z)
  : Prop :=
  PTY_OP_END < item.1 < PTY_OP_RESERVED /\ 0 <= item.2 < 2 ^ 32.

(** The five bytes of a mode and its value. *)
Definition mode_bytes (item : Z * Z) : bytes :=
  digits_big 1 item.1 ++ digits_big 4 item.2.

(** ** Exit requests, for the concrete scenarios *)

(** The requests by which a server reports how the process ended. *)
Inductive exit_request : Type :=
| ExitStatusRequest (status : Z)
| ExitSignalRequest (signal : bytes) (core_dumped : bool) (msg lang : bytes).

Definition process_exit_request (r : exit_request)
    (s : SSHClientChannel.fields)
  : handled SSHClientChannel.fields SSHClientChannel.call :=
  match r with
  | ExitStatusRequest status =>
    SSHClientChannel._process_exit_status_request status s
  | ExitSignalRequest signal core_dumped msg lang =>
    SSHClientChannel._process_exit_signal_request signal core_dumped msg lang s
  end.

(** The client channel after a sequence of exit requests, unless one of
    them raised. *)
Fixpoint process_exit_requests (rs : list exit_request)
    (s : SSHClientChannel.fields) : option SSHClientChannel.fields :=
  match rs with
  | [] => Some s
  | r :: rs' =>
    match process_exit_request r s with
    | Handled _ s' _ => process_exit_requests rs' s'
    | Failed _ => None
    end
  end.

(** The status of the last [exit-status] request of a sequence, and
    whether the sequence has an [exit-signal] request. *)
Fixpoint last_exit_status (rs : list exit_request) : option Z :=
  match rs with
  | [] => None
  | r :: rs' =>
    match last_exit_status rs', r with
    | Some status, _ => Some status
    | None, ExitStatusRequest status => Some status
    | None, ExitSignalRequest _ _ _ _ => None
    end
  end.

Definition has_exit_signal (rs : list exit_request) : bool :=
  existsb (fun r => match r with
                    | ExitSignalRequest _ _ _ _ => true
                    | ExitStatusRequest _ => false
                    end) rs.

(** The name of the signal ['SEGV'] in ASCII. *)
Definition SEGV : bytes := ascii_bytes "SEGV".

(** An encoder for ASCII text, which is its own UTF-8 encoding. *)
Definition ascii_encoder (encoding : string) (s : pystr) : encode_result :=
  ascii_encode s.

(** * DSA keys

    A shallow embedding of [asyncssh/dsa.py] (class [_DSAKey]): the
    conversions between a key and its PKCS#1, PKCS#8 and SSH forms, and
    the SSH form of a signature.  The modules it imports are not among
    the sources; what it calls in them is taken as a parameter. *)

Global Instance byte_eq_dec : EqDecision Byte.byte.
Proof.
  intros a b. destruct (Byte.eqb a b) eqn:E;
    [left; by apply Byte.byte_dec_bl|right; by apply Byte.eqb_false].
Defined.

Module DSA.

(** The Python objects the decoders are handed, as far as they tell
    them apart: an integer or not, and a tuple of such objects or
    not. *)
Inductive pyobj : Type :=
| Int (n : Z)
| NotInt.

Inductive pydata : Type :=
| Tuple (items : list pyobj)
| NotTuple.

(** The attributes of the key object [self._key]: the numbers of the
    key, [x] being there on a private key only. *)
Record key_object : Type := KeyObject {
  p : Z;
  q : Z;
  g : Z;
  y : Z;
  x : option Z
}.

(** [_DSAKey.__init__]. *)
Record _DSAKey : Type := DSAKey {
  _key : key_object;
  _private : bool
}.

(** The exceptions of the module. *)
Inductive error : Type :=
| KeyExportError (msg : string)
| ValueError (msg : string)
| OverflowError
| TypeError
| AttributeError.

(** The class attribute [algorithm], [b'ssh-dss']. *)
Definition algorithm : bytes := ascii_bytes "ssh-dss".

(** [isinstance(o, int)]. *)
Definition is_int (o : pyobj) : bool :=
  match o with
  | Int _ => true
  | _ => false
  end.

(** The built-in [pow(g, x, p)]: [g ** x % p] for an exponent that is
    not negative and a modulus that is not zero, [ValueError]
    otherwise. *)
Definition pow (g x p : Z) : error + Z :=
  if (x <? 0) || (p =? 0)
  then inl (ValueError "pow() argument out of range")
  else inr (g ^ x `mod` p).

Section Imports.

(** [all_ints] of [asyncssh/misc.py]; [der_encode] and [der_decode] of
    [asyncssh/asn1.py]; [String] and [MPInt] of [asyncssh/packet.py],
    and the method [get_string] of its [SSHPacket], which gives the
    value read and the rest of the packet, or raises, here [None]; the
    methods [sign] and [verify] of the key object. *)
Variable all_ints : list pyobj -> bool.
Variable der_encode : pyobj -> bytes.
Variable der_decode : bytes -> pyobj.
Variable String : bytes -> bytes.
Variable MPInt : Z -> bytes.
Variable get_string : bytes -> option (bytes * bytes).
Variable key_sign : key_object -> bytes -> Z * Z.
Variable key_verify : key_object -> bytes -> Z * Z -> bool.

(** [self._key.x]: a public key object has no such attribute. *)
Definition key_x (k : _DSAKey) : error + Z :=
  match x (_key k) with
  | Some n => inr n
  | None => inl AttributeError
  end.

Definition decode_pkcs1_private (key_data : pydata) : option (list pyobj) :=
  match key_data with
  | Tuple items =>
    if bool_decide (length items = 6%nat) && all_ints items
       && match items !! 0%nat with
          | Some (Int 0) => true
          | _ => false
          end
    then Some (drop 1 items) else None
  | _ => None
  end.

Definition decode_pkcs1_public (key_data : pydata) : option (list pyobj) :=
  match key_data with
  | Tuple items =>
    if bool_decide (length items = 4%nat) && all_ints items then
      match items with
      | [y; p; q; g] => Some [p; q; g; y]
      | _ => None
      end
    else None
  | _ => None
  end.

(** [decode_pkcs8_private]; [None] is the [None] it returns. *)
Definition decode_pkcs8_private (alg_params : list pyobj) (data : bytes)
  : error + option (list pyobj) :=
  let x := der_decode data in
  if bool_decide (length alg_params = 3%nat) && all_ints alg_params
     && is_int x
  then
    match alg_params, x with
    | [Int p; Int q; Int g], Int x =>
      match pow g x p with
      | inr y => inr (Some [Int p; Int q; Int g; Int y; Int x])
      | inl e => inl e
      end
    | _, _ => inl TypeError
    end
  else inr None.

Definition decode_pkcs8_public (alg_params : list pyobj) (data : bytes)
  : option (list pyobj) :=
  let y := der_decode data in
  if bool_decide (length alg_params = 3%nat) && all_ints alg_params
     && is_int y
  then
    match alg_params with
    | [p; q; g] => Some [p; q; g; y]
    | _ => None
    end
  else None.

Definition encode_pkcs1_private (k : _DSAKey) : error + pydata :=
  if negb (_private k) then inl (KeyExportError "Key is not private")
  else
    match key_x k with
    | inr x =>
      inr (Tuple [Int 0; Int (p (_key k)); Int (q (_key k));
                  Int (g (_key k)); Int (y (_key k)); Int x])
    | inl e => inl e
    end.

Definition encode_pkcs1_public (k : _DSAKey) : pydata :=
  Tuple [Int (y (_key k)); Int (p (_key k)); Int (q (_key k));
         Int (g (_key k))].

Definition encode_pkcs8_private (k : _DSAKey)
  : error + list pyobj * bytes :=
  if negb (_private k) then inl (KeyExportError "Key is not private")
  else
    match key_x k with
    | inr x =>
      inr ([Int (p (_key k)); Int (q (_key k)); Int (g (_key k))],
           der_encode (Int x))
    | inl e => inl e
    end.

Definition encode_pkcs8_public (k : _DSAKey) : list pyobj * bytes :=
  ([Int (p (_key k)); Int (q (_key k)); Int (g (_key k))],
   der_encode (Int (y (_key k)))).

Definition encode_ssh_private (k : _DSAKey) : error + bytes :=
  if negb (_private k) then inl (KeyExportError "Key is not private")
  else
    match key_x k with
    | inr x =>
      inr (String algorithm ++ MPInt (p (_key k)) ++ MPInt (q (_key k))
           ++ MPInt (g (_key k)) ++ MPInt (y (_key k)) ++ MPInt x)
    | inl e => inl e
    end.

Definition encode_ssh_public (k : _DSAKey) : bytes :=
  String algorithm ++ MPInt (p (_key k)) ++ MPInt (q (_key k))
  ++ MPInt (g (_key k)) ++ MPInt (y (_key k)).

Definition sign (k : _DSAKey) (data : bytes) : error + bytes :=
  if negb (_private k)
  then inl (ValueError "Private key needed for signing")
  else
    let (r, s) := key_sign (_key k) data in
    match int_to_bytes 20 r, int_to_bytes 20 s with
    | Some r, Some s => inr (String algorithm ++ String (r ++ s))
    | _, _ => inl OverflowError
    end.

(** [verify]; [None] where the packet raises. *)
Definition verify (k : _DSAKey) (data sig : bytes) : option bool :=
  match get_string sig with
  | Some (name, sig) =>
    if negb (bool_decide (name = algorithm)) then Some false
    else
      match get_string sig with
      | Some (sig, _) =>
        Some (key_verify (_key k) data
                (int_from_bytes (slice_to 20 sig),
                 int_from_bytes (slice_from 20 sig)))
      | None => None
      end
  | None => None
  end.

End Imports.

(** [__eq__] between two [_DSAKey] objects.  [a and b] is [a] when [a]
    is false and [b] otherwise, and [False == 0] holds. *)
Definition private_part (k : _DSAKey) : error + Z :=
  if _private k then
    match x (_key k) with
    | Some n => inr n
    | None => inl AttributeError
    end
  else inr 0.

Definition eq (k other : _DSAKey) : error + bool :=
  if (p (_key k) =? p (_key other)) && (q (_key k) =? q (_key other))
     && (g (_key k) =? g (_key other)) && (y (_key k) =? y (_key other))
  then
    match private_part k, private_part other with
    | inr a, inr b => inr (a =? b)
    | inl e, _ => inl e
    | _, inl e => inl e
    end
  else inr false.

End DSA.

(** ** Stand-ins for the imports of [dsa.py], for the concrete scenarios *)

(** [all_ints] as its name has it. *)
Definition every_int (items : list DSA.pyobj) : bool :=
  forallb DSA.is_int items.

(** An encoding of integers that can be read back: a sign byte and as
    many bytes as the magnitude. *)
Definition tally_encode (o : DSA.pyobj) : bytes :=
  match o with
  | DSA.Int n =>
    (if n <? 0 then Byte.x01 else Byte.x00)
    :: replicate (Z.to_nat (Z.abs n)) Byte.xff
  | DSA.NotInt => []
  end.

Definition tally_decode (b : bytes) : DSA.pyobj :=
  match b with
  | [] => DSA.NotInt
  | sign :: marks =>
    DSA.Int (if bool_decide (sign = Byte.x00) then len marks else - len marks)
  end.

(** The string of RFC 4251, section 5: a 32-bit length and the bytes. *)
Definition ssh_string (b : bytes) : bytes := digits_big 4 (len b) ++ b.

Definition ssh_get_string (packet : bytes) : option (bytes * bytes) :=
  if bool_decide (4 <= length packet)%nat then
    let n := Z.to_nat (int_from_bytes (take 4 packet)) in
    if bool_decide (n <= length (drop 4 packet))%nat
    then Some (take n (drop 4 packet), drop n (drop 4 packet))
    else None
  else None.

(** A signer that ignores the key and a verifier that knows its
    signature. *)
Definition toy_sign (k : DSA.key_object) (data : bytes) : Z * Z :=
  (len data + 1, 2 ^ 160 - 1).

Definition toy_verify (k : DSA.key_object) (data : bytes) (sig : Z * Z)
  : bool :=
  bool_decide (sig = toy_sign k data).

(** A small private key, with [y = g ^ x mod p], and its public half. *)
Definition toy_private_key : DSA._DSAKey :=
  {| DSA._key := {| DSA.p := 23; DSA.q := 11; DSA.g := 4; DSA.y := 3;
                    DSA.x := Some 7 |};
     DSA._private := true |}.

Definition toy_public_key : DSA._DSAKey :=
  {| DSA._key := {| DSA.p := 23; DSA.q := 11; DSA.g := 4; DSA.y := 3;
                    DSA.x := None |};
     DSA._private := false |}.

(** ** Channel requests *)

(** A [str] literal of ASCII characters. *)
Definition ascii_str (s : string) : pystr := Byte.to_N <$> ascii_bytes s.

(** [request.replace('-', '_')]. *)
Definition replace_dash (request : pystr) : pystr :=
  (fun cp => if (cp =? 45)%N then 95%N else cp) <$> request.

(** [request in ('shell', 'exec', 'subsystem')]. *)
Definition starts_session (request : pystr) : bool :=
  bool_decide (request ∈ [ascii_str "shell"; ascii_str "exec";
                          ascii_str "subsystem"]).

(** What processing a request does to its collaborators, in order: what
    the channel does ([ChannelEvent]), what the handler asks of the
    session ([SessionCall]), and [session_started()]. *)
Inductive request_event (C : Type) : Type :=
| ChannelEvent (e : event)
| SessionCall (call : C)
| SessionStarted.

Arguments ChannelEvent {C} e.
Arguments SessionCall {C} call.
Arguments SessionStarted {C}.

(** How processing a request ends: it returns, it raises, or it loops
    for ever. *)
Inductive request_outcome (S C : Type) : Type :=
| Processed (s : S) (c : chan) (out : list (request_event C))
| Refused (e : exn)
| Unfinished.

Arguments Processed {S C} s c out.
Arguments Refused {S C} e.
Arguments Unfinished {S C}.

Section Requests.

Context {S C : Type}.

Variable bytes_decode : string -> bytes -> decode_result.

(** Whether the session calls [pause_reading()] inside a callback. *)
Variable pauses : event -> bool.

(** [getattr(self, '_process_' + name + '_request', None)] applied to
    the rest of the packet: the request handlers of the variant, by
    name. *)
Variable handler : pystr -> option (list Packet.field -> S -> handled S C).

(** [_process_request], for a parsed request name and reply flag;
    [packet] is what follows them in the packet. *)
Definition _process_request (request : bytes) (want_reply : bool)
    (packet : list Packet.field) (s : S) (c : chan) : request_outcome S C :=
  if negb (receiving (_recv_state c)) then
    Refused (DisconnectError DISC_PROTOCOL_ERROR "Channel not open")
  else if closing (_send_state c) then Processed s c []
  else
    match ascii_decode request with
    | Decoded request =>
      match match handler (replace_dash request) with
            | Some handle => handle packet s
            | None => Handled false s []
            end with
      | Handled result s calls =>
        match when want_reply
                (_send_packet
                   (if result then MSG_CHANNEL_SUCCESS
                    else MSG_CHANNEL_FAILURE) []) c with
        | Done _ c out1 =>
          if result && starts_session request then
            match _session c with
            | Some _ =>
              match resume_reading bytes_decode pauses c with
              | Done _ c out2 =>
                Processed s c
                  ((SessionCall <$> calls) ++ (ChannelEvent <$> out1)
                   ++ [SessionStarted] ++ (ChannelEvent <$> out2))
              | Raise e => Refused e
              | Diverge => Unfinished
              end
            | None => Refused AttributeError
            end
          else
            Processed s c
              ((SessionCall <$> calls) ++ (ChannelEvent <$> out1))
        | Raise e => Refused e
        | Diverge => Unfinished
        end
      | Failed e => Refused e
      end
    | _ =>
      Refused (DisconnectError DISC_PROTOCOL_ERROR "Invalid channel request")
    end.

End Requests.

(** The replies to requests among the events of a run. *)
Definition reply_of {C : Type} (e : request_event C) : option bool :=
  match e with
  | ChannelEvent
      (ConnSendPacket [Packet.Byte MSG_CHANNEL_SUCCESS; Packet.UInt32 _]) =>
    Some true
  | ChannelEvent
      (ConnSendPacket [Packet.Byte MSG_CHANNEL_FAILURE; Packet.UInt32 _]) =>
    Some false
  | _ => None
  end.

Definition replies {C : Type} (out : list (request_event C)) : list bool :=
  omap reply_of out.

(** The calls of the handler among the events of a run. *)
Definition session_call_of {C : Type} (e : request_event C) : option C :=
  match e with
  | SessionCall call => Some call
  | _ => None
  end.

Definition session_calls {C : Type} (out : list (request_event C)) : list C :=
  omap session_call_of out.

(** How often [session_started()] was called. *)
Definition is_session_started {C : Type} (e : request_event C) : bool :=
  match e with
  | SessionStarted => true
  | _ => false
  end.

Definition sessions_started {C : Type} (out : list (request_event C)) : nat :=
  length (filter (fun e => is_session_started e = true) out).

(** An event of the channel that is not a reply to a request. *)
Definition no_reply (e : event) : Prop :=
  match e with
  | ConnSendPacket (Packet.Byte MSG_CHANNEL_SUCCESS :: _)
  | ConnSendPacket (Packet.Byte MSG_CHANNEL_FAILURE :: _) => False
  | _ => True
  end.

(** ** The request handlers of a server channel, by name *)

Section ServerHandlers.

Variable PTY_OP_END PTY_OP_RESERVED : Z.
Variable conn : SSHServerChannel.connection.
Variable session : SSHServerChannel.server_session.

(** What [asyncssh/packet.py], which is not among the sources, raises
    for a packet that does not have the fields the handler reads. *)
Variable packet_error : exn.

(** The methods of [SSHServerChannel] named [_process_..._request];
    each reads its fields off the packet and checks that nothing is
    left. *)
Definition server_handler (name : pystr)
  : option (list Packet.field -> SSHServerChannel.fields
            -> handled SSHServerChannel.fields SSHServerChannel.call) :=
  if bool_decide (name = ascii_str "pty_req") then
    Some (fun packet s =>
            match packet with
            | [Packet.String term_type; Packet.UInt32 width;
               Packet.UInt32 height; Packet.UInt32 pixwidth;
               Packet.UInt32 pixheight; Packet.String modes] =>
              SSHServerChannel._process_pty_req_request PTY_OP_END
                PTY_OP_RESERVED conn session term_type width height
                pixwidth pixheight modes s
            | _ => Failed packet_error
            end)
  else if bool_decide (name = ascii_str "env") then
    Some (fun packet s =>
            match packet with
            | [Packet.String name; Packet.String value] =>
              SSHServerChannel._process_env_request name value s
            | _ => Failed packet_error
            end)
  else if bool_decide (name = ascii_str "shell") then
    Some (fun packet s =>
            match packet with
            | [] => SSHServerChannel._process_shell_request conn session s
            | _ => Failed packet_error
            end)
  else if bool_decide (name = ascii_str "exec") then
    Some (fun packet s =>
            match packet with
            | [Packet.String command] =>
              SSHServerChannel._process_exec_request conn session command s
            | _ => Failed packet_error
            end)
  else if bool_decide (name = ascii_str "subsystem") then
    Some (fun packet s =>
            match packet with
            | [Packet.String subsystem] =>
              SSHServerChannel._process_subsystem_request conn session
                subsystem s
            | _ => Failed packet_error
            end)
  else if bool_decide (name = ascii_str "window_change") then
    Some (fun packet s =>
            match packet with
            | [Packet.UInt32 width; Packet.UInt32 height;
               Packet.UInt32 pixwidth; Packet.UInt32 pixheight] =>
              SSHServerChannel._process_window_change_request width height
                pixwidth pixheight s
            | _ => Failed packet_error
            end)
  else if bool_decide (name = ascii_str "signal") then
    Some (fun packet s =>
            match packet with
            | [Packet.String signal] =>
              SSHServerChannel._process_signal_request signal s
            | _ => Failed packet_error
            end)
  else if bool_decide (name = ascii_str "break") then
    Some (fun packet s =>
            match packet with
            | [Packet.UInt32 msec] =>
              SSHServerChannel._process_break_request session msec s
            | _ => Failed packet_error
            end)
  else None.

End ServerHandlers.

(** The command [b'ls']. *)
Definition ls : bytes := ascii_bytes "ls".

(** An [exec] request that wants a reply, on the channel with a backlog
    of inbound data, and an [exit-status] request, which a server has no
    handler for. *)
Definition exec_request_outcome
  : request_outcome SSHServerChannel.fields SSHServerChannel.call :=
  _process_request utf8_codec (fun _ => false)
    (server_handler rfc_PTY_OP_END rfc_PTY_OP_RESERVED permissive accepting
       TypeError)
    (ascii_bytes "exec") true [Packet.String ls]
    (SSHServerChannel.init permissive) eof_waiting_channel.

Definition exit_status_request_outcome
  : request_outcome SSHServerChannel.fields SSHServerChannel.call :=
  _process_request utf8_codec (fun _ => false)
    (server_handler rfc_PTY_OP_END rfc_PTY_OP_RESERVED permissive accepting
       TypeError)
    (ascii_bytes "exit-status") true [Packet.UInt32 0]
    (SSHServerChannel.init permissive) eof_waiting_channel.

(** ** Writing a list of data *)

(** [b''.join(list_of_data)] and [''.join(list_of_data)]: [None] where
    an item is of the other kind and [join] raises [TypeError]. *)
Fixpoint join_bytes (list_of_data : list payload) : option bytes :=
  match list_of_data with
  | [] => Some []
  | PBytes b :: rest => app b <$> join_bytes rest
  | PStr _ :: _ => None
  end.

Fixpoint join_str (list_of_data : list payload) : option pystr :=
  match list_of_data with
  | [] => Some []
  | PStr s :: rest => app s <$> join_str rest
  | PBytes _ :: _ => None
  end.

Section Writelines.

Variable str_encode : string -> pystr -> encode_result.

Definition writelines (list_of_data : list payload) (datatype : option Z)
  : M unit :=
  let* c := get in
  match text_encoding c with
  | Some _ =>
    match join_str list_of_data with
    | Some s => write str_encode (PStr s) datatype
    | None => raise TypeError
    end
  | None =>
    match join_bytes list_of_data with
    | Some b => write str_encode (PBytes b) datatype
    | None => raise TypeError
    end
  end.

End Writelines.

(** Writing the items of a list one by one. *)
Definition writes (list_of_data : list bytes) (datatype : option Z)
  : list send_step :=
  (fun b => SessionWrite (PBytes b) datatype) <$> list_of_data.

(** The state a flush leaves: it sent as much as the window allowed. *)
Definition greedy (c : chan) : Prop :=
  0 <= _send_window c /\ 0 <= _send_pktsize c
  /\ (_send_buf c = [] \/ _send_window c = 0).

(** Three lines of output. *)
Definition three_lines : list bytes :=
  [ascii_bytes "one"; []; ascii_bytes "two three"].

(** * Properties *)

(** ** Reasoning about runs *)

Lemma bind_Done {A B : Type} (m : M A) (k : A -> M B) c b c2 out :
  bind m k c = Done b c2 out ->
  exists a c1 out1 out2,
    m c = Done a c1 out1 /\ k a c1 = Done b c2 out2 /\ out = out1 ++ out2.
Proof.
  unfold bind. destruct (m c) as [a c1 out1| |]; try discriminate.
  destruct (k a c1) as [b' c2' out2| |] eqn:E; try discriminate.
  intros [= -> -> <-]. eauto 10.
Qed.

Lemma bind_Done_eq {A B : Type} (m : M A) (k : A -> M B) c a c1 out1 :
  m c = Done a c1 out1 ->
  bind m k c = match k a c1 with
               | Done b c2 out2 => Done b c2 (out1 ++ out2)
               | Raise e => Raise e
               | Diverge => Diverge
               end.
Proof. unfold bind. now intros ->. Qed.

Lemma bind_Raise {A B : Type} (m : M A) (k : A -> M B) c e :
  m c = Raise e -> bind m k c = Raise e.
Proof. unfold bind. now intros ->. Qed.

(** Take a completed run apart, one monadic step at a time. *)
Ltac inv_run :=
  repeat match goal with
  | H : bind _ _ _ = Done _ _ _ |- _ =>
    let a := fresh "a" in let c := fresh "c" in
    let o1 := fresh "out" in let o2 := fresh "out" in
    let H1 := fresh "Hrun" in let H2 := fresh "Hrun" in
    apply bind_Done in H as (a & c & o1 & o2 & H1 & H2 & ->)
  | H : get _ = Done _ _ _ |- _ => unfold get in H; simplify_eq
  | H : modify _ _ = Done _ _ _ |- _ => unfold modify in H; simplify_eq
  | H : emit _ _ = Done _ _ _ |- _ => unfold emit in H; simplify_eq
  | H : ret _ _ = Done _ _ _ |- _ => unfold ret in H; simplify_eq
  | H : raise _ _ = Done _ _ _ |- _ => discriminate H
  | H : diverge _ = Done _ _ _ |- _ => discriminate H
  | H : when ?b _ _ = Done _ _ _ |- _ => unfold when in H; destruct b eqn:?
  | H : call_session _ _ = Done _ _ _ |- _ => unfold call_session in H
  | H : conn_send_packet _ _ = Done _ _ _ |- _ =>
    unfold conn_send_packet in H
  | H : _send_packet _ _ _ = Done _ _ _ |- _ => unfold _send_packet in H
  | H : (if ?b then _ else _) _ = Done _ _ _ |- _ => destruct b eqn:?
  | H : (match ?x with _ => _ end) _ = Done _ _ _ |- _ => destruct x eqn:?
  end.

(** Two channel objects with the same fields are equal. *)
Ltac chan_eta :=
  match goal with
  | |- @eq chan _ _ =>
    repeat match goal with c : chan |- _ => destruct c end; reflexivity
  end.

(** Facts about concrete channels, by evaluation. *)
Ltac split_all := repeat match goal with |- _ /\ _ => split end.
Ltac by_computation := split_all; vm_compute; reflexivity.

(** Run the primitive steps of a computation forwards. *)
Ltac run_prims :=
  cbv beta iota delta [bind get modify emit ret raise when call_session
                       conn_send_packet _send_packet negb].

Lemma window_adjusts_app out1 out2 :
  window_adjusts (out1 ++ out2) = window_adjusts out1 ++ window_adjusts out2.
Proof. apply omap_app. Qed.

Lemma window_adjusts_session_data out :
  Forall is_session_data out -> window_adjusts out = [].
Proof.
  induction 1 as [|e out He _ IH]; [done|].
  destruct e; simpl in He; try done; exact IH.
Qed.

(** ** Receive path *)

Section ReceivePath.

Variable bytes_decode : string -> bytes -> decode_result.

(** The decoding loop leaves the channel as it is and only talks to the
    session. *)
Lemma decode_loop_frame fuel enc dt input c rest c' out :
  decode_loop bytes_decode fuel enc dt input c = Done rest c' out ->
  c' = c /\ Forall is_session_data out.
Proof.
  revert input c out rest c'.
  induction fuel as [|fuel IH]; intros [|b input] c out rest c' H;
    simpl in H; inv_run; auto.
  - split; auto. repeat constructor.
  - apply IH in Hrun0 as [-> ?]. split; auto. constructor; simpl; auto.
Qed.

(** The decoding loop always ends: every round that goes on drops at
    least one byte. *)
Lemma decode_loop_terminates fuel enc dt input c :
  (length input <= fuel)%nat ->
  decode_loop bytes_decode fuel enc dt input c <> Diverge.
Proof.
  revert input c.
  induction fuel as [|fuel IH]; intros [|b input] c Hlen; simpl in *;
    try done; try lia.
  run_prims.
  destruct (bytes_decode enc (b :: input)) as [s|start reason|]; try done.
  - destruct (_session c); done.
  - destruct (0 <? start)%nat eqn:Hs.
    + destruct (bytes_decode "utf-8" _); try done.
      destruct (_session c); try done.
      specialize (IH (drop start (b :: input)) c).
      destruct (decode_loop _ _ _ _ _ _); try done.
      apply IH. rewrite length_drop. apply Nat.ltb_lt in Hs. simpl. lia.
    + case_bool_decide; done.
Qed.

(** Delivery of data debits the window, restores it once it has fallen
    below half of its initial size, and otherwise changes only the
    partial codepoints kept for the decoder. *)
Lemma deliver_data_Done c d dt c' out :
  _deliver_data bytes_decode (Data d) dt c = Done tt c' out ->
  c' = set_recv_partial (_recv_partial c')
         (set_recv_window (after_debit c (len d)) c)
  /\ window_adjusts out = adjust_for c (len d).
Proof.
  unfold _deliver_data, after_debit, adjust_for. intros H. inv_run.
  all: try match goal with
           | H : decode_loop _ _ _ _ _ _ = _ |- _ =>
             apply decode_loop_frame in H as [? H];
             apply window_adjusts_session_data in H; subst
           end.
  all: chan_simpl;
    repeat match goal with H : (_ <? _) = _ |- _ => rewrite H end.
  all: split; [by destruct c|].
  all: rewrite ?window_adjusts_app; simpl;
    repeat match goal with H : window_adjusts _ = _ |- _ => rewrite H end;
    reflexivity.
Qed.

End ReceivePath.

Section ReceiveWindow.

Variable bytes_decode : string -> bytes -> decode_result.

(** What a completed [_accept_data] did with a data packet. *)
Lemma accept_data_Done c d dt c' out :
  _accept_data bytes_decode (Data d) dt c = Done tt c' out ->
  (d = [] /\ c' = c /\ out = [])
  \/ (closing (_send_state c) = true /\ c' = c /\ out = [])
  \/ (closing (_send_state c) = false /\ len d <= _recv_window c
      /\ _recv_paused c = true
      /\ c' = set_recv_buf (_recv_buf c ++ [(Data d, dt)]) c /\ out = [])
  \/ (closing (_send_state c) = false /\ len d <= _recv_window c
      /\ _recv_paused c = false
      /\ _deliver_data bytes_decode (Data d) dt c = Done tt c' out).
Proof.
  destruct d as [|b d]; [intros [= <- <-]; auto|].
  unfold _accept_data. intros H. inv_run.
  - auto.
  - right; right; left. rewrite Z.ltb_ge in *. auto.
  - right; right; right. rewrite Z.ltb_ge in *. auto.
Qed.

(** A packet longer than the receive window is a protocol error, unless
    the local side is closing. *)
Lemma accept_data_overrun c d dt :
  closing (_send_state c) = false ->
  0 <= _recv_window c -> _recv_window c < len d ->
  _accept_data bytes_decode (Data d) dt c
  = Raise (DisconnectError DISC_PROTOCOL_ERROR "Window exceeded").
Proof.
  intros Hs H0 Hw. destruct d as [|b d]; [unfold len in Hw; simpl in Hw; lia|].
  unfold _accept_data. run_prims. rewrite Hs.
  apply Z.ltb_lt in Hw. now rewrite Hw.
Qed.

(** While the local side is closing, inbound data is dropped before the
    window is looked at. *)
Lemma accept_data_closing c data dt :
  closing (_send_state c) = true ->
  _accept_data bytes_decode data dt c = Done tt c [].
Proof.
  intros Hs. unfold _accept_data.
  destruct data as [|[|b d]]; run_prims; rewrite ?Hs; reflexivity.
Qed.

Lemma process_inbound_Done p c c' out :
  process_inbound bytes_decode p c = Done tt c' out ->
  _recv_state c = open /\ inbound_valid c p
  /\ exists d dt, inbound_len p = len d
     /\ _accept_data bytes_decode (Data d) dt c = Done tt c' out.
Proof.
  destruct p as [d|dt d]; simpl;
    unfold _process_data, _process_extended_data; intros H; inv_run.
  - eauto 10.
  - apply bool_decide_eq_true in Heqb. eauto 10.
Qed.

(** The receive window invariant: between two window adjustments the
    channel never takes in more than its initial window. *)
Lemma accepted_since_adjust_bounded ps : forall c,
  _recv_state c = open -> closing (_send_state c) = false ->
  _recv_paused c = false -> 0 <= _recv_window c ->
  Forall (fun k => k <= _init_recv_window c)
    (accepted_since_adjust bytes_decode
       (_init_recv_window c - _recv_window c) ps c).
Proof.
  induction ps as [|p ps IH]; intros c Hr Hs Hp H0; simpl; [constructor|].
  destruct (process_inbound bytes_decode p c) as [[] c' out| |] eqn:Hrun;
    [|constructor..].
  apply process_inbound_Done in Hrun as (_ & _ & d & dt & Hlen & Hrun).
  rewrite Hlen.
  apply accept_data_Done in Hrun
    as [(-> & -> & ->)|[(? & _)|[(_ & _ & ? & _)|(_ & Hw & _ & Hrun)]]];
    try congruence.
  - assert (len (@nil Byte.byte) = 0) as -> by reflexivity.
    rewrite Z.add_0_r. simpl. constructor; [lia|]. apply IH; auto.
  - apply deliver_data_Done in Hrun as [Hc' Hadj]. rewrite Hadj.
    assert (Hinit : _init_recv_window c' = _init_recv_window c)
      by (rewrite Hc'; reflexivity).
    assert (Hwin : _recv_window c' = after_debit c (len d))
      by (rewrite Hc'; reflexivity).
    constructor; [lia|].
    specialize (IH c'). rewrite Hinit, Hwin in IH.
    unfold adjust_for, after_debit in *.
    destruct (Z.ltb_spec (2 * (_recv_window c - len d)) (_init_recv_window c)).
    + rewrite Z.sub_diag in IH.
      apply IH; [rewrite Hc'; assumption..|lia].
    + replace (_init_recv_window c - _recv_window c + len d)
        with (_init_recv_window c - (_recv_window c - len d)) by lia.
      apply IH; [rewrite Hc'; assumption..|lia].
Qed.

End ReceiveWindow.

(** Run a computation forwards, deciding its tests by the hypotheses. *)
Ltac run_forward :=
  run_prims; chan_simpl;
  repeat (match goal with
          | H : ?x = _ |- context [match ?x with _ => _ end] => rewrite H
          end; run_prims; chan_simpl).

Section ReceiveScenarios.

Variable bytes_decode : string -> bytes -> decode_result.

Lemma window_adjusts_adjust_packets c send_chan n :
  window_adjusts (adjust_packets c send_chan n) = adjust_for c n.
Proof. unfold adjust_packets, adjust_for; case_match; reflexivity. Qed.

(** On a binary channel with a session, an inbound [CHANNEL_DATA] packet
    that fits the window is debited and handed to the session. *)
Lemma process_data_binary c d s n :
  _recv_state c = open -> closing (_send_state c) = false ->
  _recv_paused c = false -> text_encoding c = None ->
  _session c = Some s -> _send_chan c = Some n -> _conn c = true ->
  0 < len d <= _recv_window c ->
  _process_data bytes_decode d c
  = Done tt (set_recv_window (after_debit c (len d)) c)
      (adjust_packets c n (len d) ++ [SessDataReceived (PBytes d) None]).
Proof.
  intros Hr Hs Hp He Hse Hch Hco [Hd Hw].
  destruct d as [|b d]; [unfold len in Hd; simpl in Hd; lia|].
  apply Z.ltb_ge in Hw.
  unfold _process_data, _accept_data, _deliver_data, text_encoding in *.
  unfold adjust_packets, adjust_for, after_debit.
  run_forward.
  destruct (2 * (_recv_window c - len (b :: d)) <? _init_recv_window c);
    run_forward; [|reflexivity].
  simpl. f_equal.
Qed.

End ReceiveScenarios.

Section ReceiveGuarantees.

Variable bytes_decode : string -> bytes -> decode_result.


(** What a completed [_process_data] did on a channel that delivers. *)
Lemma process_data_Done c d c' out :
  closing (_send_state c) = false -> _recv_paused c = false -> d <> [] ->
  _process_data bytes_decode d c = Done tt c' out ->
  c' = set_recv_partial (_recv_partial c')
         (set_recv_window (after_debit c (len d)) c)
  /\ window_adjusts out = adjust_for c (len d).
Proof.
  intros Hs Hp Hd Hrun.
  apply (process_inbound_Done bytes_decode (ChannelData d)) in Hrun
    as (_ & _ & d' & dt & Hlen & Hrun).
  apply accept_data_Done in Hrun
    as [(-> & _)|[(? & _)|[(_ & _ & ? & _)|(_ & _ & _ & Hrun)]]];
    try congruence.
  - cbn [inbound_len] in Hlen. apply (f_equal Z.to_nat) in Hlen.
    unfold len in Hlen. rewrite !Nat2Z.id in Hlen.
    destruct d; [congruence|discriminate].
  - apply deliver_data_Done in Hrun. cbn [inbound_len] in Hlen.
    by rewrite Hlen.
Qed.

(** C3, as the code has it.  With [init_recv_window = 100], reading not
    paused and four [CHANNEL_DATA] packets of 30 bytes: the first packet
    (cumulative 30) sends no [CHANNEL_WINDOW_ADJUST]; the second
    (cumulative 60) leaves 40 < 50 and sends [WINDOW_ADJUST(60)], which
    restores the window to 100; the third sends none and leaves the
    window at 70, so after it exactly one adjustment, of 60, has been
    sent; the fourth sends [WINDOW_ADJUST(60)] again.  On a binary
    channel the four packets are always delivered. *)
Theorem window_halving (c : chan) (s : session) (n : Z) (d1 d2 d3 d4 : bytes) :
  _recv_state c = open -> closing (_send_state c) = false ->
  _recv_paused c = false ->
  _session c = Some s -> _send_chan c = Some n -> _conn c = true ->
  _init_recv_window c = 100 -> _recv_window c = 100 ->
  len d1 = 30 -> len d2 = 30 -> len d3 = 30 -> len d4 = 30 ->
  (forall c1 c2 c3 c4 out1 out2 out3 out4,
     _process_data bytes_decode d1 c = Done tt c1 out1 ->
     _process_data bytes_decode d2 c1 = Done tt c2 out2 ->
     _process_data bytes_decode d3 c2 = Done tt c3 out3 ->
     _process_data bytes_decode d4 c3 = Done tt c4 out4 ->
     window_adjusts out1 = [] /\ _recv_window c1 = 70
     /\ window_adjusts out2 = [60] /\ _recv_window c2 = 100
     /\ window_adjusts out3 = [] /\ _recv_window c3 = 70
     /\ window_adjusts (out1 ++ out2 ++ out3) = [60]
     /\ window_adjusts out4 = [60] /\ _recv_window c4 = 100)
  /\ (text_encoding c = None ->
      exists c1 c2 c3 c4 out1 out2 out3 out4,
        _process_data bytes_decode d1 c = Done tt c1 out1
        /\ _process_data bytes_decode d2 c1 = Done tt c2 out2
        /\ _process_data bytes_decode d3 c2 = Done tt c3 out3
        /\ _process_data bytes_decode d4 c3 = Done tt c4 out4).
Proof.
  intros Hr Hs Hp Hse Hch Hco Hi Hw L1 L2 L3 L4.
  assert (Hne : forall d : bytes, len d = 30 -> d <> []).
  { intros d L ->. discriminate L. }
  assert (step : forall c d w c' out,
    closing (_send_state c) = false -> _recv_paused c = false ->
    _init_recv_window c = 100 -> _recv_window c = w -> len d = 30 ->
    _process_data bytes_decode d c = Done tt c' out ->
    closing (_send_state c') = false /\ _recv_paused c' = false
    /\ _init_recv_window c' = 100
    /\ _recv_window c' = (if 2 * (w - 30) <? 100 then 100 else w - 30)
    /\ window_adjusts out
       = (if 2 * (w - 30) <? 100 then [100 - (w - 30)] else [])).
  { clear -Hne. intros c d w c' out Hs Hp Hi Hw L Hrun.
    apply process_data_Done in Hrun as [Hc' Hadj]; auto.
    rewrite Hadj, Hc'. unfold after_debit, adjust_for. chan_simpl.
    by rewrite Hi, Hw, L. }
  split.
  - intros c1 c2 c3 c4 out1 out2 out3 out4 R1 R2 R3 R4.
    destruct (step _ _ _ _ _ Hs Hp Hi Hw L1 R1) as (Hs1 & Hp1 & Hi1 & W1 & A1).
    destruct (step _ _ _ _ _ Hs1 Hp1 Hi1 W1 L2 R2)
      as (Hs2 & Hp2 & Hi2 & W2 & A2).
    destruct (step _ _ _ _ _ Hs2 Hp2 Hi2 W2 L3 R3)
      as (Hs3 & Hp3 & Hi3 & W3 & A3).
    destruct (step _ _ _ _ _ Hs3 Hp3 Hi3 W3 L4 R4) as (_ & _ & _ & W4 & A4).
    rewrite !window_adjusts_app, A1, A2, A3, A4.
    split_all; assumption || reflexivity.
  - intros He.
    assert (run : forall c d w,
      _recv_state c = open -> closing (_send_state c) = false ->
      _recv_paused c = false -> text_encoding c = None ->
      _session c = Some s -> _send_chan c = Some n -> _conn c = true ->
      _recv_window c = w -> len d = 30 -> 30 <= w ->
      exists c' out,
        _process_data bytes_decode d c = Done tt c' out
        /\ _recv_state c' = open /\ text_encoding c' = None
        /\ _session c' = Some s /\ _send_chan c' = Some n
        /\ _conn c' = true).
    { clear. intros c d w Hr Hs Hp He Hse Hch Hco Hw L Hle.
      eexists _, _. split.
      { eapply process_data_binary; eauto. lia. }
      unfold text_encoding in *. chan_simpl. auto. }
    destruct (run c d1 100) as (c1 & out1 & R1 & ? & ? & ? & ? & ?);
      auto; try lia.
    destruct (step _ _ _ _ _ Hs Hp Hi Hw L1 R1) as (Hs1 & Hp1 & Hi1 & W1 & _).
    destruct (run c1 d2 70) as (c2 & out2 & R2 & ? & ? & ? & ? & ?);
      auto; try lia.
    destruct (step _ _ _ _ _ Hs1 Hp1 Hi1 W1 L2 R2)
      as (Hs2 & Hp2 & Hi2 & W2 & _).
    destruct (run c2 d3 100) as (c3 & out3 & R3 & ? & ? & ? & ? & ?);
      auto; try lia.
    destruct (step _ _ _ _ _ Hs2 Hp2 Hi2 W2 L3 R3)
      as (Hs3 & Hp3 & Hi3 & W3 & _).
    destruct (run c3 d4 70) as (c4 & out4 & R4 & _); auto; try lia.
    eauto 12.
Qed.

(** C1, as the code has it.  On a channel open for receiving whose local
    side is not closing, an inbound data packet longer than [recv_window]
    raises a protocol error, paused or not; and while reading is not
    paused, the payload taken in since the last [CHANNEL_WINDOW_ADJUST]
    never exceeds [init_recv_window], for every sequence of inbound
    [CHANNEL_DATA] and [CHANNEL_EXTENDED_DATA] packets.  Once the local
    side has a close pending or sent, inbound data is dropped without the
    window being looked at and without an error. *)
Theorem recv_window_enforced (c : chan) :
  _recv_state c = open -> 0 <= _recv_window c ->
  (closing (_send_state c) = false ->
     (forall p, _recv_window c < inbound_len p ->
        exists reason,
          process_inbound bytes_decode p c
          = Raise (DisconnectError DISC_PROTOCOL_ERROR reason))
     /\ (_recv_paused c = false ->
         forall ps,
           Forall (fun k => k <= _init_recv_window c)
             (accepted_since_adjust bytes_decode
                (_init_recv_window c - _recv_window c) ps c)))
  /\ (closing (_send_state c) = true ->
      forall p, inbound_valid c p ->
        process_inbound bytes_decode p c = Done tt c []).
Proof.
  intros Hr H0. split.
  - intros Hs. split.
    + intros [d|dt d] Hlen; simpl in *;
        unfold _process_data, _process_extended_data; run_prims; rewrite Hr.
      * rewrite accept_data_overrun by assumption. eauto.
      * case_bool_decide; [|eauto].
        rewrite accept_data_overrun by assumption. eauto.
    + intros Hp ps. by apply accepted_since_adjust_bounded.
  - intros Hs [d|dt d] Hv; simpl in *;
      unfold _process_data, _process_extended_data; run_prims; rewrite Hr.
    + by rewrite accept_data_closing.
    + rewrite (bool_decide_eq_true_2 _ Hv). by rewrite accept_data_closing.
Qed.

End ReceiveGuarantees.
(** *** The receive path on concrete channels *)

Lemma binary_channel_reached :
  handshake 4 100
    (SSHChannel_init None 100 32768 1 {[EXTENDED_DATA_STDERR]} ∅)
  = Done tt binary_channel
      [ConnSendPacket
         [Packet.Byte MSG_CHANNEL_OPEN; Packet.String chantype_session;
          Packet.UInt32 1; Packet.UInt32 100; Packet.UInt32 32768]].
Proof. vm_compute. reflexivity. Qed.

Lemma closing_channel_reached :
  exec (write no_encoder (PBytes (replicate 10 Byte.x00)) None >> close)
    binary_channel
  = Some closing_channel
  /\ data_payloads
       (events
          (write no_encoder (PBytes (replicate 10 Byte.x00)) None >> close)
          binary_channel)
     = [replicate 4 Byte.x00]
  /\ channel_closes
       (events
          (write no_encoder (PBytes (replicate 10 Byte.x00)) None >> close)
          binary_channel)
     = 0%nat.
Proof. by_computation. Qed.


Lemma window_halving_witness :
  exists c1 c2 c3 c4 out1 out2 out3 out4,
    (_process_data utf8_codec thirty binary_channel = Done tt c1 out1
     /\ _process_data utf8_codec thirty c1 = Done tt c2 out2
     /\ _process_data utf8_codec thirty c2 = Done tt c3 out3
     /\ _process_data utf8_codec thirty c3 = Done tt c4 out4)
    /\ window_adjusts out1 = [] /\ _recv_window c1 = 70
    /\ window_adjusts out2 = [60] /\ _recv_window c2 = 100
    /\ window_adjusts out3 = [] /\ _recv_window c3 = 70
    /\ window_adjusts (out1 ++ out2 ++ out3) = [60]
    /\ window_adjusts out4 = [60] /\ _recv_window c4 = 100.
Proof.
  assert (Hr : _recv_state binary_channel = open) by by_computation.
  assert (Hs : closing (_send_state binary_channel) = false)
    by by_computation.
  assert (Hp : _recv_paused binary_channel = false) by by_computation.
  assert (Hse : _session binary_channel = Some (Session true))
    by by_computation.
  assert (Hch : _send_chan binary_channel = Some 0) by by_computation.
  assert (Hco : _conn binary_channel = true) by by_computation.
  assert (Hi : _init_recv_window binary_channel = 100) by by_computation.
  assert (Hw : _recv_window binary_channel = 100) by by_computation.
  assert (He : text_encoding binary_channel = None) by by_computation.
  assert (L : len thirty = 30) by by_computation.
  destruct (window_halving utf8_codec binary_channel (Session true) 0
              thirty thirty thirty thirty Hr Hs Hp Hse Hch Hco Hi Hw
              L L L L) as [Hfacts Hruns].
  destruct (Hruns He) as (c1 & c2 & c3 & c4 & out1 & out2 & out3 & out4
                          & R1 & R2 & R3 & R4).
  exists c1, c2, c3, c4, out1, out2, out3, out4.
  split; [auto|]. by apply Hfacts.
Defined.

(** C3 as stated fails: after the third packet the one adjustment sent
    carries 60, not 90, and the window stands at 70, not 100. *)
Lemma window_halving_counterexample :
  ~ exists c3 out,
      (_process_data utf8_codec thirty >> _process_data utf8_codec thirty >>
       _process_data utf8_codec thirty) binary_channel = Done tt c3 out
      /\ window_adjusts out = [90] /\ _recv_window c3 = 100.
Proof.
  intros (c3 & out & Hrun & Hadj & _).
  vm_compute in Hrun. injection Hrun as <- <-.
  vm_compute in Hadj. discriminate Hadj.
Qed.

Lemma recv_window_enforced_witness :
  _recv_state binary_channel = open
  /\ 0 <= _recv_window binary_channel
  /\ closing (_send_state binary_channel) = false
  /\ (forall p, _recv_window binary_channel < inbound_len p ->
        exists reason,
          process_inbound utf8_codec p binary_channel
          = Raise (DisconnectError DISC_PROTOCOL_ERROR reason))
  /\ (forall ps,
        Forall (fun k => k <= _init_recv_window binary_channel)
          (accepted_since_adjust utf8_codec
             (_init_recv_window binary_channel
              - _recv_window binary_channel) ps binary_channel)).
Proof.
  assert (Hr : _recv_state binary_channel = open) by (vm_compute; reflexivity).
  assert (H0 : 0 <= _recv_window binary_channel) by (vm_compute; discriminate).
  assert (Hs : closing (_send_state binary_channel) = false)
    by (vm_compute; reflexivity).
  assert (Hp : _recv_paused binary_channel = false)
    by (vm_compute; reflexivity).
  split; [exact Hr|]. split; [exact H0|]. split; [exact Hs|].
  destruct (recv_window_enforced utf8_codec binary_channel Hr H0)
    as [Hopen _].
  destruct (Hopen Hs) as [Hover Hbound].
  split; [exact Hover|exact (Hbound Hp)].
Defined.

(** C1 as stated fails: with a close pending, a packet of 101 bytes
    against a receive window of 100 is dropped without a protocol
    error. *)
Lemma recv_window_counterexample :
  _recv_state closing_channel = open
  /\ _send_state closing_channel = close_pending
  /\ _recv_window closing_channel = 100
  /\ _process_data utf8_codec (replicate 101 Byte.x00) closing_channel
     = Done tt closing_channel [].
Proof. by_computation. Qed.

(** While reading is paused the window is not debited: two packets of
    100 bytes against a window of 100 are both buffered, with neither an
    error nor an adjustment. *)
Lemma paused_window_not_debited :
  (_process_data utf8_codec (replicate 100 Byte.x00) >>
   _process_data utf8_codec (replicate 100 Byte.x00)) paused_channel
  = Done tt
      (set_recv_buf [(Data (replicate 100 Byte.x00), None);
                     (Data (replicate 100 Byte.x00), None)] paused_channel)
      []
  /\ _recv_window paused_channel = 100.
Proof. by_computation. Qed.

(** The running count over four packets of thirty bytes: it starts
    afresh after the second packet, which makes the channel adjust. *)
Lemma accepted_since_adjust_thirty :
  accepted_since_adjust utf8_codec 0
    [ChannelData thirty; ChannelData thirty; ChannelData thirty;
     ChannelData thirty] binary_channel
  = [30; 60; 30; 60].
Proof. by_computation. Qed.

(** ** Send path *)

Lemma data_payloads_app out1 out2 :
  data_payloads (out1 ++ out2) = data_payloads out1 ++ data_payloads out2.
Proof. apply omap_app. Qed.

Lemma total_len_app ps qs : total_len (ps ++ qs) = total_len ps + total_len qs.
Proof. induction ps as [|p ps IH]; simpl; [reflexivity|]. rewrite IH. lia. Qed.

Lemma channel_closes_app out1 out2 :
  channel_closes (out1 ++ out2)
  = (channel_closes out1 + channel_closes out2)%nat.
Proof. unfold channel_closes. by rewrite filter_app, length_app. Qed.

Lemma len_nonneg {A : Type} (l : list A) : 0 <= len l.
Proof. unfold len. lia. Qed.

Lemma len_app {A : Type} (l k : list A) : len (l ++ k) = len l + len k.
Proof. unfold len. rewrite length_app. lia. Qed.

(** The payload cut off for a packet fits both the packet size and the
    window. *)
Lemma next_payload_fits c :
  0 <= _send_window c -> 0 <= _send_pktsize c ->
  len (next_payload c) <= Z.min (_send_pktsize c) (_send_window c).
Proof.
  intros Hw Hp. unfold next_payload.
  destruct (_send_buf c) as [|[buf dt] rest]; [unfold len; simpl; lia|].
  cbv zeta. destruct (Z.ltb_spec (Z.min (_send_window c) (_send_pktsize c))
                        (len buf)) as [Hlt|Hge]; [|lia].
  unfold slice_to, slice_bound.
  destruct (Z.ltb_spec (Z.min (_send_window c) (_send_pktsize c)) 0); [lia|].
  unfold len in *. rewrite length_take. lia.
Qed.

(** One run of the loop body sends one data packet holding
    [next_payload] and debits the window and the buffer length by its
    length. *)
Lemma flush_body_Done c c' out :
  _send_buf c <> [] ->
  flush_body c = Done tt c' out ->
  exists buf dt rest n,
    _send_buf c = (buf, dt) :: rest
    /\ _send_chan c = Some n /\ _conn c = true
    /\ c' = set_send_window (_send_window c - len (next_payload c))
              (set_send_buf_len (_send_buf_len c - len (next_payload c))
                 (set_send_buf (_send_buf c') c))
    /\ _send_buf c'
       = (if Z.min (_send_window c) (_send_pktsize c) <? len buf
          then (slice_from (Z.min (_send_window c) (_send_pktsize c)) buf, dt)
               :: rest
          else rest)
    /\ data_payloads out = [next_payload c]
    /\ channel_closes out = 0%nat.
Proof.
  intros Hne H. unfold flush_body, next_payload in *.
  destruct (_send_buf c) as [|[buf dt] rest] eqn:Hbuf; [done|].
  inv_run; chan_simpl; simplify_eq; rewrite ?Hbuf;
    eexists _, _, _, _; repeat split; eauto.
Qed.

Lemma flush_body_eq c buf dt rest n :
  _send_buf c = (buf, dt) :: rest ->
  _send_chan c = Some n -> _conn c = true ->
  exists c' out, flush_body c = Done tt c' out.
Proof.
  intros Hbuf Hch Hco. unfold flush_body. run_forward.
  destruct dt; run_forward; eauto.
Qed.

Lemma send_frame_refl c : send_frame c c.
Proof. unfold send_frame. by destruct c. Qed.

Lemma send_frame_trans c1 c2 c3 :
  send_frame c1 c2 -> send_frame c2 c3 -> send_frame c1 c3.
Proof.
  unfold send_frame. intros H12 H23.
  remember (_send_window c3) as w3. remember (_send_buf_len c3) as l3.
  remember (_send_buf c3) as b3.
  rewrite H23, H12. by destruct c1.
Qed.

(** What the loop of [_flush_send_buf] does when it ends: every packet
    fits the packet size and the window left before it, the window and
    the buffer length go down by what was sent, and the loop stops only
    when the buffer or the window is exhausted. *)
Lemma flush_loop_Done fuel : forall c c' out,
  0 <= _send_window c -> 0 <= _send_pktsize c ->
  flush_loop fuel c = Done tt c' out ->
  can_send c' = false
  /\ send_frame c c'
  /\ fits_window (_send_pktsize c) (_send_window c) (data_payloads out)
  /\ _send_window c' = _send_window c - total_len (data_payloads out)
  /\ _send_buf_len c' = _send_buf_len c - total_len (data_payloads out)
  /\ 0 <= _send_window c'
  /\ channel_closes out = 0%nat.
Proof.
  assert (Hdone : forall c c' out,
    can_send c = false -> Done tt c [] = Done tt c' out ->
    can_send c' = false /\ send_frame c c'
    /\ fits_window (_send_pktsize c) (_send_window c) (data_payloads out)
    /\ _send_window c' = _send_window c - total_len (data_payloads out)
    /\ _send_buf_len c' = _send_buf_len c - total_len (data_payloads out)
    /\ (0 <= _send_window c -> 0 <= _send_window c')
    /\ channel_closes out = 0%nat).
  { intros c c' out Hcan [= <- <-]. simpl. rewrite !Z.sub_0_r.
    auto 10 using send_frame_refl. }
  induction fuel as [|fuel IH]; intros c c' out Hw Hp; simpl;
    destruct (can_send c) eqn:Hcan.
  1: discriminate.
  1,3: intros H; destruct (Hdone c c' out Hcan H)
         as (? & ? & ? & ? & ? & ? & ?); auto 10.
  intros H. apply bind_Done in H as ([] & c1 & o1 & o2 & H1 & H2 & ->).
  assert (Hne : _send_buf c <> []).
  { unfold can_send in Hcan. by destruct (_send_buf c). }
  pose proof (next_payload_fits c Hw Hp) as Hfit.
  apply flush_body_Done in H1
    as (buf & dt & rest & n & Hbuf & _ & _ & Hc1 & _ & Hpay & Hcl); [|done].
  assert (Hw1 : _send_window c1 = _send_window c - len (next_payload c))
    by (rewrite Hc1; reflexivity).
  assert (Hl1 : _send_buf_len c1 = _send_buf_len c - len (next_payload c))
    by (rewrite Hc1; reflexivity).
  assert (Hp1 : _send_pktsize c1 = _send_pktsize c)
    by (rewrite Hc1; reflexivity).
  apply IH in H2 as (Hstop & Hfr & Hfits & Hw' & Hl' & Hw0 & Hcl');
    [|lia..].
  rewrite data_payloads_app, channel_closes_app, Hpay, Hcl, Hcl'.
  simpl. rewrite Hw', Hl', Hw1, Hl1. rewrite Hp1, Hw1 in Hfits.
  repeat split; auto; try lia.
  eapply send_frame_trans; [|exact Hfr].
  unfold send_frame. rewrite Hw1, Hl1. exact Hc1.
Qed.

Lemma send_measure_cons c buf dt rest :
  _send_buf c = (buf, dt) :: rest ->
  send_measure c
  = S (length rest + (length buf + length (concat (fst <$> rest))))%nat.
Proof.
  unfold send_measure, flush_fuel. intros ->.
  rewrite fmap_cons. cbn [concat fst length]. rewrite length_app. lia.
Qed.

Lemma flush_body_ends c : flush_body c <> Diverge.
Proof.
  unfold flush_body. run_prims.
  destruct (_send_buf c) as [|[buf dt] rest]; [done|].
  destruct dt; run_prims; chan_simpl;
    (destruct (_send_chan c); [|done]); run_prims; chan_simpl;
    destruct (_conn c); done.
Qed.

(** With a positive packet size the loop of [_flush_send_buf] ends, and
    on a connected channel it ends well. *)
Lemma flush_loop_ends fuel : forall c,
  (send_measure c <= fuel)%nat ->
  0 <= _send_window c -> 0 < _send_pktsize c ->
  flush_loop fuel c <> Diverge
  /\ (_conn c = true -> is_Some (_send_chan c) ->
      exists c' out, flush_loop fuel c = Done tt c' out).
Proof.
  induction fuel as [|fuel IH]; intros c Hm Hw Hp; simpl;
    destruct (can_send c) eqn:Hcan; try (split; [done|eauto]).
  - unfold can_send in Hcan.
    destruct (_send_buf c) as [|[buf dt] rest] eqn:Hbuf; [done|].
    rewrite (send_measure_cons _ _ _ _ Hbuf) in Hm. lia.
  - assert (Hne : _send_buf c <> []).
    { unfold can_send in Hcan. by destruct (_send_buf c). }
    assert (Hw1 : _send_window c <> 0).
    { unfold can_send in Hcan. destruct (_send_buf c); [done|].
      apply negb_true_iff, Z.eqb_neq in Hcan. done. }
    pose proof (next_payload_fits c Hw ltac:(lia)) as Hfit.
    assert (Hstep : forall c1 out1, flush_body c = Done tt c1 out1 ->
      (send_measure c1 <= fuel)%nat /\ 0 <= _send_window c1
      /\ 0 < _send_pktsize c1 /\ _conn c1 = _conn c
      /\ _send_chan c1 = _send_chan c).
    { intros c1 out1 H1.
      apply flush_body_Done in H1
        as (buf & dt & rest & n & Hbuf & _ & _ & Hc1 & Hbuf1 & _ & _);
        [|done].
      assert (send_measure c1 < send_measure c)%nat.
      { rewrite (send_measure_cons _ _ _ _ Hbuf).
        destruct (Z.ltb_spec (Z.min (_send_window c) (_send_pktsize c))
                    (len buf)) as [Hlt|Hge].
        - rewrite (send_measure_cons _ _ _ _ Hbuf1).
          unfold slice_from, slice_bound.
          destruct (Z.ltb_spec (Z.min (_send_window c) (_send_pktsize c)) 0);
            [lia|].
          rewrite length_drop. unfold len in Hlt. lia.
        - unfold send_measure, flush_fuel. rewrite Hbuf1. lia. }
      assert (_send_window c1 = _send_window c - len (next_payload c))
        as -> by (rewrite Hc1; reflexivity).
      assert (_send_pktsize c1 = _send_pktsize c)
        as -> by (rewrite Hc1; reflexivity).
      assert (_conn c1 = _conn c) as -> by (rewrite Hc1; reflexivity).
      assert (_send_chan c1 = _send_chan c)
        as -> by (rewrite Hc1; reflexivity).
      repeat split; lia. }
    split.
    + unfold bind. destruct (flush_body c) as [[] c1 out1| |] eqn:H1;
        try done.
      * destruct (Hstep _ _ eq_refl) as (? & ? & ? & _).
        destruct (IH c1) as [Hnd _]; [done..|].
        destruct (flush_loop fuel c1); done.
      * by apply flush_body_ends in H1.
    + intros Hco [n Hch].
      destruct (_send_buf c) as [|[buf dt] rest] eqn:Hbuf; [done|].
      destruct (flush_body_eq c buf dt rest n Hbuf Hch Hco)
        as (c1 & out1 & H1).
      destruct (Hstep _ _ H1) as (? & ? & ? & Hco1 & Hch1).
      destruct (IH c1) as [_ Hex]; [done..|].
      destruct Hex as (c' & out & Hrest); [congruence|rewrite Hch1; eauto|].
      rewrite (bind_Done_eq _ _ _ _ _ _ H1), Hrest. eauto.
Qed.

(** With a packet size of zero the loop never ends: the body sends an
    empty packet and leaves the channel as it was. *)
Lemma flush_loop_zero_pktsize fuel c b buf dt rest :
  _send_pktsize c = 0 -> 0 < _send_window c ->
  _send_buf c = (b :: buf, dt) :: rest ->
  _conn c = true -> is_Some (_send_chan c) ->
  flush_loop fuel c = Diverge.
Proof.
  intros Hp Hw Hbuf Hco [n Hch].
  assert (Hcan : can_send c = true).
  { unfold can_send. rewrite Hbuf. apply negb_true_iff, Z.eqb_neq. lia. }
  assert (Hbody : exists out, flush_body c = Done tt c out).
  { unfold flush_body. run_prims. rewrite Hbuf, Hp.
    assert (Z.min (_send_window c) 0 = 0) as -> by lia.
    assert ((0 <? len (b :: buf)) = true) as ->
      by (apply Z.ltb_lt; unfold len; simpl; lia).
    unfold slice_to, slice_from, slice_bound. simpl.
    run_prims. chan_simpl. unfold len. simpl.
    rewrite !Z.sub_0_r.
    assert (Hsame : set_send_window (_send_window c)
                      (set_send_buf_len (_send_buf_len c)
                         (set_send_buf ((b :: buf, dt) :: rest) c)) = c)
      by (destruct c; simpl in *; by subst).
    destruct dt; run_prims; chan_simpl; rewrite Hch; run_prims; chan_simpl;
      rewrite Hco, Hsame; eauto. }
  destruct Hbody as [out Hbody].
  induction fuel as [|fuel IH]; simpl; rewrite Hcan; [reflexivity|].
  by rewrite (bind_Done_eq _ _ _ _ _ _ Hbody), IH.
Qed.

Lemma flush_loop_empty fuel c c' out :
  _send_buf c = [] -> flush_loop fuel c = Done tt c' out -> _send_buf c' = [].
Proof.
  intros Hempty. destruct fuel; simpl; unfold can_send; rewrite Hempty;
    by intros [= <- <-].
Qed.

Lemma pause_resume_writing_Done c c' out :
  _pause_resume_writing c = Done tt c' out ->
  c' = set_send_paused (_send_paused c') c
  /\ data_payloads out = [] /\ channel_closes out = 0%nat.
Proof.
  unfold _pause_resume_writing. intros H. inv_run; chan_simpl;
    repeat split; try reflexivity; by destruct c'.
Qed.

Lemma pause_resume_writing_ends c :
  _pause_resume_writing c <> Diverge
  /\ (is_Some (_session c) ->
      exists c' out, _pause_resume_writing c = Done tt c' out).
Proof.
  unfold _pause_resume_writing. run_prims. split.
  - destruct (_send_paused c);
      [destruct (_send_buf_len c <=? _send_low_water c)
      |destruct (_send_high_water c <? _send_buf_len c)];
      run_prims; chan_simpl; try done; destruct (_session c); done.
  - intros [s Hs].
    destruct (_send_paused c);
      [destruct (_send_buf_len c <=? _send_low_water c)
      |destruct (_send_high_water c <? _send_buf_len c)];
      run_prims; chan_simpl; rewrite ?Hs; eauto.
Qed.

Lemma flush_finish_Done c c' out :
  flush_finish c = Done tt c' out ->
  c' = set_send_state (_send_state c') c
  /\ data_payloads out = []
  /\ match _send_buf c with
     | [] =>
       _send_state c' = drained (_send_state c)
       /\ channel_closes out
          = (if bool_decide (_send_state c = close_pending) then 1 else 0)%nat
     | _ :: _ => _send_state c' = _send_state c /\ channel_closes out = 0%nat
     end.
Proof.
  unfold flush_finish. intros H.
  apply bind_Done in H as (c0 & c0' & o0 & o1 & H0 & H1 & ->).
  unfold get in H0. injection H0 as <- <- <-.
  destruct (_send_buf c) as [|x l]; [|inv_run; split; [chan_eta|done]].
  destruct (_send_state c) eqn:Hst; inv_run; chan_simpl;
    (split; [chan_eta|]); rewrite ?Hst; done.
Qed.

Lemma flush_finish_ends c :
  flush_finish c <> Diverge
  /\ (_conn c = true -> is_Some (_send_chan c) ->
      exists c' out, flush_finish c = Done tt c' out).
Proof.
  unfold flush_finish. run_prims. split.
  - destruct (_send_buf c); [|done].
    destruct (_send_state c); try done; run_prims; chan_simpl;
      (destruct (_send_chan c); [|done]); run_prims; destruct (_conn c); done.
  - intros Hco [n Hch]. destruct (_send_buf c); [|eauto].
    destruct (_send_state c); run_forward; eauto.
Qed.

(** What a completed [_flush_send_buf] did. *)
Lemma flush_send_buf_Done c c' out :
  0 <= _send_window c -> 0 <= _send_pktsize c ->
  _flush_send_buf c = Done tt c' out ->
  flush_frame c c'
  /\ fits_window (_send_pktsize c) (_send_window c) (data_payloads out)
  /\ _send_window c' = _send_window c - total_len (data_payloads out)
  /\ _send_buf_len c' = _send_buf_len c - total_len (data_payloads out)
  /\ 0 <= _send_window c'
  /\ (_send_buf c' = [] \/ _send_window c' = 0)
  /\ (_send_buf c = [] -> _send_buf c' = [])
  /\ match _send_buf c' with
     | [] =>
       _send_state c' = drained (_send_state c)
       /\ channel_closes out
          = (if bool_decide (_send_state c = close_pending) then 1 else 0)%nat
     | _ :: _ => _send_state c' = _send_state c /\ channel_closes out = 0%nat
     end.
Proof.
  intros Hw Hp H. unfold _flush_send_buf in H.
  apply bind_Done in H as ([] & c1 & o1 & o2 & H1 & H2 & ->).
  apply bind_Done in H1 as (c0 & c0' & o0 & o1' & H0 & H1 & ->).
  unfold get in H0. injection H0 as <- <- <-.
  apply bind_Done in H2 as ([] & c2 & o2' & o3 & H2 & H3 & ->).
  pose proof H1 as H1'.
  apply flush_loop_Done in H1
    as (Hstop & Hfr & Hfits & Hw1 & Hl1 & Hw0 & Hcl1); [|done..].
  apply pause_resume_writing_Done in H2 as (Hc2 & Hpay2 & Hcl2).
  apply flush_finish_Done in H3 as (Hc' & Hpay3 & Hfin).
  assert (Hbuf : _send_buf c' = _send_buf c1)
    by (rewrite Hc', Hc2; reflexivity).
  assert (Hst2 : _send_state c2 = _send_state c)
    by (rewrite Hc2, Hfr; reflexivity).
  assert (Hbuf2 : _send_buf c2 = _send_buf c1) by (rewrite Hc2; reflexivity).
  assert (Hwin : _send_window c' = _send_window c1)
    by (rewrite Hc', Hc2; reflexivity).
  assert (Hlen : _send_buf_len c' = _send_buf_len c1)
    by (rewrite Hc', Hc2; reflexivity).
  rewrite !data_payloads_app, !channel_closes_app, Hpay2, Hpay3, Hcl1, Hcl2.
  simpl. rewrite !app_nil_r, Hbuf, Hwin, Hlen.
  rewrite Hbuf2, Hst2 in Hfin.
  split; [|repeat split; try done].
  - unfold flush_frame, send_frame in *.
    rewrite Hbuf, Hwin, Hlen.
    remember (_send_state c') as s'. rewrite Hc'.
    remember (_send_paused c2) as p2.
    assert (_send_paused (set_send_state s' c2) = p2) as ->
      by (subst p2; reflexivity).
    rewrite Hc2. rewrite Hfr at 1. by destruct c.
  - unfold can_send in Hstop. destruct (_send_buf c1); [by left|right].
    apply negb_false_iff, Z.eqb_eq in Hstop. done.
  - intros Hempty. by rewrite (flush_loop_empty _ _ _ _ Hempty H1').
Qed.

(** With a positive packet size [_flush_send_buf] returns; on a
    connected channel it does not raise. *)
Lemma flush_send_buf_ends c :
  0 <= _send_window c -> 0 < _send_pktsize c ->
  _flush_send_buf c <> Diverge
  /\ (connected c -> exists c' out, _flush_send_buf c = Done tt c' out).
Proof.
  intros Hw Hp.
  destruct (flush_loop_ends (flush_fuel c) c) as [Hnd Hex]; [done..|].
  split.
  - unfold _flush_send_buf, bind, get.
    destruct (flush_loop (flush_fuel c) c) as [[] c1 o1| |]; try done.
    destruct (pause_resume_writing_ends c1) as [Hnd2 _].
    destruct (_pause_resume_writing c1) as [[] c2 o2| |]; try done.
    destruct (flush_finish_ends c2) as [Hnd3 _].
    destruct (flush_finish c2); done.
  - intros (Hco & Hch & Hse).
    destruct Hex as (c1 & o1 & H1); [done..|].
    pose proof H1 as H1'.
    apply flush_loop_Done in H1' as (_ & Hfr & _); [|lia..].
    destruct (pause_resume_writing_ends c1) as [_ Hex2].
    destruct Hex2 as (c2 & o2 & H2); [rewrite Hfr; exact Hse|].
    pose proof H2 as H2'.
    apply pause_resume_writing_Done in H2' as (Hc2 & _).
    destruct (flush_finish_ends c2) as [_ Hex3].
    destruct Hex3 as (c3 & o3 & H3);
      [rewrite Hc2, Hfr; exact Hco|rewrite Hc2, Hfr; exact Hch|].
    unfold _flush_send_buf, bind, get. rewrite H1, H2, H3. eauto.
Qed.

(** C4. Every [CHANNEL_DATA] or [CHANNEL_EXTENDED_DATA] packet of the
    send path carries at most [min(send_pktsize, send_window)] bytes, the
    window being the one left before the packet goes out, and sending it
    takes its length off [send_window] and off [send_buf_len]: for one
    run of the loop body of [_flush_send_buf], for a whole
    [_flush_send_buf], and for the two ways into it that add to the
    buffer or to the window, [write] and an inbound
    [CHANNEL_WINDOW_ADJUST].  With a positive packet size and a connected
    channel the flush completes. *)
Theorem send_respects_window (c : chan) :
  0 <= _send_window c -> 0 <= _send_pktsize c ->
  (forall c' out,
     can_send c = true -> flush_body c = Done tt c' out ->
     data_payloads out = [next_payload c]
     /\ len (next_payload c) <= Z.min (_send_pktsize c) (_send_window c)
     /\ _send_window c' = _send_window c - len (next_payload c)
     /\ _send_buf_len c' = _send_buf_len c - len (next_payload c))
  /\ (forall c' out,
        _flush_send_buf c = Done tt c' out ->
        fits_window (_send_pktsize c) (_send_window c) (data_payloads out)
        /\ _send_window c' = _send_window c - total_len (data_payloads out)
        /\ _send_buf_len c'
           = _send_buf_len c - total_len (data_payloads out))
  /\ (forall str_encode data datatype c' out,
        write str_encode data datatype c = Done tt c' out ->
        fits_window (_send_pktsize c) (_send_window c) (data_payloads out)
        /\ _send_window c' = _send_window c - total_len (data_payloads out)
        /\ exists raw : bytes,
             _send_buf_len c'
             = _send_buf_len c + len raw - total_len (data_payloads out))
  /\ (forall adjust c' out,
        0 <= adjust ->
        _process_window_adjust adjust c = Done tt c' out ->
        fits_window (_send_pktsize c) (_send_window c + adjust)
          (data_payloads out)
        /\ _send_window c'
           = _send_window c + adjust - total_len (data_payloads out))
  /\ (0 < _send_pktsize c -> connected c ->
      exists c' out, _flush_send_buf c = Done tt c' out).
Proof.
  intros Hw Hp. repeat apply conj.
  - intros c' out Hcan H.
    assert (Hne : _send_buf c <> []).
    { unfold can_send in Hcan. by destruct (_send_buf c). }
    apply flush_body_Done in H
      as (buf & dt & rest & n & _ & _ & _ & Hc' & _ & Hpay & _); [|done].
    repeat split; [done|by apply next_payload_fits|rewrite Hc'..];
      reflexivity.
  - intros c' out H.
    by apply flush_send_buf_Done in H as (_ & ? & ? & ? & _).
  - intros str_encode data datatype c' out H. unfold write in H.
    inv_run;
      try (change (data_payloads ([] ++ [])) with (@nil bytes);
           cbn [total_len foldr fits_window];
           repeat split; try lia; exists []; unfold len; simpl; lia).
    all: chan_simpl.
    all: match goal with
         | H : _flush_send_buf _ = _ |- _ =>
           apply flush_send_buf_Done in H as (_ & ? & ? & ? & _);
             chan_simpl; [|done..]
         end.
    all: repeat split; try done; eauto.
  - intros adjust c' out Hadj H. unfold _process_window_adjust in H.
    inv_run.
    match goal with
    | H : _flush_send_buf _ = _ |- _ =>
      apply flush_send_buf_Done in H as (_ & ? & ? & _);
        chan_simpl; [done|lia|done]
    end.
  - intros Hpos Hconn. by apply flush_send_buf_ends.
Qed.

(** ** Closing *)

(** Once the send side is closing, [close()] does nothing. *)
Lemma close_noop c :
  closing (_send_state c) = true -> close c = Done tt c [].
Proof. intros H. unfold close. run_prims. by rewrite H. Qed.

Lemma flush_frame_sendable c c' :
  flush_frame c c' -> 0 <= _send_window c' -> sendable c -> sendable c'.
Proof.
  unfold sendable, connected. intros Hfr Hw ((? & ? & ?) & ? & ? & ?).
  rewrite Hfr. chan_simpl. auto.
Qed.

(** A flush on a channel that can send. *)
Lemma flush_sendable c :
  sendable c ->
  exists c' out,
    _flush_send_buf c = Done tt c' out /\ sendable c'
    /\ (_send_buf c = [] -> _send_buf c' = [])
    /\ match _send_buf c' with
       | [] =>
         _send_state c' = drained (_send_state c)
         /\ channel_closes out
            = (if bool_decide (_send_state c = close_pending)
               then 1 else 0)%nat
       | _ :: _ =>
         _send_state c' = _send_state c /\ channel_closes out = 0%nat
       end.
Proof.
  intros Hs. pose proof Hs as (Hconn & Hr & Hw & Hp).
  destruct (flush_send_buf_ends c Hw Hp) as [_ Hex].
  destruct (Hex Hconn) as (c' & out & Hrun).
  exists c', out. split; [done|].
  apply flush_send_buf_Done in Hrun
    as (Hfr & _ & _ & _ & Hw' & _ & Hempty & Hfin); [|lia..].
  eauto using flush_frame_sendable.
Qed.

Lemma close_sent_between_same c c' :
  _send_state c' = _send_state c -> close_sent_between c c' = 0%nat.
Proof.
  intros Heq. unfold close_sent_between. rewrite Heq.
  by destruct (_send_state c).
Qed.

(** After [close()], one more call of [close()] or one window
    adjustment sends the pending close exactly when the buffer drains,
    and never a second one. *)
Lemma close_requested_step s c :
  sendable c -> close_requested c -> close_step_ok s ->
  exists c' out,
    close_step_run s c = Done tt c' out
    /\ sendable c' /\ close_requested c'
    /\ (_send_state c = close_sent -> _send_state c' = close_sent)
    /\ channel_closes out = close_sent_between c c'.
Proof.
  intros Hs Hc Hok. destruct s as [|adjust]; simpl in *.
  - exists c, []. rewrite close_noop.
    + split; [done|]. split; [done|]. split; [done|]. split; [done|].
      by rewrite close_sent_between_same.
    + by destruct Hc as [[-> _]|[-> _]].
  - assert (Hs' : sendable (set_send_window (_send_window c + adjust) c)).
    { destruct Hs as ((? & ? & ?) & ? & ? & ?).
      unfold sendable, connected. chan_simpl. repeat split; auto; lia. }
    destruct (flush_sendable _ Hs')
      as (c1 & out1 & Hrun & Hs1' & Hempty & Hfin).
    exists c1, out1. unfold _process_window_adjust. run_prims.
    destruct Hs as (_ & -> & _). rewrite Hrun. chan_simpl.
    split; [done|]. split; [done|].
    unfold close_requested, close_sent_between in *.
    destruct (_send_buf c1) as [|x l] eqn:Hb1.
    + destruct Hfin as [-> ->].
      destruct Hc as [[-> _]|[-> _]]; simpl; auto.
    + destruct Hfin as [-> ->].
      destruct Hc as [[-> _]|[-> Hb]]; [|by specialize (Hempty Hb)].
      split; [left; done|]. split; [done|reflexivity].
Qed.

Lemma close_requested_steps steps : forall c,
  sendable c -> close_requested c -> Forall close_step_ok steps ->
  exists c' out,
    close_steps_run steps c = Done tt c' out
    /\ sendable c' /\ close_requested c'
    /\ (_send_state c = close_sent -> _send_state c' = close_sent)
    /\ channel_closes out = close_sent_between c c'.
Proof.
  induction steps as [|s steps IH]; intros c Hs Hc Hok.
  - exists c, []. split; [done|]. split; [done|]. split; [done|].
    split; [done|]. by rewrite close_sent_between_same.
  - apply Forall_cons in Hok as [Hs1 Hok].
    destruct (close_requested_step s c Hs Hc Hs1)
      as (c1 & out1 & Hrun1 & Hs1' & Hc1 & Hmono1 & Hcl1).
    destruct (IH c1 Hs1' Hc1 Hok)
      as (c' & out & Hrun & Hs' & Hc' & Hmono & Hcl).
    exists c', (out1 ++ out).
    split.
    { cbn [close_steps_run].
      by rewrite (bind_Done_eq _ _ _ _ _ _ Hrun1), Hrun. }
    split; [done|]. split; [done|]. split; [auto|].
    rewrite channel_closes_app, Hcl1, Hcl.
    unfold close_sent_between, close_requested in *.
    destruct Hc as [[Ha _]|[Ha _]], Hc1 as [[Hb _]|[Hb _]];
      rewrite Ha, Hb in *; try reflexivity.
    + rewrite (Hmono eq_refl). reflexivity.
    + specialize (Hmono1 eq_refl). discriminate.
Qed.

(** Before [close()], window adjustments send no close. *)
Lemma not_closing_adjust c adjust :
  sendable c -> not_closing c -> 0 <= adjust ->
  exists c' out,
    _process_window_adjust adjust c = Done tt c' out
    /\ sendable c' /\ not_closing c' /\ channel_closes out = 0%nat.
Proof.
  intros Hs Hn Hadj.
  assert (Hs' : sendable (set_send_window (_send_window c + adjust) c)).
  { destruct Hs as ((? & ? & ?) & ? & ? & ?).
    unfold sendable, connected. chan_simpl. repeat split; auto; lia. }
  destruct (flush_sendable _ Hs') as (c1 & out1 & Hrun & Hs1 & _ & Hfin).
  exists c1, out1. unfold _process_window_adjust. run_prims.
  destruct Hs as (_ & -> & _). rewrite Hrun. chan_simpl.
  split; [done|]. split; [done|].
  unfold not_closing in *.
  destruct (_send_buf c1); destruct Hfin as [-> ->];
    destruct Hn as [-> | [-> | ->]]; simpl; auto.
Qed.

(** The first [close()] sends the close at once if the buffer drains and
    leaves it pending otherwise. *)
Lemma not_closing_close c :
  sendable c -> not_closing c ->
  exists c' out,
    close c = Done tt c' out /\ sendable c' /\ close_requested c'
    /\ channel_closes out
       = (if bool_decide (_send_state c' = close_sent) then 1 else 0)%nat.
Proof.
  intros Hs Hn.
  assert (Hs' : sendable (set_send_state close_pending c)).
  { destruct Hs as ((? & ? & ?) & ? & ? & ?).
    unfold sendable, connected. chan_simpl. repeat split; auto. }
  destruct (flush_sendable _ Hs') as (c1 & out1 & Hrun & Hs1 & _ & Hfin).
  exists c1, out1. unfold close. run_prims.
  assert (closing (_send_state c) = false) as ->
    by (destruct Hn as [-> | [-> | ->]]; reflexivity).
  rewrite Hrun. chan_simpl.
  split; [done|]. split; [done|].
  unfold close_requested.
  destruct (_send_buf c1) eqn:Hb; destruct Hfin as [-> ->]; simpl; auto.
Qed.

(** C8. [close()] is idempotent.  On a channel that can send and on
    which [close()] has not been called, any sequence of [close()] calls
    and window adjustments from the peer that holds at least one
    [close()] sends exactly one [CHANNEL_CLOSE] if the send buffer has
    drained by its end, leaving [close_sent], and none as long as data is
    still buffered, leaving [close_pending]; however many times [close()]
    is called.  And once the send state is [close_pending] (or
    [close_sent], or [closed]), a call of [close()] returns the channel
    object unchanged and sends nothing. *)
Theorem close_idempotent (c c1 : chan) (steps : list close_step) :
  sendable c -> not_closing c ->
  Forall close_step_ok steps -> CallClose ∈ steps ->
  closing (_send_state c1) = true ->
  (exists c' out,
     close_steps_run steps c = Done tt c' out
     /\ match _send_buf c' with
        | [] => _send_state c' = close_sent /\ channel_closes out = 1%nat
        | _ :: _ =>
          _send_state c' = close_pending /\ channel_closes out = 0%nat
        end)
  /\ close c1 = Done tt c1 [].
Proof.
  intros Hs Hn Hok Hin Hc1. split; [|by apply close_noop].
  clear c1 Hc1. revert c Hs Hn Hok Hin.
  induction steps as [|s steps IH]; intros c Hs Hn Hok Hin.
  - by apply elem_of_nil in Hin.
  - apply Forall_cons in Hok as [Hs1 Hok]. destruct s as [|adjust].
    + destruct (not_closing_close c Hs Hn)
        as (c1 & out1 & Hrun1 & Hs1' & Hc1 & Hcl1).
      destruct (close_requested_steps steps c1 Hs1' Hc1 Hok)
        as (c' & out & Hrun & _ & Hc' & Hmono & Hcl).
      exists c', (out1 ++ out). split.
      { cbn [close_steps_run close_step_run].
        by rewrite (bind_Done_eq _ _ _ _ _ _ Hrun1), Hrun. }
      rewrite channel_closes_app, Hcl1, Hcl.
      unfold close_sent_between, close_requested in *.
      destruct Hc1 as [[Hb _]|[Hb _]], Hc' as [[Hd Hbuf]|[Hd Hbuf]];
        rewrite Hb, Hd in *.
      * destruct (_send_buf c'); done.
      * rewrite Hbuf. done.
      * specialize (Hmono eq_refl). discriminate.
      * rewrite Hbuf. done.
    + destruct (not_closing_adjust c adjust Hs Hn Hs1)
        as (c1 & out1 & Hrun1 & Hs1' & Hn1 & Hcl1).
      apply elem_of_cons in Hin as [Hin|Hin]; [discriminate|].
      destruct (IH c1 Hs1' Hn1 Hok Hin) as (c' & out & Hrun & Hfin).
      exists c', (out1 ++ out). split.
      { cbn [close_steps_run close_step_run].
        by rewrite (bind_Done_eq _ _ _ _ _ _ Hrun1), Hrun. }
      by rewrite channel_closes_app, Hcl1.
Qed.

(** [abort()] leaves the send buffer and its length as they are. *)
Lemma abort_Done c c' out :
  abort c = Done tt c' out ->
  _send_buf c' = _send_buf c /\ _send_buf_len c' = _send_buf_len c
  /\ _recv_state c' = _recv_state c.
Proof.
  unfold abort. intros H. inv_run; chan_simpl; done.
Qed.

(** *** The send path on concrete channels *)

Lemma buffered_channel_reached :
  exec (write no_encoder (PBytes (replicate 10 Byte.x00)) None)
    binary_channel
  = Some buffered_channel
  /\ data_payloads
       (events (write no_encoder (PBytes (replicate 10 Byte.x00)) None)
          binary_channel)
     = [replicate 4 Byte.x00]
  /\ _send_buf_len buffered_channel = 6
  /\ _send_window buffered_channel = 0.
Proof. by_computation. Qed.

Lemma send_respects_window_witness :
  (forall c' out,
     _flush_send_buf binary_channel = Done tt c' out ->
     fits_window (_send_pktsize binary_channel) (_send_window binary_channel)
       (data_payloads out)
     /\ _send_window c'
        = _send_window binary_channel - total_len (data_payloads out)
     /\ _send_buf_len c'
        = _send_buf_len binary_channel - total_len (data_payloads out))
  /\ (forall adjust c' out,
        0 <= adjust ->
        _process_window_adjust adjust buffered_channel = Done tt c' out ->
        fits_window (_send_pktsize buffered_channel)
          (_send_window buffered_channel + adjust) (data_payloads out)
        /\ _send_window c'
           = _send_window buffered_channel + adjust
             - total_len (data_payloads out)).
Proof.
  split.
  - apply (send_respects_window binary_channel); vm_compute; discriminate.
  - apply (send_respects_window buffered_channel); vm_compute; discriminate.
Defined.

Lemma close_idempotent_witness :
  (exists c' out,
     close_steps_run
       [CallClose; CallClose; PeerWindowAdjust 2; CallClose;
        PeerWindowAdjust 10; CallClose] buffered_channel
     = Done tt c' out
     /\ match _send_buf c' with
        | [] => _send_state c' = close_sent /\ channel_closes out = 1%nat
        | _ :: _ =>
          _send_state c' = close_pending /\ channel_closes out = 0%nat
        end)
  /\ close closing_channel = Done tt closing_channel [].
Proof.
  apply (close_idempotent buffered_channel closing_channel).
  - repeat split; try (vm_compute; reflexivity);
      try (vm_compute; eexists; reflexivity).
    vm_compute; discriminate.
  - left. vm_compute. reflexivity.
  - repeat constructor; vm_compute; discriminate.
  - constructor.
  - vm_compute. reflexivity.
Defined.

(** C2 fails on the code: [abort()] sends its one [CHANNEL_CLOSE] but
    keeps the buffered data.  On the channel with six bytes buffered,
    [send_buf_len] is still 6 after [abort()], and when the peer then
    opens the window the six bytes go out in a [CHANNEL_DATA] packet
    after the close. *)
Theorem abort_keeps_send_buf :
  exec abort buffered_channel = Some aborted_channel
  /\ channel_closes (events abort buffered_channel) = 1%nat
  /\ _send_state aborted_channel = close_sent
  /\ _send_buf_len aborted_channel = 6
  /\ _send_buf aborted_channel = [(replicate 6 Byte.x00, None)]
  /\ is_Some (exec (_process_window_adjust 6) aborted_channel)
  /\ data_payloads (events (_process_window_adjust 6) aborted_channel)
     = [replicate 6 Byte.x00].
Proof.
  split_all; try (vm_compute; reflexivity).
  vm_compute. eexists. reflexivity.
Qed.

(** A write of 250 bytes against a window of 1000 and a packet size of
    100 goes out as packets of 100, 100 and 50 bytes. *)
Lemma write_is_fragmented :
  len <$> data_payloads
            (events (write no_encoder (PBytes (replicate 250 Byte.x00)) None)
               wide_channel)
  = [100; 100; 50]
  /\ (_send_window <$>
        exec (write no_encoder (PBytes (replicate 250 Byte.x00)) None)
          wide_channel)
     = Some 750.
Proof. by_computation. Qed.

(** ** Requests and responses *)

Lemma make_request_eq c request args :
  requesting c ->
  exists out,
    _make_request request args c
    = Done (length (futures c))
        (set_request_waiters (_request_waiters c ++ [length (futures c)])
           (set_futures (futures c ++ [Pending]) c))
        out.
Proof.
  intros (Hco & [n Hch] & _).
  unfold _make_request, new_future, _send_request. run_forward.
  eexists. f_equal.
Qed.

Lemma process_response_eq c success w rest :
  requesting c -> _request_waiters c = w :: rest ->
  futures c !! w = Some Pending ->
  _process_response (response_type success) c
  = Done tt
      (set_futures (<[w := Result (VBool success)]> (futures c))
         (set_request_waiters rest c))
      [].
Proof.
  intros (_ & _ & Hst) Hq Hw.
  unfold _process_response, cancelled, set_result, settle. run_prims.
  rewrite Hq. destruct (_send_state c); try discriminate Hst;
    run_forward; by destruct success.
Qed.

(** An unmatched response is a protocol error. *)
Lemma process_response_unexpected c pkttype :
  takes_responses (_send_state c) = true -> _request_waiters c = [] ->
  _process_response pkttype c
  = Raise (DisconnectError DISC_PROTOCOL_ERROR "Unexpected channel response").
Proof.
  intros Hst Hq. unfold _process_response. run_prims. rewrite Hq.
  by destruct (_send_state c).
Qed.

(** A response to a cancelled request takes the waiter off the queue and
    leaves it cancelled. *)
Lemma process_response_cancelled c pkttype w rest :
  takes_responses (_send_state c) = true -> _request_waiters c = w :: rest ->
  futures c !! w = Some Cancelled ->
  _process_response pkttype c = Done tt (set_request_waiters rest c) [].
Proof.
  intros Hst Hq Hw.
  unfold _process_response, cancelled. run_prims.
  rewrite Hq. destruct (_send_state c); try discriminate Hst;
    run_forward; reflexivity.
Qed.

(** Requests are answered first in, first out. *)
Lemma requests_fifo steps : forall c,
  requesting c -> queue_pending c ->
  never_ahead (length (_request_waiters c)) steps ->
  exists ws c' out,
    requests_run steps c = Done ws c' out
    /\ length ws = requests_made steps
    /\ (forall i w, (_request_waiters c ++ ws) !! i = Some w ->
          futures c' !! w = Some (settled_by (responses steps) i))
    /\ (forall w, is_Some (futures c !! w) -> w ∉ _request_waiters c ->
          futures c' !! w = futures c !! w)
    /\ _request_waiters c'
       = drop (length (responses steps)) (_request_waiters c ++ ws)
    /\ (forall w, w ∈ ws -> futures c !! w = None)
    /\ NoDup (_request_waiters c ++ ws).
Proof.
  induction steps as [|[request args|success] steps IH];
    intros c Hreq [Hnd Hpend] Hahead.
  - exists [], c, []. rewrite app_nil_r. simpl. split_all; try done.
    { intros i w Hi. unfold settled_by. rewrite lookup_nil.
      apply Hpend. by eapply list_elem_of_lookup_2. }
    intros w Hw. by apply elem_of_nil in Hw.
  - destruct (make_request_eq c request args Hreq) as (out1 & Hrun1).
    set (w := length (futures c)) in *.
    set (c1 := set_request_waiters _ _) in *.
    assert (Hfresh : w ∉ _request_waiters c).
    { intros Hin. apply Hpend, lookup_lt_Some in Hin. unfold w in Hin. lia. }
    destruct (IH c1)
      as (ws & c' & out & Hrun & Hlen & Hset & Hframe & Hq & Hnew & Hnd').
    + exact Hreq.
    + split; subst c1; chan_simpl.
      * apply NoDup_app. split_all; [done| |apply NoDup_singleton].
        intros x Hx Hx'. apply list_elem_of_singleton in Hx'. by subst.
      * intros x Hx. apply elem_of_app in Hx as [Hx|Hx].
        -- rewrite lookup_app_l; [by apply Hpend|].
           by apply Hpend, lookup_lt_Some in Hx.
        -- apply list_elem_of_singleton in Hx. subst x.
           unfold w. by rewrite lookup_app_r, Nat.sub_diag.
    + subst c1. chan_simpl. rewrite length_app. simpl in *.
      by rewrite Nat.add_1_r.
    + exists (w :: ws), c', (out1 ++ out ++ []).
      subst c1. chan_simpl. rewrite <- app_assoc in Hset, Hq, Hnd'.
      simpl in *.
      split.
      { rewrite (bind_Done_eq _ _ _ _ _ _ Hrun1).
        rewrite (bind_Done_eq _ _ _ _ _ _ Hrun). reflexivity. }
      split; [by rewrite Hlen|]. split; [exact Hset|].
      split; [|split; [exact Hq|split; [|exact Hnd']]].
      * intros x [f Hx] Hnin. rewrite Hframe.
        -- rewrite lookup_app_l; [done|]. by apply lookup_lt_Some in Hx.
        -- rewrite lookup_app_l; [eauto|]. by apply lookup_lt_Some in Hx.
        -- intros Hin. apply elem_of_app in Hin as [Hin|Hin]; [done|].
           apply list_elem_of_singleton in Hin. subst x.
           apply lookup_lt_Some in Hx. unfold w in Hx. lia.
      * intros x Hx. apply elem_of_cons in Hx as [->|Hx].
        -- by apply lookup_ge_None.
        -- apply Hnew, lookup_ge_None in Hx. apply lookup_ge_None.
           rewrite length_app in Hx. simpl in Hx. lia.
  - destruct (_request_waiters c) as [|w rest] eqn:Hqc; [done|].
    simpl in Hahead.
    assert (Hw : futures c !! w = Some Pending) by (apply Hpend; left).
    pose proof (process_response_eq c success w rest Hreq Hqc Hw) as Hrun1.
    set (c1 := set_futures _ _) in *.
    apply NoDup_cons in Hnd as [Hnin Hnd].
    destruct (IH c1)
      as (ws & c' & out & Hrun & Hlen & Hset & Hframe & Hq & Hnew & Hnd').
    + exact Hreq.
    + split; subst c1; chan_simpl; [done|].
      intros x Hx. rewrite list_lookup_insert_ne; [|by intros ->].
      apply Hpend. by right.
    + subst c1. by chan_simpl.
    + exists ws, c', ([] ++ out). subst c1. chan_simpl. simpl in *.
      split.
      { rewrite (bind_Done_eq _ _ _ _ _ _ Hrun1), Hrun. reflexivity. }
      assert (Hnew' : forall x, x ∈ ws -> futures c !! x = None).
      { intros x Hx. apply Hnew, lookup_ge_None in Hx.
        apply lookup_ge_None. by rewrite length_insert in Hx. }
      split; [exact Hlen|]. split; [|split; [|split; [exact Hq|split]]].
      3: exact Hnew'.
      3: { apply NoDup_cons. split; [|exact Hnd'].
           intros Hin. apply elem_of_app in Hin as [Hin|Hin]; [done|].
           apply Hnew' in Hin. congruence. }
      * intros [|i] x Hi; simpl in Hi.
        -- injection Hi as <-. rewrite Hframe.
           ++ apply list_lookup_insert_eq. by apply lookup_lt_Some in Hw.
           ++ rewrite list_lookup_insert_eq; [eauto|].
              by apply lookup_lt_Some in Hw.
           ++ done.
        -- by apply Hset.
      * intros x [f Hx] Hx'. apply not_elem_of_cons in Hx' as [Hne Hx'].
        rewrite Hframe.
        -- by apply list_lookup_insert_ne.
        -- rewrite list_lookup_insert_ne; [eauto|done].
        -- done.
Qed.

(** C5. Requests made with [_make_request] are answered first in, first
    out.  On a channel with no request in flight, run any interleaving of
    requests and of [CHANNEL_SUCCESS]/[CHANNEL_FAILURE] responses in
    which no response comes before its request: the waiters handed out
    are distinct, the [i]-th of them holds the [i]-th response, [true]
    for [SUCCESS] and [false] for [FAILURE], the ones not yet answered
    are pending and are what is left of the queue.  With no request
    pending, a response is a protocol error. *)
Theorem requests_answered_in_order (c : chan) (steps : list request_step) :
  requesting c -> _request_waiters c = [] -> never_ahead 0 steps ->
  (exists ws c' out,
     requests_run steps c = Done ws c' out
     /\ length ws = requests_made steps /\ NoDup ws
     /\ (forall i w, ws !! i = Some w ->
           futures c' !! w = Some (settled_by (responses steps) i))
     /\ _request_waiters c' = drop (length (responses steps)) ws)
  /\ (forall pkttype,
        _process_response pkttype c
        = Raise (DisconnectError DISC_PROTOCOL_ERROR
                   "Unexpected channel response")).
Proof.
  intros Hreq Hq Hahead. split.
  - destruct (requests_fifo steps c Hreq)
      as (ws & c' & out & Hrun & Hlen & Hset & _ & Hq' & _ & Hnd).
    + split; rewrite Hq; [constructor|]. intros w Hw.
      by apply elem_of_nil in Hw.
    + by rewrite Hq.
    + rewrite Hq in *. simpl in *. eauto 10.
  - intros pkttype. apply process_response_unexpected; [|done].
    by destruct Hreq as (_ & _ & ?).
Qed.

(** ** Waiters and teardown *)

Lemma failed_only_trans fs1 fs2 fs3 :
  failed_only fs1 fs2 -> failed_only fs2 fs3 -> failed_only fs1 fs3.
Proof.
  intros H12 H23 w.
  destruct (H12 w) as [E12|[P12 [e12 E12]]],
           (H23 w) as [E23|[P23 [e23 E23]]].
  - left. congruence.
  - right. split; [congruence|eauto].
  - right. split; [done|]. exists e12. congruence.
  - congruence.
Qed.

Lemma failed_only_insert fs w e :
  fs !! w = Some Pending -> failed_only fs (<[w := Exception e]> fs).
Proof.
  intros Hw w'. destruct (decide (w' = w)) as [->|Hne].
  - right. split; [done|]. exists e. apply list_lookup_insert_eq.
    by apply lookup_lt_Some in Hw.
  - left. by apply list_lookup_insert_ne.
Qed.

Lemma settle_Done w f c c' out :
  settle w f c = Done tt c' out ->
  futures c !! w = Some Pending
  /\ c' = set_futures (<[w := f]> (futures c)) c /\ out = [].
Proof.
  unfold settle. intros H. inv_run. done.
Qed.

(** Failing a list of waiters touches nothing but the futures, and of
    those only pending ones. *)
Lemma fail_waiters_Done exc ws : forall c c' out,
  fail_waiters exc ws c = Done tt c' out ->
  c' = set_futures (futures c') c /\ out = []
  /\ failed_only (futures c) (futures c').
Proof.
  induction ws as [|w0 ws IH]; intros c c' out H; simpl in H.
  - unfold ret in H. injection H as <- <-.
    split; [by destruct c|]. split; [done|]. by left.
  - apply bind_Done in H as ([] & c1 & o1 & o2 & H1 & H2 & ->).
    apply settle_Done in H1 as (Hw0 & -> & ->).
    apply IH in H2 as (Hc' & -> & Hmono).
    split; [rewrite Hc'; by destruct c|]. split; [done|].
    eapply failed_only_trans; [|exact Hmono].
    by apply failed_only_insert.
Qed.

(** Resolving a list of close waiters: in a run that completes, every
    waiter of the list was pending and now holds [None], or was
    cancelled and still is; no other future changes. *)
Lemma resolve_waiters_Done ws : forall c c' out,
  resolve_waiters ws c = Done tt c' out ->
  c' = set_futures (futures c') c /\ out = []
  /\ (forall w, w ∈ ws ->
        (futures c !! w = Some Pending
         /\ futures c' !! w = Some (Result VNone))
        \/ (futures c !! w = Some Cancelled
            /\ futures c' !! w = Some Cancelled))
  /\ (forall w, w ∉ ws -> futures c' !! w = futures c !! w).
Proof.
  induction ws as [|w0 ws IH]; intros c c' out H; simpl in H.
  - unfold ret in H. injection H as <- <-.
    split; [by destruct c|]. split; [done|]. split; [|done].
    intros w Hw. by apply elem_of_nil in Hw.
  - apply bind_Done in H as ([] & c1 & o1 & o2 & H1 & H2 & ->).
    apply IH in H2 as (Hc' & -> & Hin & Hout).
    assert (Hstep :
      (futures c !! w0 = Some Pending
       /\ c1 = set_futures (<[w0 := Result VNone]> (futures c)) c
       /\ o1 = [])
      \/ (futures c !! w0 = Some Cancelled /\ c1 = c /\ o1 = [])).
    { apply bind_Done in H1 as (gone & c0 & o0 & o0' & H0 & H1 & ->).
      unfold cancelled, bind, get in H0.
      destruct (futures c !! w0) as [f|] eqn:Hf; [|discriminate].
      destruct f; unfold ret in H0; injection H0 as <- <- <-;
        cbn [negb when] in H1.
      2: { unfold ret in H1. injection H1 as <- <-. auto. }
      all: apply settle_Done in H1 as (Hp & -> & ->).
      all: rewrite Hf in Hp; try discriminate. auto. }
    destruct Hstep as [(Hw0 & -> & ->)|(Hw0 & -> & ->)]; chan_simpl.
    + split; [rewrite Hc'; by destruct c|]. split; [done|].
      assert (Hnin : w0 ∉ ws).
      { intros Hw. apply Hin in Hw as [[Hw _]|[Hw _]];
          rewrite list_lookup_insert_eq in Hw;
          try discriminate; by apply lookup_lt_Some in Hw0. }
      split.
      * intros w Hw. apply elem_of_cons in Hw as [->|Hw].
        -- left. split; [done|]. rewrite Hout by done.
           apply list_lookup_insert_eq. by apply lookup_lt_Some in Hw0.
        -- assert (w <> w0) by (by intros ->).
           specialize (Hin w Hw).
           by rewrite list_lookup_insert_ne in Hin.
      * intros w Hw. apply not_elem_of_cons in Hw as [Hne Hw].
        rewrite Hout by done. by apply list_lookup_insert_ne.
    + split; [done|]. split; [done|]. split.
      * intros w Hw. apply elem_of_cons in Hw as [->|Hw]; [|by apply Hin].
        right. split; [done|].
        destruct (decide (w0 ∈ ws)) as [Hw|Hw].
        -- apply Hin in Hw as [[Hw _]|[_ Hw]]; congruence.
        -- by rewrite Hout.
      * intros w Hw. apply not_elem_of_cons in Hw as [_ Hw]. by apply Hout.
Qed.

Lemma cleanup_open_waiter_Done c c' out :
  cleanup_open_waiter c = Done tt c' out ->
  c' = set_open_waiter None (set_futures (futures c') c) /\ out = []
  /\ failed_only (futures c) (futures c').
Proof.
  unfold cleanup_open_waiter, set_exception. intros H.
  apply bind_Done in H as (c0 & c0' & o0 & o1 & H0 & H1 & ->).
  unfold get in H0. injection H0 as <- <- <-.
  destruct (_open_waiter c) as [w0|] eqn:Hw0.
  - apply bind_Done in H1 as ([] & c1 & o2 & o3 & H1 & H2 & ->).
    apply settle_Done in H1 as (Hp & -> & ->).
    unfold modify in H2. injection H2 as <- <-. chan_simpl.
    split; [by destruct c|]. split; [done|].
    by apply failed_only_insert.
  - unfold ret in H1. injection H1 as <- <-.
    split; [destruct c; simpl in *; by subst|]. split; [done|]. by left.
Qed.

Lemma cleanup_request_waiters_Done exc c c' out :
  cleanup_request_waiters exc c = Done tt c' out ->
  c' = set_request_waiters [] (set_futures (futures c') c) /\ out = []
  /\ failed_only (futures c) (futures c').
Proof.
  unfold cleanup_request_waiters. intros H.
  apply bind_Done in H as (c0 & c0' & o0 & o1 & H0 & H1 & ->).
  unfold get in H0. injection H0 as <- <- <-.
  destruct (_request_waiters c) as [|w0 ws] eqn:Hq.
  - unfold ret in H1. injection H1 as <- <-.
    split; [destruct c; simpl in *; by subst|]. split; [done|]. by left.
  - apply bind_Done in H1 as ([] & c1 & o2 & o3 & H1 & H2 & ->).
    apply fail_waiters_Done in H1 as (Hc1 & -> & Hmono).
    unfold modify in H2. injection H2 as <- <-. chan_simpl.
    split; [rewrite Hc1; by destruct c|done].
Qed.

Lemma cleanup_close_waiters_Done c c' out :
  cleanup_close_waiters c = Done tt c' out ->
  c' = set_close_waiters [] (set_futures (futures c') c) /\ out = []
  /\ (forall w, w ∈ _close_waiters c ->
        (futures c !! w = Some Pending
         /\ futures c' !! w = Some (Result VNone))
        \/ (futures c !! w = Some Cancelled
            /\ futures c' !! w = Some Cancelled)).
Proof.
  unfold cleanup_close_waiters. intros H.
  apply bind_Done in H as (c0 & c0' & o0 & o1 & H0 & H1 & ->).
  unfold get in H0. injection H0 as <- <- <-.
  destruct (_close_waiters c) as [|w0 ws] eqn:Hq.
  - unfold ret in H1. injection H1 as <- <-.
    split; [destruct c; simpl in *; by subst|]. split; [done|].
    intros w Hw. by apply elem_of_nil in Hw.
  - apply bind_Done in H1 as ([] & c1 & o2 & o3 & H1 & H2 & ->).
    apply resolve_waiters_Done in H1 as (Hc1 & -> & Hin & _).
    unfold modify in H2. injection H2 as <- <-. chan_simpl.
    split; [rewrite Hc1; by destruct c|done].
Qed.

Lemma cleanup_session_Done exc c c' out :
  cleanup_session exc c = Done tt c' out -> c' = set_session None c.
Proof.
  unfold cleanup_session. intros H. inv_run; [done|].
  destruct c'; simpl in *; by subst.
Qed.

Lemma cleanup_conn_Done c c' out :
  cleanup_conn c = Done tt c' out ->
  c' = set_conn false (set_recv_chan (_recv_chan c') c).
Proof.
  unfold cleanup_conn. intros H. inv_run; chan_simpl; try chan_eta.
  all: destruct c'; simpl in *; by subst.
Qed.

(** What a completed [_cleanup] leaves behind: a closed channel without
    session or waiters, whose pending close waiters hold [None] and
    whose cancelled close waiters are still cancelled. *)
Lemma cleanup_Done exc c c' out :
  _cleanup exc c = Done tt c' out ->
  _session c' = None /\ _send_state c' = closed /\ _recv_state c' = closed
  /\ _open_waiter c' = None /\ _request_waiters c' = []
  /\ _close_waiters c' = []
  /\ forall w, w ∈ _close_waiters c ->
       (futures c !! w = Some Pending -> futures c' !! w = Some (Result VNone))
       /\ (futures c !! w = Some Cancelled ->
           futures c' !! w = Some Cancelled).
Proof.
  unfold _cleanup. intros H.
  apply bind_Done in H as ([] & c1 & o1 & ? & H1 & H & ->).
  apply bind_Done in H as ([] & c2 & o2 & ? & H2 & H & ->).
  apply bind_Done in H as ([] & c3 & o3 & ? & H3 & H & ->).
  apply bind_Done in H as ([] & c4 & o4 & ? & H4 & H & ->).
  apply bind_Done in H as ([] & c5 & o5 & ? & H5 & H & ->).
  apply bind_Done in H as ([] & c6 & o6 & ? & H6 & H7 & ->).
  unfold modify in H6, H7. injection H6 as <- <-. injection H7 as <- <-.
  apply cleanup_open_waiter_Done in H1 as (Hc1 & _ & Hm1).
  apply cleanup_request_waiters_Done in H2 as (Hc2 & _ & Hm2).
  apply cleanup_close_waiters_Done in H3 as (Hc3 & _ & Hres).
  apply cleanup_session_Done in H4.
  apply cleanup_conn_Done in H5.
  assert (Hcw : _close_waiters c2 = _close_waiters c)
    by (rewrite Hc2, Hc1; reflexivity).
  assert (Hf5 : futures c5 = futures c3) by (rewrite H5, H4; reflexivity).
  chan_simpl. rewrite Hf5.
  split; [rewrite H5, H4; reflexivity|]. split; [done|]. split; [done|].
  split; [rewrite H5, H4, Hc3, Hc2, Hc1; reflexivity|].
  split; [rewrite H5, H4, Hc3, Hc2; reflexivity|].
  split; [rewrite H5, H4, Hc3; reflexivity|].
  intros w Hw. rewrite <- Hcw in Hw.
  pose proof (failed_only_trans _ _ _ Hm1 Hm2 w) as Hfail.
  destruct (Hres w Hw) as [[Hp Hr]|[Hp Hr]],
           Hfail as [Hsame|[_ [e He]]]; try congruence.
  all: rewrite Hsame in Hp; split; intros Hw0; congruence.
Qed.

Lemma wait_closed_eq c :
  wait_closed c
  = match _session c with
    | Some _ =>
      Done (Some (length (futures c)))
        (set_close_waiters (_close_waiters c ++ [length (futures c)])
           (set_futures (futures c ++ [Pending]) c))
        []
    | None => Done None c []
    end.
Proof.
  unfold wait_closed, new_future. run_prims. by destruct (_session c).
Qed.

(** [_cleanup] raises when the waiter at the head of the request queue
    was cancelled: [set_exception] refuses a future that is not
    pending. *)
Lemma cleanup_cancelled_request exc c w rest :
  _open_waiter c = None -> _request_waiters c = w :: rest ->
  futures c !! w = Some Cancelled ->
  _cleanup exc c = Raise InvalidStateError.
Proof.
  intros Ho Hq Hw. unfold _cleanup.
  assert (H1 : cleanup_open_waiter c = Done tt c []).
  { unfold cleanup_open_waiter. run_prims. by rewrite Ho. }
  rewrite (bind_Done_eq _ _ _ _ _ _ H1).
  assert (H2 : cleanup_request_waiters exc c = Raise InvalidStateError).
  { unfold cleanup_request_waiters. run_prims. rewrite Hq.
    cbn [fail_waiters]. unfold set_exception, settle. run_prims.
    by rewrite Hw. }
  by rewrite (bind_Raise _ _ _ _ H2).
Qed.

(** [_cleanup] raises when the open waiter was cancelled. *)
Lemma cleanup_cancelled_open exc c w :
  _open_waiter c = Some w -> futures c !! w = Some Cancelled ->
  _cleanup exc c = Raise InvalidStateError.
Proof.
  intros Ho Hw. unfold _cleanup.
  assert (H1 : cleanup_open_waiter c = Raise InvalidStateError).
  { unfold cleanup_open_waiter, set_exception, settle. run_prims.
    rewrite Ho. run_prims. by rewrite Hw. }
  by rewrite (bind_Raise _ _ _ _ H1).
Qed.

(** What [wait_closed()] does.  It returns at once exactly when no
    session is installed on the channel.  With a session it puts a
    new pending waiter at the end of [_close_waiters] and suspends the
    caller on it, and a [_cleanup] that runs after that leaves the waiter
    resolved.  [_cleanup] resolves every pending close waiter, closes
    both halves and removes the session, so that after it
    [wait_closed()] returns at once. *)
Theorem wait_closed_spec (c c' : chan) (exc : option exn) (out : list event) :
  _cleanup exc c = Done tt c' out ->
  (wait_closed c = Done None c [] <-> _session c = None)
  /\ (is_Some (_session c) ->
      exists c1,
        wait_closed c = Done (Some (length (futures c))) c1 []
        /\ _close_waiters c1 = _close_waiters c ++ [length (futures c)]
        /\ futures c1 !! length (futures c) = Some Pending
        /\ forall exc2 c2 out2,
             _cleanup exc2 c1 = Done tt c2 out2 ->
             futures c2 !! length (futures c) = Some (Result VNone))
  /\ (forall w, w ∈ _close_waiters c -> futures c !! w = Some Pending ->
        futures c' !! w = Some (Result VNone))
  /\ _send_state c' = closed /\ _recv_state c' = closed
  /\ wait_closed c' = Done None c' [].
Proof.
  intros Hrun. split_all.
  - rewrite wait_closed_eq.
    destruct (_session c); split; intros H; (discriminate H || reflexivity).
  - intros [s Hs]. rewrite wait_closed_eq, Hs. eexists. split; [done|].
    chan_simpl. split; [done|].
    assert (Hpend : (futures c ++ [Pending]) !! length (futures c)
                    = Some Pending)
      by (by rewrite lookup_app_r, Nat.sub_diag).
    split; [done|]. intros exc2 c2 out2 Hrun2.
    apply cleanup_Done in Hrun2 as (_ & _ & _ & _ & _ & _ & Hres).
    destruct (Hres (length (futures c))) as [Hr _]; chan_simpl.
    + apply elem_of_app. right. by apply list_elem_of_singleton.
    + by apply Hr.
  - intros w Hw Hp.
    apply cleanup_Done in Hrun as (_ & _ & _ & _ & _ & _ & Hres).
    destruct (Hres w Hw) as [Hr _]. by apply Hr.
  - by apply cleanup_Done in Hrun as (_ & ? & _).
  - by apply cleanup_Done in Hrun as (_ & _ & ? & _).
  - apply cleanup_Done in Hrun as (Hs & _).
    by rewrite wait_closed_eq, Hs.
Qed.

(** *** Waiters on concrete channels *)

Lemma requests_answered_in_order_witness :
  (exists ws c' out,
     requests_run
       [MakeRequest request_pty []; MakeRequest request_pty [];
        Response true; MakeRequest request_pty []; Response false]
       binary_channel
     = Done ws c' out
     /\ length ws = 3%nat /\ NoDup ws
     /\ (forall i w, ws !! i = Some w ->
           futures c' !! w = Some (settled_by [true; false] i))
     /\ _request_waiters c' = drop 2 ws)
  /\ (forall pkttype,
        _process_response pkttype binary_channel
        = Raise (DisconnectError DISC_PROTOCOL_ERROR
                   "Unexpected channel response")).
Proof.
  apply (requests_answered_in_order binary_channel
           [MakeRequest request_pty []; MakeRequest request_pty [];
            Response true; MakeRequest request_pty []; Response false]).
  - unfold requesting. split_all; try (vm_compute; reflexivity).
    vm_compute. eexists. reflexivity.
  - vm_compute. reflexivity.
  - vm_compute. exact I.
Defined.

(** The same run, evaluated: the first request succeeded, the second
    failed, the third is pending and alone on the queue. *)
Lemma requests_answered_in_order_example :
  requests_run
    [MakeRequest request_pty []; MakeRequest request_pty [];
     Response true; MakeRequest request_pty []; Response false]
    binary_channel
  = Done [1; 2; 3]%nat
      (set_request_waiters [3%nat]
         (set_futures
            [Result (VPacket []); Result (VBool true); Result (VBool false);
             Pending] binary_channel))
      (events
         (requests_run
            [MakeRequest request_pty []; MakeRequest request_pty [];
             Response true; MakeRequest request_pty []; Response false])
         binary_channel).
Proof. vm_compute. reflexivity. Qed.

(** C6 fails on the code: [wait_closed()] tests whether a session is
    installed, not whether the channel has closed.  Between the open
    confirmation and the installation of the session the channel is open
    in both directions and cleanup has not run, yet [wait_closed()]
    returns at once and queues no waiter; it does so on every channel
    that has no session. *)
Theorem wait_closed_returns_before_teardown :
  (_send_state confirmed_channel = open
   /\ _recv_state confirmed_channel = open
   /\ _session confirmed_channel = None
   /\ _close_waiters confirmed_channel = []
   /\ wait_closed confirmed_channel = Done None confirmed_channel [])
  /\ (forall c, _session c = None -> wait_closed c = Done None c []).
Proof.
  split; [by_computation|].
  intros c Hs. by rewrite wait_closed_eq, Hs.
Qed.

Lemma wait_closed_spec_witness :
  (wait_closed waiting_channel = Done None waiting_channel []
   <-> _session waiting_channel = None)
  /\ (is_Some (_session waiting_channel) ->
      exists c1,
        wait_closed waiting_channel
        = Done (Some (length (futures waiting_channel))) c1 []
        /\ _close_waiters c1
           = _close_waiters waiting_channel
             ++ [length (futures waiting_channel)]
        /\ futures c1 !! length (futures waiting_channel) = Some Pending
        /\ forall exc2 c2 out2,
             _cleanup exc2 c1 = Done tt c2 out2 ->
             futures c2 !! length (futures waiting_channel)
             = Some (Result VNone))
  /\ (forall w, w ∈ _close_waiters waiting_channel ->
        futures waiting_channel !! w = Some Pending ->
        futures torn_down_channel !! w = Some (Result VNone))
  /\ _send_state torn_down_channel = closed
  /\ _recv_state torn_down_channel = closed
  /\ wait_closed torn_down_channel = Done None torn_down_channel [].
Proof.
  apply (wait_closed_spec waiting_channel torn_down_channel None
           (events (_cleanup None) waiting_channel)).
  vm_compute. reflexivity.
Defined.

(** Teardown with a cancelled close waiter: the cancelled waiter is
    skipped and stays cancelled, the pending one is resolved, both leave
    the queue. *)
Lemma cleanup_skips_cancelled_close_waiter :
  _close_waiters waiting_channel = [1; 2]%nat
  /\ futures waiting_channel !! 1%nat = Some Cancelled
  /\ futures waiting_channel !! 2%nat = Some Pending
  /\ exec (_cleanup None) waiting_channel = Some torn_down_channel
  /\ futures torn_down_channel !! 1%nat = Some Cancelled
  /\ futures torn_down_channel !! 2%nat = Some (Result VNone)
  /\ _close_waiters torn_down_channel = [].
Proof. by_computation. Qed.

(** C7 fails on the code: [_cleanup] does not look whether the open
    waiter and the request waiters were cancelled, as it does for the
    close waiters.  With a cancelled request waiter, or a cancelled open
    waiter, [set_exception] raises [InvalidStateError] out of
    [_cleanup]. *)
Theorem cleanup_raises_on_cancelled_waiter :
  (_request_waiters cancelled_request_channel = [1%nat]
   /\ futures cancelled_request_channel !! 1%nat = Some Cancelled
   /\ _cleanup None cancelled_request_channel = Raise InvalidStateError)
  /\ (_open_waiter cancelled_open_channel = Some 0%nat
      /\ futures cancelled_open_channel !! 0%nat = Some Cancelled
      /\ _cleanup None cancelled_open_channel = Raise InvalidStateError).
Proof. by_computation. Qed.

(** ** Text channels *)

Section Decoding.

Variable bytes_decode : string -> bytes -> decode_result.

(** Input that decodes as a whole is handed to the session and nothing
    is left over. *)
Lemma decode_loop_whole fuel encoding datatype input s sess c :
  (0 < fuel)%nat -> input <> [] -> _session c = Some sess ->
  bytes_decode encoding input = Decoded s ->
  decode_loop bytes_decode fuel encoding datatype input c
  = Done [] c [SessDataReceived (PStr s) datatype].
Proof.
  intros Hf Hin Hs Hd. destruct fuel as [|fuel]; [lia|].
  destruct input as [|b input]; [done|].
  cbn [decode_loop]. rewrite Hd. run_forward. reflexivity.
Qed.

(** Input that is nothing but the beginning of a codepoint is left over
    whole, and the session hears nothing. *)
Lemma decode_loop_tail_only fuel encoding datatype input c :
  (0 < fuel)%nat -> input <> [] ->
  bytes_decode encoding input
  = UnicodeDecodeError 0 "unexpected end of data" ->
  decode_loop bytes_decode fuel encoding datatype input c = Done input c [].
Proof.
  intros Hf Hin Hd. destruct fuel as [|fuel]; [lia|].
  destruct input as [|b input]; [done|].
  cbn [decode_loop]. rewrite Hd. reflexivity.
Qed.

(** Input that ends in the beginning of a codepoint: the prefix before
    it is handed to the session, the rest is left over. *)
Lemma decode_loop_partial fuel encoding datatype input start s sess c :
  (1 < fuel)%nat -> (0 < start < length input)%nat ->
  _session c = Some sess ->
  bytes_decode encoding input
  = UnicodeDecodeError start "unexpected end of data" ->
  bytes_decode "utf-8" (take start input) = Decoded s ->
  bytes_decode encoding (drop start input)
  = UnicodeDecodeError 0 "unexpected end of data" ->
  decode_loop bytes_decode fuel encoding datatype input c
  = Done (drop start input) c [SessDataReceived (PStr s) datatype].
Proof.
  intros Hf [Hs0 Hs1] Hs Hd Hpre Hrest.
  destruct fuel as [|fuel]; [lia|].
  destruct input as [|b input]; [simpl in Hs1; lia|].
  cbn [decode_loop]. rewrite Hd.
  assert ((0 <? start)%nat = true) as -> by (by apply Nat.ltb_lt).
  rewrite Hpre.
  assert (Hcall : call_session (SessDataReceived (PStr s) datatype) c
                  = Done tt c [SessDataReceived (PStr s) datatype]).
  { unfold call_session. run_forward. reflexivity. }
  rewrite (bind_Done_eq _ _ _ _ _ _ Hcall).
  rewrite decode_loop_tail_only; [reflexivity| | |done].
  { lia. }
  intros Hnil. apply (f_equal length) in Hnil.
  rewrite length_drop in Hnil. cbn [length] in *. lia.
Qed.

End Decoding.

(** *** The decoder on concrete channels *)

Lemma text_channel_reached :
  exec (handshake 4 100)
    (SSHChannel_init (Some "utf-8") 100 32768 1 {[EXTENDED_DATA_STDERR]} ∅)
  = Some text_channel
  /\ _recv_state text_channel = open
  /\ _recv_paused text_channel = false
  /\ _session text_channel = Some (Session true).
Proof. by_computation. Qed.

Lemma utf8_decode_examples :
  Utf8.decode snowman_head = UnicodeDecodeError 0 "unexpected end of data"
  /\ Utf8.decode (snowman_head ++ snowman_tail_x)
     = Decoded [0x2603%N; 0x78%N]
  /\ Utf8.decode ([Byte.x68; Byte.x69] ++ snowman_head)
     = UnicodeDecodeError 2 "unexpected end of data"
  /\ Utf8.decode [Byte.x68; Byte.xff]
     = UnicodeDecodeError 1 "invalid start byte"
  /\ Utf8.decode [Byte.xe2; Byte.x28; Byte.xa1]
     = UnicodeDecodeError 0 "invalid continuation byte".
Proof. by_computation. Qed.

(** A codepoint split across two [CHANNEL_DATA] packets: the first
    packet is kept in [_recv_partial] and the session hears nothing; the
    second is decoded behind it and the session receives the snowman and
    the x in one call. *)
Lemma split_codepoint_delivered :
  _process_data utf8_codec snowman_head text_channel
  = Done tt
      (set_recv_partial {[None := snowman_head]}
         (set_recv_window 98 text_channel))
      []
  /\ _process_data utf8_codec snowman_tail_x
       (set_recv_partial {[None := snowman_head]}
          (set_recv_window 98 text_channel))
     = Done tt (set_recv_window 96 text_channel)
         [SessDataReceived (PStr [0x2603%N; 0x78%N]) None].
Proof. by_computation. Qed.

(** EOF behind half a codepoint of ordinary data is a protocol error. *)
Lemma eof_after_partial_data :
  (_process_data utf8_codec snowman_head >> _process_eof utf8_codec)
    text_channel
  = Raise (DisconnectError DISC_PROTOCOL_ERROR "Unicode decode error").
Proof. by_computation. Qed.

(** C9 fails on the code: at EOF [_deliver_data] looks for a tail under
    the data type of the EOF item, which is always [None].  Half a
    codepoint of extended data (standard error) stays in [_recv_partial]
    under its own data type, and the EOF that follows is delivered to
    the session without a protocol error. *)
Theorem eof_ignores_partial_extended_data :
  (_process_extended_data utf8_codec EXTENDED_DATA_STDERR snowman_head >>
   _process_eof utf8_codec) text_channel
  = Done tt
      (set_recv_state eof_received
         (set_recv_partial {[Some EXTENDED_DATA_STDERR := snowman_head]}
            (set_recv_window 98 text_channel)))
      [SessEofReceived].
Proof. by_computation. Qed.

(** * Further properties of the channel

    Properties of the parts of [channel.py] and [dsa.py] around the ones
    above. *)

(** ** The send side as a byte stream *)

(** Turn the boolean tests met along a run into arithmetic facts. *)
Ltac reflect_tests :=
  repeat match goal with
  | H : (_ <=? _) = true |- _ => apply Z.leb_le in H
  | H : (_ <=? _) = false |- _ => apply Z.leb_gt in H
  | H : (_ <? _) = true |- _ => apply Z.ltb_lt in H
  | H : (_ <? _) = false |- _ => apply Z.ltb_ge in H
  | H : (_ =? _) = true |- _ => apply Z.eqb_eq in H
  | H : (_ =? _) = false |- _ => apply Z.eqb_neq in H
  end.

Lemma sent_chunks_app out1 out2 :
  sent_chunks (out1 ++ out2) = sent_chunks out1 ++ sent_chunks out2.
Proof. apply omap_app. Qed.

Lemma writing_events_app out1 out2 :
  writing_events (out1 ++ out2) = writing_events out1 ++ writing_events out2.
Proof. apply filter_app. Qed.

Lemma tagged_app l k : tagged (l ++ k) = tagged l ++ tagged k.
Proof. unfold tagged. apply bind_app. Qed.

Lemma tagged_cons b dt l :
  tagged ((b, dt) :: l) = ((fun x => (x, dt)) <$> b) ++ tagged l.
Proof. reflexivity. Qed.

Lemma tagged_split n (buf : bytes) dt rest :
  tagged [(slice_to n buf, dt)] ++ tagged ((slice_from n buf, dt) :: rest)
  = tagged ((buf, dt) :: rest).
Proof.
  rewrite !tagged_cons. cbn [tagged mbind list_bind]. rewrite app_nil_r, app_assoc.
  rewrite <- fmap_app. unfold slice_to, slice_from. by rewrite take_drop.
Qed.

(** One run of the loop body of [_flush_send_buf] moves a prefix of the
    buffered stream into a packet. *)
Lemma flush_body_sent c c' out :
  _send_buf c <> [] ->
  flush_body c = Done tt c' out ->
  tagged (sent_chunks out) ++ tagged (_send_buf c') = tagged (_send_buf c)
  /\ writing_events out = []
  /\ _send_buf_len c' = _send_buf_len c - len (tagged (sent_chunks out))
  /\ send_frame c c'.
Proof.
  intros Hne H. unfold flush_body in H.
  destruct (_send_buf c) as [|[buf dt] rest] eqn:Hbuf; [done|].
  destruct dt as [dt|];
    (destruct (Z.min (_send_window c) (_send_pktsize c) <? len buf) eqn:Hcut;
     inv_run; chan_simpl; simplify_eq; rewrite ?Hcut;
     unfold sent_chunks; cbn [app omap list_omap sent_chunk_of];
     (split_all;
      [ first [ apply tagged_split
              | by rewrite <- tagged_app ]
      | reflexivity
      | rewrite tagged_cons; cbn [tagged mbind list_bind];
        unfold len; rewrite app_nil_r, length_fmap; reflexivity
      | unfold send_frame; chan_simpl; chan_eta ])).
Qed.

(** The loop of [_flush_send_buf], without any assumption on the window
    or the packet size. *)
Lemma flush_loop_sent fuel : forall c c' out,
  flush_loop fuel c = Done tt c' out ->
  tagged (sent_chunks out) ++ tagged (_send_buf c') = tagged (_send_buf c)
  /\ writing_events out = []
  /\ _send_buf_len c' = _send_buf_len c - len (tagged (sent_chunks out))
  /\ send_frame c c'.
Proof.
  induction fuel as [|fuel IH]; intros c c' out; simpl;
    destruct (can_send c) eqn:Hcan; try discriminate.
  1,3: intros [= <- <-]; cbn; rewrite Z.sub_0_r;
       auto using send_frame_refl.
  intros H. apply bind_Done in H as ([] & c1 & o1 & o2 & H1 & H2 & ->).
  assert (Hne : _send_buf c <> []).
  { unfold can_send in Hcan. by destruct (_send_buf c). }
  apply flush_body_sent in H1 as (Hs1 & Hw1 & Hl1 & Hf1); [|done].
  apply IH in H2 as (Hs2 & Hw2 & Hl2 & Hf2).
  rewrite sent_chunks_app, writing_events_app, tagged_app, Hw1, Hw2.
  split_all.
  - by rewrite <- app_assoc, Hs2, Hs1.
  - reflexivity.
  - rewrite Hl2, Hl1, len_app. lia.
  - eauto using send_frame_trans.
Qed.

Lemma pause_resume_writing_spec c c' out :
  _pause_resume_writing c = Done tt c' out ->
  c' = set_send_paused (_send_paused c') c
  /\ sent_chunks out = []
  /\ (_send_low_water c <= _send_high_water c ->
      if _send_paused c'
      then _send_low_water c < _send_buf_len c
      else _send_buf_len c <= _send_high_water c)
  /\ out = (if _send_paused c
            then if _send_paused c' then [] else [SessResumeWriting]
            else if _send_paused c' then [SessPauseWriting] else []).
Proof.
  unfold _pause_resume_writing. intros H. inv_run; chan_simpl; split_all;
    try (match goal with
         | |- @eq chan ?c _ => first [reflexivity | by destruct c]
         end);
    rewrite ?Heqb; try reflexivity; intros; reflect_tests; lia.
Qed.

Lemma flush_finish_quiet c c' out :
  flush_finish c = Done tt c' out ->
  c' = set_send_state (_send_state c') c
  /\ sent_chunks out = [] /\ writing_events out = [].
Proof.
  unfold flush_finish. intros H.
  apply bind_Done in H as (c0 & c0' & o0 & o1 & H0 & H1 & ->).
  unfold get in H0. injection H0 as <- <- <-.
  destruct (_send_buf c) as [|x l]; [|inv_run; split; [chan_eta|done]].
  destruct (_send_state c) eqn:Hst; inv_run; chan_simpl;
    (split; [chan_eta|]); done.
Qed.

Lemma alternates_refl p : alternates p [] p.
Proof. reflexivity. Qed.

Lemma alternates_app p evs1 : forall p1 evs2 p2,
  alternates p evs1 p1 -> alternates p1 evs2 p2 ->
  alternates p (evs1 ++ evs2) p2.
Proof.
  revert p. induction evs1 as [|e evs1 IH]; intros p p1 evs2 p2; simpl.
  - by intros ->.
  - destruct e; try done; intros [-> H1] H2; split; eauto.
Qed.

(** What a completed [_flush_send_buf] did to the buffered stream and
    to the pause flag, whatever the window and the packet size. *)
Lemma flush_send_buf_sent c c' out :
  _flush_send_buf c = Done tt c' out ->
  flush_frame c c'
  /\ tagged (sent_chunks out) ++ tagged (_send_buf c') = tagged (_send_buf c)
  /\ _send_buf_len c' = _send_buf_len c - len (tagged (sent_chunks out))
  /\ (_send_low_water c <= _send_high_water c -> backpressure_consistent c')
  /\ alternates (_send_paused c) (writing_events out) (_send_paused c').
Proof.
  intros H. unfold _flush_send_buf in H.
  apply bind_Done in H as ([] & c1 & o1 & o2 & H1 & H2 & ->).
  apply bind_Done in H1 as (c0 & c0' & o0 & o1' & H0 & H1 & ->).
  unfold get in H0. injection H0 as <- <- <-.
  apply bind_Done in H2 as ([] & c2 & o2' & o3 & H2 & H3 & ->).
  apply flush_loop_sent in H1 as (Hs1 & Hw1 & Hl1 & Hfr).
  apply pause_resume_writing_spec in H2 as (Hc2 & Hs2 & Hbp & Ho2).
  apply flush_finish_quiet in H3 as (Hc' & Hs3 & Hw3).
  assert (Hbuf : _send_buf c' = _send_buf c1)
    by (rewrite Hc', Hc2; reflexivity).
  assert (Hlen : _send_buf_len c' = _send_buf_len c1)
    by (rewrite Hc', Hc2; reflexivity).
  assert (Hwin : _send_window c' = _send_window c1)
    by (rewrite Hc', Hc2; reflexivity).
  assert (Hpau : _send_paused c' = _send_paused c2)
    by (rewrite Hc'; reflexivity).
  assert (Hpau1 : _send_paused c1 = _send_paused c)
    by (rewrite Hfr; reflexivity).
  assert (Hlow : _send_low_water c1 = _send_low_water c)
    by (rewrite Hfr; reflexivity).
  assert (Hhigh : _send_high_water c1 = _send_high_water c)
    by (rewrite Hfr; reflexivity).
  assert (Hlow' : _send_low_water c' = _send_low_water c)
    by (rewrite Hc', Hc2, Hfr; reflexivity).
  assert (Hhigh' : _send_high_water c' = _send_high_water c)
    by (rewrite Hc', Hc2, Hfr; reflexivity).
  cbn [app]. rewrite !sent_chunks_app, !writing_events_app, Hs2, Hs3, Hw1, Hw3.
  rewrite !app_nil_r. cbn [app]. rewrite Hbuf, Hlen. split_all; try done.
  - unfold flush_frame, send_frame in *.
    rewrite Hbuf, Hwin, Hlen.
    remember (_send_state c') as s'. rewrite Hc'.
    remember (_send_paused c2) as p2.
    assert (_send_paused (set_send_state s' c2) = p2) as ->
      by (subst p2; reflexivity).
    rewrite Hc2. rewrite Hfr at 1. by destruct c.
  - intros Hlh. unfold backpressure_consistent.
    rewrite Hpau, Hlen, Hlow', Hhigh'. rewrite Hlow, Hhigh in Hbp.
    exact (Hbp Hlh).
  - rewrite Hpau, Ho2, Hpau1.
    destruct (_send_paused c), (_send_paused c2); simpl; auto.
Qed.

Lemma len_cons_eqb {A : Type} (x : A) l : (len (x :: l) =? 0) = false.
Proof. apply Z.eqb_neq. unfold len. cbn [length]. lia. Qed.

Section SendStream.

Variable str_encode : string -> pystr -> encode_result.

Lemma write_Done data datatype c c' out :
  write str_encode data datatype c = Done tt c' out ->
  (written_chunk str_encode c (SessionWrite data datatype) = []
   /\ c' = c /\ out = [])
  \/ exists raw,
       written_chunk str_encode c (SessionWrite data datatype)
       = [(raw, datatype)]
       /\ _flush_send_buf
            (set_send_buf_len (_send_buf_len c + len raw)
               (set_send_buf (_send_buf c ++ [(raw, datatype)]) c))
          = Done tt c' out.
Proof.
  unfold write. intros H.
  apply bind_Done in H as (c0 & c0' & o0 & o1 & H0 & H1 & ->).
  unfold get in H0. injection H0 as <- <- <-.
  destruct (_send_state c); try discriminate.
  destruct (match datatype with
            | Some dt => bool_decide (dt ∈ _write_datatypes c)
            | None => true
            end); [|discriminate].
  unfold written_chunk.
  destruct data as [b|s]; destruct (text_encoding c) as [enc|] eqn:Henc.
  all: first [ destruct b as [|x b] | destruct s as [|x s] ].
  all: try (change (len [] =? 0) with true in H1; unfold ret in H1;
            left; by simplify_eq).
  all: rewrite len_cons_eqb in H1.
  all: apply bind_Done in H1 as (raw & c1 & o2 & o3 & H1 & H2 & ->).
  all: try (unfold raise in H1; discriminate).
  - unfold ret in H1. injection H1 as <- <- <-. right. exists (x :: b).
    split; [done|]. inv_run. chan_simpl. simplify_eq. done.
  - destruct (str_encode enc (x :: s)) as [b|]; [|discriminate].
    unfold ret in H1. injection H1 as <- <- <-. right. exists b.
    split; [done|]. inv_run. chan_simpl. simplify_eq. done.
Qed.

Lemma tagged_len_singleton (raw : bytes) (dt : option Z) :
  len (tagged [(raw, dt)]) = len raw.
Proof.
  unfold tagged, len. cbn [mbind list_bind fst snd].
  by rewrite app_nil_r, length_fmap.
Qed.

Lemma written_ext c1 c steps :
  text_encoding c1 = text_encoding c ->
  written str_encode c1 steps = written str_encode c steps.
Proof.
  intros He. unfold written. induction steps as [|s steps IH]; [done|].
  cbn [mbind list_bind]. f_equal; [|exact IH].
  destruct s; try done. unfold written_chunk. by rewrite He.
Qed.

(** What one step does to the buffered stream, to the buffer length and
    to the pause flag. *)
Lemma send_step_sent s c c' out :
  send_step_run str_encode s c = Done tt c' out ->
  (text_encoding c' = text_encoding c
   /\ _send_low_water c' = _send_low_water c
   /\ _send_high_water c' = _send_high_water c)
  /\ (keeps_send_buf s ->
      tagged (sent_chunks out) ++ tagged (_send_buf c')
      = tagged (_send_buf c) ++ tagged (written_chunk str_encode c s))
  /\ (_send_buf_len c = buffered_len c -> _send_buf_len c' = buffered_len c')
  /\ (keeps_send_buf s -> _send_low_water c <= _send_high_water c ->
      backpressure_consistent c -> backpressure_consistent c')
  /\ alternates (_send_paused c) (writing_events out) (_send_paused c').
Proof.
  assert (Hflush : forall c0 chunk,
    text_encoding c0 = text_encoding c ->
    _send_low_water c0 = _send_low_water c ->
    _send_high_water c0 = _send_high_water c ->
    _send_paused c0 = _send_paused c ->
    tagged (_send_buf c0) = tagged (_send_buf c) ++ tagged chunk ->
    _send_buf_len c0 = _send_buf_len c + len (tagged chunk) ->
    _flush_send_buf c0 = Done tt c' out ->
    (text_encoding c' = text_encoding c
     /\ _send_low_water c' = _send_low_water c
     /\ _send_high_water c' = _send_high_water c)
    /\ tagged (sent_chunks out) ++ tagged (_send_buf c')
       = tagged (_send_buf c) ++ tagged chunk
    /\ (_send_buf_len c = buffered_len c -> _send_buf_len c' = buffered_len c')
    /\ (_send_low_water c <= _send_high_water c -> backpressure_consistent c')
    /\ alternates (_send_paused c) (writing_events out) (_send_paused c')).
  { intros c0 chunk He Hlo Hhi Hpa Hbuf Hlen H.
    apply flush_send_buf_sent in H as (Hfr & Hst & Hl & Hbp & Halt).
    rewrite <- He, <- Hlo, <- Hhi, <- Hpa, <- Hbuf.
    split_all; try done.
    - unfold text_encoding. rewrite Hfr. reflexivity.
    - rewrite Hfr. reflexivity.
    - rewrite Hfr. reflexivity.
    - unfold buffered_len. intros Hinv.
      apply (f_equal len) in Hst. rewrite Hbuf, !len_app in Hst.
      rewrite Hl, Hlen, Hinv. unfold len in *. lia. }
  destruct s as [data datatype| | | |adjust|]; cbn [send_step_run]; intros H.
  - apply write_Done in H as [(Hch & -> & ->)|(raw & Hch & H)].
    + rewrite Hch. cbn. rewrite app_nil_r. by auto 10.
    + rewrite Hch.
      eapply (Hflush _ [(raw, datatype)]) in H
        as (Hfix & Hst & Hinv & Hbp & Halt);
        try reflexivity.
      * split_all; try tauto; auto.
      * chan_simpl. apply tagged_app.
      * chan_simpl. by rewrite tagged_len_singleton.
  - unfold write_eof in H.
    apply bind_Done in H as (c0 & c0' & o0 & o1 & H0 & H1 & ->).
    unfold get in H0. injection H0 as <- <- <-.
    destruct (_send_state c); try discriminate.
    apply bind_Done in H1 as ([] & c1 & o2 & o3 & H1 & H2 & ->).
    unfold modify in H1. injection H1 as <- <-.
    eapply (Hflush _ []) in H2 as (Hfix & Hst & Hinv & Hbp & Halt);
      try reflexivity.
    + cbn [app written_chunk]. split_all; try tauto; auto.
    + chan_simpl. by rewrite app_nil_r.
    + chan_simpl. change (len (tagged [])) with 0. lia.
  - unfold close in H.
    apply bind_Done in H as (c0 & c0' & o0 & o1 & H0 & H1 & ->).
    unfold get in H0. injection H0 as <- <- <-.
    destruct (closing (_send_state c)).
    { unfold ret in H1. injection H1 as <- <-. cbn.
      rewrite app_nil_r. by auto 10. }
    apply bind_Done in H1 as ([] & c1 & o2 & o3 & H1 & H2 & ->).
    unfold modify in H1. injection H1 as <- <-.
    eapply (Hflush _ []) in H2 as (Hfix & Hst & Hinv & Hbp & Halt);
      try reflexivity.
    + cbn [app written_chunk]. split_all; try tauto; auto.
    + chan_simpl. by rewrite app_nil_r.
    + chan_simpl. change (len (tagged [])) with 0. lia.
  - unfold abort in H.
    apply bind_Done in H as (c0 & c0' & o0 & o1 & H0 & H1 & ->).
    unfold get in H0. injection H0 as <- <- <-.
    destruct (_send_state c); inv_run; chan_simpl; cbn;
      rewrite ?app_nil_r; by auto 10.
  - unfold _process_window_adjust in H.
    apply bind_Done in H as (c0 & c0' & o0 & o1 & H0 & H1 & ->).
    unfold get in H0. injection H0 as <- <- <-.
    destruct (receiving (_recv_state c)); [|discriminate].
    apply bind_Done in H1 as ([] & c1 & o2 & o3 & H1 & H2 & ->).
    unfold modify in H1. injection H1 as <- <-.
    eapply (Hflush _ []) in H2 as (Hfix & Hst & Hinv & Hbp & Halt);
      try reflexivity.
    + cbn [app written_chunk]. split_all; try tauto; auto.
    + chan_simpl. by rewrite app_nil_r.
    + chan_simpl. change (len (tagged [])) with 0. lia.
  - unfold _process_close in H.
    apply bind_Done in H as (c0 & c0' & o0 & o1 & H0 & H1 & ->).
    unfold get in H0. injection H0 as <- <- <-.
    destruct (receiving (_recv_state c)); [|discriminate].
    destruct (_send_state c); inv_run; chan_simpl; cbn;
      split_all; try done.
Qed.

End SendStream.

Section SendGuarantees.

Variable str_encode : string -> pystr -> encode_result.

Lemma send_steps_sent steps : forall c c' out,
  send_steps_run str_encode steps c = Done tt c' out ->
  (text_encoding c' = text_encoding c
   /\ _send_low_water c' = _send_low_water c
   /\ _send_high_water c' = _send_high_water c)
  /\ (Forall keeps_send_buf steps ->
      tagged (sent_chunks out) ++ tagged (_send_buf c')
      = tagged (_send_buf c) ++ tagged (written str_encode c steps))
  /\ (_send_buf_len c = buffered_len c -> _send_buf_len c' = buffered_len c')
  /\ (Forall keeps_send_buf steps ->
      _send_low_water c <= _send_high_water c ->
      backpressure_consistent c -> backpressure_consistent c')
  /\ alternates (_send_paused c) (writing_events out) (_send_paused c').
Proof.
  induction steps as [|s steps IH]; intros c c' out; cbn [send_steps_run].
  - unfold ret. intros [= <- <-]. cbn. rewrite app_nil_r. by auto 10.
  - intros H. apply bind_Done in H as ([] & c1 & o1 & o2 & H1 & H2 & ->).
    apply send_step_sent in H1
      as ((He1 & Hlo1 & Hhi1) & Hst1 & Hinv1 & Hbp1 & Halt1).
    apply IH in H2 as ((He2 & Hlo2 & Hhi2) & Hst2 & Hinv2 & Hbp2 & Halt2).
    rewrite sent_chunks_app, writing_events_app, tagged_app.
    split_all.
    + congruence.
    + congruence.
    + congruence.
    + intros Hk. apply Forall_cons in Hk as [Hk1 Hk2].
      unfold written. cbn [mbind list_bind]. fold (written str_encode c steps).
      rewrite tagged_app, <- app_assoc, (Hst2 Hk2), (written_ext _ _ c _ He1).
      by rewrite !app_assoc, (Hst1 Hk1).
    + auto.
    + intros Hk Hlh Hbp. apply Forall_cons in Hk as [Hk1 Hk2].
      apply Hbp2; [done|congruence|]. by apply Hbp1.
    + eapply alternates_app; eauto.
Qed.

(** X1. The bytes the session writes reach the connection in the order
    they were written and under the data type they were written with:
    after any run of [write], [write_eof], [close], [abort] and inbound
    window adjustments, the payloads sent followed by what is still in
    the send buffer are the bytes buffered at the start followed by the
    bytes written, byte for byte and tag for tag. *)
Theorem written_bytes_sent_in_order (steps : list send_step)
    (c c' : chan) (out : list event) :
  Forall keeps_send_buf steps ->
  send_steps_run str_encode steps c = Done tt c' out ->
  tagged (sent_chunks out) ++ tagged (_send_buf c')
  = tagged (_send_buf c) ++ tagged (written str_encode c steps).
Proof.
  intros Hk H. by apply send_steps_sent in H as (_ & Hst & _); auto.
Qed.

(** X2. [get_write_buffer_size()] is the number of bytes in the send
    buffer: if it is before a run of send-side steps, an inbound close
    included, it is after the run. *)
Theorem write_buffer_size_exact (steps : list send_step)
    (c c' : chan) (out : list event) :
  get_write_buffer_size c = buffered_len c ->
  send_steps_run str_encode steps c = Done tt c' out ->
  get_write_buffer_size c' = buffered_len c'.
Proof.
  unfold get_write_buffer_size. intros Hinv H.
  by apply send_steps_sent in H as (_ & _ & Hl & _); auto.
Qed.

(** X3. Write flow control follows the water marks: with
    [low <= high], a channel whose pause flag agrees with the marks
    still agrees with them after any run of [write], [write_eof],
    [close], [abort] and inbound window adjustments, so writing is
    paused only while more than [low] bytes are buffered and goes on
    only while at most [high] are; and over any run of these steps and
    of inbound closes the session hears [pause_writing] and
    [resume_writing] in turns, ending in the state of the flag.  The
    peer's close is no part of the first statement: [_process_close]
    empties the send buffer without looking at the flag, so that a
    writer that was paused stays paused with nothing buffered and is
    not told to resume. *)
Theorem backpressure_follows_water_marks (steps : list send_step)
    (c c' : chan) (out : list event) :
  _send_low_water c <= _send_high_water c ->
  backpressure_consistent c ->
  send_steps_run str_encode steps c = Done tt c' out ->
  (Forall keeps_send_buf steps -> backpressure_consistent c')
  /\ alternates (_send_paused c) (writing_events out) (_send_paused c')
  /\ (forall c2 out2,
        _process_close c' = Done tt c2 out2 ->
        _send_paused c2 = _send_paused c'
        /\ _send_buf c2 = [] /\ get_write_buffer_size c2 = 0
        /\ writing_events out2 = []).
Proof.
  intros Hlh Hbp H.
  apply send_steps_sent in H as (_ & _ & _ & Hbp' & Halt).
  split_all; [auto|exact Halt|].
  intros c2 out2 H. unfold _process_close in H.
  apply bind_Done in H as (c0 & c0' & o0 & o1 & H0 & H & ->).
  unfold get in H0. injection H0 as <- <- <-.
  destruct (receiving (_recv_state c')); [|discriminate].
  unfold get_write_buffer_size.
  destruct (_send_state c'); inv_run; chan_simpl; by split_all.
Qed.

End SendGuarantees.

Lemma written_bytes_sent_in_order_witness :
  Forall keeps_send_buf stream_steps
  /\ tagged (sent_chunks
               (events (send_steps_run no_encoder stream_steps)
                  limited_channel))
     ++ tagged (_send_buf streamed_channel)
     = tagged (_send_buf limited_channel)
       ++ tagged (written no_encoder limited_channel stream_steps).
Proof.
  assert (Hk : Forall keeps_send_buf stream_steps)
    by (repeat constructor).
  split; [exact Hk|].
  apply (written_bytes_sent_in_order no_encoder stream_steps
           limited_channel streamed_channel
           (events (send_steps_run no_encoder stream_steps) limited_channel)
           Hk).
  vm_compute. reflexivity.
Defined.

Lemma write_buffer_size_exact_witness :
  get_write_buffer_size limited_channel = buffered_len limited_channel
  /\ get_write_buffer_size streamed_channel = buffered_len streamed_channel.
Proof.
  assert (H0 : get_write_buffer_size limited_channel
               = buffered_len limited_channel)
    by (vm_compute; reflexivity).
  split; [exact H0|].
  apply (write_buffer_size_exact no_encoder stream_steps
           limited_channel streamed_channel
           (events (send_steps_run no_encoder stream_steps) limited_channel)
           H0).
  vm_compute. reflexivity.
Defined.

Lemma backpressure_follows_water_marks_witness :
  (Forall keeps_send_buf stream_steps ->
   backpressure_consistent streamed_channel)
  /\ alternates (_send_paused limited_channel)
       (writing_events
          (events (send_steps_run no_encoder stream_steps) limited_channel))
       (_send_paused streamed_channel)
  /\ (forall c2 out2,
        _process_close streamed_channel = Done tt c2 out2 ->
        _send_paused c2 = _send_paused streamed_channel
        /\ _send_buf c2 = [] /\ get_write_buffer_size c2 = 0
        /\ writing_events out2 = []).
Proof.
  apply (backpressure_follows_water_marks no_encoder stream_steps
           limited_channel streamed_channel
           (events (send_steps_run no_encoder stream_steps) limited_channel)).
  - vm_compute. discriminate.
  - vm_compute. discriminate.
  - vm_compute. reflexivity.
Defined.

Lemma stream_steps_run :
  data_payloads
    (events (send_steps_run no_encoder stream_steps) limited_channel)
  = [take 4 ten; take 3 (drop 4 ten); drop 7 ten; [Byte.x0a; Byte.x0b]]
  /\ writing_events
       (events (send_steps_run no_encoder stream_steps) limited_channel)
     = [SessPauseWriting; SessResumeWriting].
Proof. by_computation. Qed.

(** The peer's close on a paused writer: the buffer is emptied, the flag
    stays, and the session is not told to resume. *)
Lemma inbound_close_leaves_writer_paused :
  _send_paused paused_writer = true
  /\ get_write_buffer_size paused_writer = 6
  /\ backpressure_consistent paused_writer
  /\ exists c',
       _process_close paused_writer
       = Done tt c'
           [ConnSendPacket [Packet.Byte MSG_CHANNEL_CLOSE; Packet.UInt32 0];
            LoopCallSoonCleanup]
       /\ _send_paused c' = true /\ get_write_buffer_size c' = 0
       /\ ~ backpressure_consistent c'.
Proof.
  split_all; [by_computation..|].
  eexists. split_all; [vm_compute; reflexivity|by_computation..|].
  vm_compute. discriminate.
Qed.

(** ** Write buffer limits *)


(** ** Half-closing the send side *)

Lemma channel_eofs_app out1 out2 :
  channel_eofs (out1 ++ out2) = (channel_eofs out1 + channel_eofs out2)%nat.
Proof. unfold channel_eofs. by rewrite filter_app, length_app. Qed.

Lemma after_eof_none out1 out2 :
  channel_eofs out1 = 0%nat -> after_eof (out1 ++ out2) = after_eof out2.
Proof.
  induction out1 as [|e out1 IH]; [done|]. unfold channel_eofs.
  cbn [app after_eof]. rewrite filter_cons.
  destruct (is_channel_eof e) eqn:He.
  - rewrite decide_True by done. discriminate.
  - rewrite decide_False by done. exact IH.
Qed.

Lemma after_eof_some out1 out2 :
  channel_eofs out1 = 1%nat ->
  after_eof (out1 ++ out2) = after_eof out1 ++ out2.
Proof.
  induction out1 as [|e out1 IH]; [done|]. unfold channel_eofs.
  cbn [app after_eof]. rewrite filter_cons.
  destruct (is_channel_eof e) eqn:He.
  - done.
  - rewrite decide_False by done. exact IH.
Qed.

Lemma flush_body_no_eof c c' out :
  flush_body c = Done tt c' out -> channel_eofs out = 0%nat.
Proof.
  unfold flush_body. intros H.
  destruct (_send_buf c) as [|[buf [dt|]] rest]; inv_run; done.
Qed.

Lemma flush_loop_no_eof fuel : forall c c' out,
  flush_loop fuel c = Done tt c' out -> channel_eofs out = 0%nat.
Proof.
  induction fuel as [|fuel IH]; intros c c' out; simpl;
    destruct (can_send c); try discriminate.
  1,3: by intros [= <- <-].
  intros H. apply bind_Done in H as ([] & c1 & o1 & o2 & H1 & H2 & ->).
  rewrite channel_eofs_app.
  by rewrite (flush_body_no_eof _ _ _ H1), (IH _ _ _ H2).
Qed.

Lemma pause_resume_writing_no_eof c c' out :
  _pause_resume_writing c = Done tt c' out -> channel_eofs out = 0%nat.
Proof. intros H. apply pause_resume_writing_spec in H as (_ & _ & _ & ->).
  by destruct (_send_paused c), (_send_paused c'). Qed.

Lemma flush_finish_eof c c' out :
  flush_finish c = Done tt c' out ->
  (channel_eofs out = 0%nat
   /\ (_send_state c' = _send_state c
       \/ _send_state c = close_pending /\ _send_state c' = close_sent
          /\ _send_buf c = []))
  \/ (_send_state c = eof_pending /\ _send_state c' = eof_sent
      /\ _send_buf c = [] /\ channel_eofs out = 1%nat
      /\ after_eof out = []).
Proof.
  unfold flush_finish. intros H.
  apply bind_Done in H as (c0 & c0' & o0 & o1 & H0 & H1 & ->).
  unfold get in H0. injection H0 as <- <- <-.
  destruct (_send_buf c) as [|x l]; [|inv_run; left; auto].
  destruct (_send_state c) eqn:Hst; inv_run; chan_simpl;
    first [ left; split; [done|]; by auto
          | right; by split_all ].
Qed.

(** What a completed [_flush_send_buf] did about the EOF. *)
Lemma flush_send_buf_eof c c' out :
  _flush_send_buf c = Done tt c' out ->
  (_send_buf c = [] -> _send_buf c' = [] /\ sent_chunks out = [])
  /\ ((channel_eofs out = 0%nat
       /\ (_send_state c' = _send_state c
           \/ _send_state c = close_pending /\ _send_state c' = close_sent
              /\ _send_buf c' = []))
      \/ (_send_state c = eof_pending /\ _send_state c' = eof_sent
          /\ _send_buf c' = [] /\ channel_eofs out = 1%nat
          /\ after_eof out = [])).
Proof.
  intros H. unfold _flush_send_buf in H.
  apply bind_Done in H as ([] & c1 & o1 & o2 & H1 & H2 & ->).
  apply bind_Done in H1 as (c0 & c0' & o0 & o1' & H0 & H1 & ->).
  unfold get in H0. injection H0 as <- <- <-.
  apply bind_Done in H2 as ([] & c2 & o2' & o3 & H2 & H3 & ->).
  pose proof (flush_loop_no_eof _ _ _ _ H1) as He1.
  pose proof (pause_resume_writing_no_eof _ _ _ H2) as He2.
  pose proof H1 as H1'.
  apply flush_loop_sent in H1 as (Hs1 & _ & _ & Hfr).
  apply pause_resume_writing_spec in H2 as (Hc2 & Hs2 & _ & _).
  pose proof H3 as H3'.
  apply flush_finish_quiet in H3 as (Hc' & Hs3 & _).
  apply flush_finish_eof in H3'.
  assert (Hbuf : _send_buf c' = _send_buf c2) by (rewrite Hc'; reflexivity).
  assert (Hbuf2 : _send_buf c2 = _send_buf c1) by (rewrite Hc2; reflexivity).
  assert (Hst2 : _send_state c2 = _send_state c)
    by (rewrite Hc2, Hfr; reflexivity).
  cbn [app]. split.
  - intros Hempty.
    assert (o1' = [] /\ c1 = c) as [-> ->].
    { unfold flush_fuel in H1'. rewrite Hempty in H1'. simpl in H1'.
      unfold can_send in H1'. rewrite Hempty in H1'. by injection H1'. }
    rewrite Hbuf, Hbuf2, Hempty, !sent_chunks_app, Hs2, Hs3. done.
  - rewrite Hst2, <- Hbuf in H3'.
    destruct H3' as [(He3 & Hst)|(Hst & Hst' & Hb & He3 & Haft)].
    + left. rewrite !channel_eofs_app, He1, He2, He3. done.
    + right. rewrite !channel_eofs_app, He1, He2, He3.
      split_all; try done.
      rewrite after_eof_none by done. by rewrite after_eof_none.
Qed.

Section HalfClose.

Variable str_encode : string -> pystr -> encode_result.

Lemma write_not_open data datatype c :
  _send_state c <> open ->
  write str_encode data datatype c
  = Raise (BrokenPipeError "Channel not open for sending").
Proof. intros Hs. unfold write, bind, get. by destruct (_send_state c). Qed.

Lemma write_eof_not_open c :
  _send_state c <> open ->
  write_eof c = Raise (BrokenPipeError "Channel not open for sending").
Proof. intros Hs. unfold write_eof, bind, get. by destruct (_send_state c). Qed.

(** Once the send side is past its EOF no step sends data or an EOF. *)
Lemma past_eof_step s c c' out :
  past_eof c -> send_step_run str_encode s c = Done tt c' out ->
  past_eof c' /\ sent_chunks out = [] /\ channel_eofs out = 0%nat.
Proof.
  intros (Hbuf & Hno & Hne) H.
  destruct s as [data datatype| | | |adjust|]; cbn [send_step_run] in H.
  - by rewrite write_not_open in H.
  - by rewrite write_eof_not_open in H.
  - unfold close in H.
    apply bind_Done in H as (c0 & c0' & o0 & o1 & H0 & H1 & ->).
    unfold get in H0. injection H0 as <- <- <-.
    destruct (closing (_send_state c)).
    { unfold ret in H1. injection H1 as <- <-. by split_all. }
    apply bind_Done in H1 as ([] & c1 & o2 & o3 & H1 & H2 & ->).
    unfold modify in H1. injection H1 as <- <-.
    apply flush_send_buf_eof in H2 as [Hemp Hcase].
    destruct (Hemp Hbuf) as [Hb' Hs']. chan_simpl. cbn [app].
    destruct Hcase as [(He & [Hst|(_ & Hst & _)])|(Hst & _)];
      [| |discriminate]; unfold past_eof; rewrite Hst; by split_all.
  - unfold abort in H.
    apply bind_Done in H as (c0 & c0' & o0 & o1 & H0 & H1 & ->).
    unfold get in H0. injection H0 as <- <- <-.
    unfold past_eof.
    destruct (_send_state c) eqn:Hst; inv_run; chan_simpl;
      rewrite ?Hst; by split_all.
  - unfold _process_window_adjust in H.
    apply bind_Done in H as (c0 & c0' & o0 & o1 & H0 & H1 & ->).
    unfold get in H0. injection H0 as <- <- <-.
    destruct (receiving (_recv_state c)); [|discriminate].
    apply bind_Done in H1 as ([] & c1 & o2 & o3 & H1 & H2 & ->).
    unfold modify in H1. injection H1 as <- <-.
    apply flush_send_buf_eof in H2 as [Hemp Hcase].
    destruct (Hemp Hbuf) as [Hb' Hs']. chan_simpl. cbn [app].
    destruct Hcase as [(He & [Hst|(_ & Hst & _)])|(Hst & _)];
      [| |done]; unfold past_eof; rewrite Hst; by split_all.
  - unfold _process_close in H.
    apply bind_Done in H as (c0 & c0' & o0 & o1 & H0 & H1 & ->).
    unfold get in H0. injection H0 as <- <- <-.
    destruct (receiving (_recv_state c)); [|discriminate].
    unfold past_eof.
    destruct (_send_state c) eqn:Hst; inv_run; chan_simpl;
      rewrite ?Hst; by split_all.
Qed.

Lemma past_eof_steps steps : forall c c' out,
  past_eof c -> send_steps_run str_encode steps c = Done tt c' out ->
  past_eof c' /\ sent_chunks out = [] /\ channel_eofs out = 0%nat.
Proof.
  induction steps as [|s steps IH]; intros c c' out Hp; cbn [send_steps_run].
  - unfold ret. by intros [= <- <-].
  - intros H. apply bind_Done in H as ([] & c1 & o1 & o2 & H1 & H2 & ->).
    apply (past_eof_step _ _ _ _ Hp) in H1 as (Hp1 & Hs1 & He1).
    apply (IH _ _ _ Hp1) in H2 as (Hp2 & Hs2 & He2).
    by rewrite sent_chunks_app, channel_eofs_app, Hs1, Hs2, He1, He2.
Qed.

(** A step either sends no EOF, or sends one as its last packet and
    leaves the send side past its EOF. *)
Lemma eof_step s c c' out :
  eof_after_data c -> send_step_run str_encode s c = Done tt c' out ->
  (channel_eofs out = 0%nat /\ eof_after_data c')
  \/ (channel_eofs out = 1%nat /\ after_eof out = [] /\ past_eof c').
Proof.
  intros Hinv H.
  destruct (decide (_send_state c = eof_sent)) as [Hsent|Hns].
  { assert (Hp : past_eof c).
    { unfold past_eof. rewrite Hsent. by split_all; auto. }
    apply (past_eof_step _ _ _ _ Hp) in H as ((Hb & _) & _ & He).
    left. split; [done|]. by intros _. }
  assert (Hflush : forall c0,
    _send_state c0 <> eof_sent -> _flush_send_buf c0 = Done tt c' out ->
    (channel_eofs out = 0%nat /\ eof_after_data c')
    \/ (channel_eofs out = 1%nat /\ after_eof out = [] /\ past_eof c')).
  { intros c0 Hns0 H0. apply flush_send_buf_eof in H0 as [_ Hcase].
    destruct Hcase as [(He & [Hst|(_ & Hst & _)])|(_ & Hst & Hb & He & Ha)].
    - left. split; [done|]. unfold eof_after_data. by rewrite Hst.
    - left. split; [done|]. unfold eof_after_data. by rewrite Hst.
    - right. unfold past_eof. rewrite Hst. by split_all. }
  destruct s as [data datatype| | | |adjust|]; cbn [send_step_run] in H.
  - apply write_Done in H as [(_ & -> & ->)|(raw & _ & H)]; [by left|].
    by apply Hflush in H.
  - unfold write_eof in H.
    apply bind_Done in H as (c0 & c0' & o0 & o1 & H0 & H1 & ->).
    unfold get in H0. injection H0 as <- <- <-.
    destruct (_send_state c); try discriminate.
    apply bind_Done in H1 as ([] & c1 & o2 & o3 & H1 & H2 & ->).
    unfold modify in H1. injection H1 as <- <-.
    by apply Hflush in H2.
  - unfold close in H.
    apply bind_Done in H as (c0 & c0' & o0 & o1 & H0 & H1 & ->).
    unfold get in H0. injection H0 as <- <- <-.
    destruct (closing (_send_state c)).
    { unfold ret in H1. injection H1 as <- <-. by left. }
    apply bind_Done in H1 as ([] & c1 & o2 & o3 & H1 & H2 & ->).
    unfold modify in H1. injection H1 as <- <-.
    by apply Hflush in H2.
  - unfold abort in H.
    apply bind_Done in H as (c0 & c0' & o0 & o1 & H0 & H1 & ->).
    unfold get in H0. injection H0 as <- <- <-.
    left. unfold eof_after_data.
    destruct (_send_state c) eqn:Hst; inv_run; chan_simpl;
      rewrite ?Hst; by split_all.
  - unfold _process_window_adjust in H.
    apply bind_Done in H as (c0 & c0' & o0 & o1 & H0 & H1 & ->).
    unfold get in H0. injection H0 as <- <- <-.
    destruct (receiving (_recv_state c)); [|discriminate].
    apply bind_Done in H1 as ([] & c1 & o2 & o3 & H1 & H2 & ->).
    unfold modify in H1. injection H1 as <- <-.
    by apply Hflush in H2.
  - unfold _process_close in H.
    apply bind_Done in H as (c0 & c0' & o0 & o1 & H0 & H1 & ->).
    unfold get in H0. injection H0 as <- <- <-.
    destruct (receiving (_recv_state c)); [|discriminate].
    left. unfold eof_after_data.
    destruct (_send_state c) eqn:Hst; inv_run; chan_simpl;
      rewrite ?Hst; by split_all.
Qed.

(** X5. The send side sends at most one [CHANNEL_EOF] and no data after
    it: in any run of [write], [write_eof], [close], [abort], inbound
    window adjustments and an inbound close that starts on a channel
    whose EOF, if sent, left nothing buffered, the run sends at most one
    EOF, no [CHANNEL_DATA] or [CHANNEL_EXTENDED_DATA] packet follows it,
    and a run that sent it ends with an empty send buffer in a state
    that takes no more data. *)
Theorem eof_once_after_data (steps : list send_step)
    (c c' : chan) (out : list event) :
  eof_after_data c ->
  send_steps_run str_encode steps c = Done tt c' out ->
  (channel_eofs out <= 1)%nat
  /\ sent_chunks (after_eof out) = []
  /\ (channel_eofs out = 1%nat -> past_eof c').
Proof.
  revert c c' out.
  induction steps as [|s steps IH]; intros c c' out Hinv; cbn [send_steps_run].
  - unfold ret. intros [= <- <-]. split_all; [cbn; lia|done|done].
  - intros H. apply bind_Done in H as ([] & c1 & o1 & o2 & H1 & H2 & ->).
    apply (eof_step _ _ _ _ Hinv) in H1 as [(He1 & Hinv1)|(He1 & Ha1 & Hp1)].
    + apply (IH _ _ _ Hinv1) in H2 as (He2 & Hs2 & Hp2).
      rewrite channel_eofs_app, He1, after_eof_none by done. by split_all.
    + apply (past_eof_steps _ _ _ _ Hp1) in H2 as (Hp2 & Hs2 & He2).
      rewrite channel_eofs_app, He1, He2, after_eof_some, Ha1 by done.
      split_all; [lia|done|done].
Qed.

End HalfClose.

Lemma eof_once_after_data_witness :
  eof_after_data limited_channel
  /\ (channel_eofs (events (send_steps_run no_encoder eof_steps)
                      limited_channel) <= 1)%nat
  /\ sent_chunks
       (after_eof (events (send_steps_run no_encoder eof_steps)
                     limited_channel)) = []
  /\ (channel_eofs (events (send_steps_run no_encoder eof_steps)
                      limited_channel) = 1%nat ->
      past_eof half_closed_channel).
Proof.
  assert (Hinv : eof_after_data limited_channel)
    by (intros H; vm_compute in H; discriminate).
  split; [exact Hinv|].
  apply (eof_once_after_data no_encoder eof_steps limited_channel
           half_closed_channel
           (events (send_steps_run no_encoder eof_steps) limited_channel)
           Hinv).
  vm_compute. reflexivity.
Defined.

Lemma eof_steps_run :
  channel_eofs (events (send_steps_run no_encoder eof_steps) limited_channel)
  = 1%nat
  /\ channel_closes
       (events (send_steps_run no_encoder eof_steps) limited_channel)
     = 1%nat
  /\ _send_state half_closed_channel = close_sent.
Proof. by_computation. Qed.

(** ** Closing from both sides *)

Lemma flush_loop_no_close fuel : forall c c' out,
  flush_loop fuel c = Done tt c' out -> channel_closes out = 0%nat.
Proof.
  induction fuel as [|fuel IH]; intros c c' out; simpl;
    destruct (can_send c) eqn:Hcan; try discriminate.
  1,3: by intros [= <- <-].
  intros H. apply bind_Done in H as ([] & c1 & o1 & o2 & H1 & H2 & ->).
  assert (Hne : _send_buf c <> []).
  { unfold can_send in Hcan. by destruct (_send_buf c). }
  apply flush_body_Done in H1 as (_ & _ & _ & _ & _ & _ & _ & _ & _ & _ & Hcl);
    [|done].
  by rewrite channel_closes_app, Hcl, (IH _ _ _ H2).
Qed.

(** What a completed [_flush_send_buf] did about the close. *)
Lemma flush_send_buf_close c c' out :
  _flush_send_buf c = Done tt c' out ->
  (channel_closes out = 0%nat
   /\ (_send_state c' = _send_state c
       \/ _send_state c = eof_pending /\ _send_state c' = eof_sent))
  \/ (_send_state c = close_pending /\ _send_state c' = close_sent
      /\ channel_closes out = 1%nat).
Proof.
  intros H. unfold _flush_send_buf in H.
  apply bind_Done in H as ([] & c1 & o1 & o2 & H1 & H2 & ->).
  apply bind_Done in H1 as (c0 & c0' & o0 & o1' & H0 & H1 & ->).
  unfold get in H0. injection H0 as <- <- <-.
  apply bind_Done in H2 as ([] & c2 & o2' & o3 & H2 & H3 & ->).
  pose proof (flush_loop_no_close _ _ _ _ H1) as Hc1.
  apply flush_loop_sent in H1 as (_ & _ & _ & Hfr).
  apply pause_resume_writing_Done in H2 as (Hc2 & _ & Hcl2).
  apply flush_finish_Done in H3 as (Hc' & _ & Hfin).
  assert (Hst2 : _send_state c2 = _send_state c)
    by (rewrite Hc2, Hfr; reflexivity).
  cbn [app]. rewrite !channel_closes_app, Hc1, Hcl2. cbn [Nat.add].
  rewrite Hst2 in Hfin.
  destruct (_send_buf c2); destruct Hfin as [Hst Hcl]; rewrite Hcl.
  - destruct (_send_state c) eqn:Hs; cbn [drained] in Hst;
      rewrite ?bool_decide_eq_true_2, ?bool_decide_eq_false_2 by done;
      auto.
  - auto.
Qed.

Section BothSidesClose.

Variable str_encode : string -> pystr -> encode_result.

(** A step sends a close exactly when it brings the send side to
    ['close_sent']. *)
Lemma close_count_step s c c' out :
  keeps_send_buf s -> send_step_run str_encode s c = Done tt c' out ->
  (_send_state c = close_sent ->
   _send_state c' = close_sent /\ channel_closes out = 0%nat)
  /\ (_send_state c <> close_sent -> _send_state c <> closed ->
      (_send_state c' <> close_sent /\ _send_state c' <> closed
       /\ channel_closes out = 0%nat)
      \/ (_send_state c' = close_sent /\ channel_closes out = 1%nat)).
Proof.
  intros Hk H.
  assert (Hflush : forall c0,
    _send_state c0 <> close_sent -> _send_state c0 <> closed ->
    _flush_send_buf c0 = Done tt c' out ->
    (_send_state c' <> close_sent /\ _send_state c' <> closed
     /\ channel_closes out = 0%nat)
    \/ (_send_state c' = close_sent /\ channel_closes out = 1%nat)).
  { intros c0 Hn1 Hn2 H0.
    apply flush_send_buf_close in H0
      as [(Hcl & [Hst|(Hst & Hst')])|(Hst & Hst' & Hcl)].
    - left. rewrite Hst. by split_all.
    - left. rewrite Hst'. by split_all.
    - by right. }
  assert (Hsent : forall c0,
    _send_state c0 = close_sent -> _flush_send_buf c0 = Done tt c' out ->
    _send_state c' = close_sent /\ channel_closes out = 0%nat).
  { intros c0 Hs0 H0.
    apply flush_send_buf_close in H0
      as [(Hcl & [Hst|(Hst & Hst')])|(Hst & Hst' & Hcl)]; try congruence.
    split; congruence. }
  destruct s as [data datatype| | | |adjust|]; cbn [send_step_run] in H;
    [| | | | |done].
  - split.
    + intros Hs. rewrite write_not_open in H by congruence. discriminate.
    + intros Hn1 Hn2.
      apply write_Done in H as [(_ & -> & ->)|(raw & _ & H)];
        [left; by split_all|].
      by apply Hflush in H.
  - split.
    + intros Hs. rewrite write_eof_not_open in H by congruence. discriminate.
    + intros Hn1 Hn2. unfold write_eof in H.
      apply bind_Done in H as (c0 & c0' & o0 & o1 & H0 & H1 & ->).
      unfold get in H0. injection H0 as <- <- <-.
      destruct (_send_state c); try discriminate.
      apply bind_Done in H1 as ([] & c1 & o2 & o3 & H1 & H2 & ->).
      unfold modify in H1. injection H1 as <- <-.
      by apply Hflush in H2.
  - unfold close in H.
    apply bind_Done in H as (c0 & c0' & o0 & o1 & H0 & H1 & ->).
    unfold get in H0. injection H0 as <- <- <-.
    destruct (closing (_send_state c)) eqn:Hclosing.
    { unfold ret in H1. injection H1 as <- <-. split; [done|].
      intros Hn1 Hn2. left. by split_all. }
    apply bind_Done in H1 as ([] & c1 & o2 & o3 & H1 & H2 & ->).
    unfold modify in H1. injection H1 as <- <-.
    split.
    + intros Hs. rewrite Hs in Hclosing. discriminate.
    + intros _ _. by apply Hflush in H2.
  - unfold abort in H.
    apply bind_Done in H as (c0 & c0' & o0 & o1 & H0 & H1 & ->).
    unfold get in H0. injection H0 as <- <- <-.
    destruct (_send_state c) eqn:Hst; inv_run; chan_simpl;
      (split; [try done|]); intros; try done; right; by split.
  - unfold _process_window_adjust in H.
    apply bind_Done in H as (c0 & c0' & o0 & o1 & H0 & H1 & ->).
    unfold get in H0. injection H0 as <- <- <-.
    destruct (receiving (_recv_state c)); [|discriminate].
    apply bind_Done in H1 as ([] & c1 & o2 & o3 & H1 & H2 & ->).
    unfold modify in H1. injection H1 as <- <-.
    split.
    + intros Hs. by apply Hsent in H2.
    + intros Hn1 Hn2. by apply Hflush in H2.
Qed.

Lemma close_count_steps steps : forall c c' out,
  Forall keeps_send_buf steps ->
  send_steps_run str_encode steps c = Done tt c' out ->
  (_send_state c = close_sent ->
   _send_state c' = close_sent /\ channel_closes out = 0%nat)
  /\ (_send_state c <> close_sent -> _send_state c <> closed ->
      (_send_state c' <> close_sent /\ _send_state c' <> closed
       /\ channel_closes out = 0%nat)
      \/ (_send_state c' = close_sent /\ channel_closes out = 1%nat)).
Proof.
  induction steps as [|s steps IH]; intros c c' out Hk; cbn [send_steps_run].
  - unfold ret. intros [= <- <-]. split; [done|]. intros. left. by split_all.
  - apply Forall_cons in Hk as [Hk1 Hk2]. intros H.
    apply bind_Done in H as ([] & c1 & o1 & o2 & H1 & H2 & ->).
    apply (close_count_step _ _ _ _ Hk1) in H1 as [Hs1 Hn1].
    apply (IH _ _ _ Hk2) in H2 as [Hs2 Hn2].
    rewrite channel_closes_app. split.
    + intros Hs. destruct (Hs1 Hs) as [Hs' ->].
      destruct (Hs2 Hs') as [Hs'' ->]. done.
    + intros Ha Hb.
      destruct (Hn1 Ha Hb) as [(Ha1 & Hb1 & ->)|(Hc1 & ->)].
      * destruct (Hn2 Ha1 Hb1) as [(Ha2 & Hb2 & ->)|(Hc2 & ->)];
          [left|right]; by split_all.
      * destruct (Hs2 Hc1) as [Hc2 ->]. by right.
Qed.

(** X6. By the time the peer's [CHANNEL_CLOSE] has been processed the
    channel has sent exactly one [CHANNEL_CLOSE] of its own, whatever
    the session did before: on a channel that has not sent its close,
    any run of [write], [write_eof], [close], [abort] and inbound window
    adjustments followed by the inbound close sends one close in all; the
    inbound close drops what was still buffered and schedules the
    cleanup last. *)
Theorem one_close_by_inbound_close (steps : list send_step)
    (c c' : chan) (out : list event) :
  Forall keeps_send_buf steps ->
  _send_state c <> close_sent -> _send_state c <> closed ->
  (send_steps_run str_encode steps >> _process_close) c = Done tt c' out ->
  channel_closes out = 1%nat
  /\ _send_buf c' = [] /\ get_write_buffer_size c' = 0
  /\ last out = Some LoopCallSoonCleanup.
Proof.
  intros Hk Ha Hb H.
  apply bind_Done in H as ([] & c1 & o1 & o2 & H1 & H2 & ->).
  apply (close_count_steps _ _ _ _ Hk) in H1 as [_ Hn].
  unfold _process_close in H2.
  apply bind_Done in H2 as (c0 & c0' & o0 & o3 & H0 & H2 & ->).
  unfold get in H0. injection H0 as <- <- <-.
  destruct (receiving (_recv_state c1)); [|discriminate].
  rewrite channel_closes_app. unfold get_write_buffer_size.
  destruct (Hn Ha Hb) as [(Ha1 & Hb1 & ->)|(Hc1 & ->)].
  - destruct (_send_state c1) eqn:Hst; try done; inv_run; chan_simpl;
      (split_all; [reflexivity..|]); by rewrite last_app.
  - rewrite Hc1 in H2. inv_run; chan_simpl.
    split_all; [reflexivity..|]. by rewrite last_app.
Qed.

End BothSidesClose.

Lemma one_close_by_inbound_close_witness :
  channel_closes
    (events (send_steps_run no_encoder closing_steps >> _process_close)
       limited_channel) = 1%nat
  /\ _send_buf
       (default limited_channel
          (exec (send_steps_run no_encoder closing_steps >> _process_close)
             limited_channel)) = []
  /\ get_write_buffer_size
       (default limited_channel
          (exec (send_steps_run no_encoder closing_steps >> _process_close)
             limited_channel)) = 0
  /\ last (events (send_steps_run no_encoder closing_steps >> _process_close)
             limited_channel)
     = Some LoopCallSoonCleanup.
Proof.
  apply (one_close_by_inbound_close no_encoder closing_steps limited_channel).
  - repeat constructor.
  - vm_compute. discriminate.
  - vm_compute. discriminate.
  - vm_compute. reflexivity.
Defined.

(** ** Delivery to the session *)






Section Delivery.

Variable bytes_decode : string -> bytes -> decode_result.
Variable pauses : event -> bool.






End Delivery.

Lemma backlog_channel_reached :
  _recv_buf backlog_channel
  = [(Data [Byte.x61; Byte.x62; Byte.x63], None);
     (Data [Byte.x64; Byte.x65], Some EXTENDED_DATA_STDERR); (EOF, None)]
  /\ _recv_window backlog_channel = 100
  /\ _recv_state backlog_channel = eof_received.
Proof. by_computation. Qed.


(** The session that pauses on extended data is handed the three bytes
    of standard output and the two of standard error; the EOF stays
    buffered and reading is paused.  The session that never pauses is
    handed the EOF as well. *)
Lemma resume_reading_stops_at_pause :
  (exists c',
     resume_reading utf8_codec pauses_on_extended_data backlog_channel
     = Done tt c'
         [SessDataReceived (PBytes [Byte.x61; Byte.x62; Byte.x63]) None;
          SessDataReceived (PBytes [Byte.x64; Byte.x65])
            (Some EXTENDED_DATA_STDERR)]
     /\ _recv_buf c' = [(EOF, None)] /\ _recv_paused c' = true)
  /\ (exists c',
        resume_reading utf8_codec never_pauses backlog_channel
        = Done tt c'
            [SessDataReceived (PBytes [Byte.x61; Byte.x62; Byte.x63]) None;
             SessDataReceived (PBytes [Byte.x64; Byte.x65])
               (Some EXTENDED_DATA_STDERR);
             SessEofReceived]
        /\ _recv_buf c' = [] /\ _recv_paused c' = false).
Proof. split; eexists; by_computation. Qed.

(** ** The peer's EOF *)

Lemma close_frame c c' out :
  close c = Done tt c' out -> flush_frame c c'.
Proof.
  unfold close. intros H.
  apply bind_Done in H as (c0 & c0' & o0 & o1 & H0 & H1 & ->).
  unfold get in H0. injection H0 as <- <- <-.
  destruct (closing (_send_state c)).
  - unfold ret in H1. injection H1 as <- <-. unfold flush_frame. by destruct c.
  - apply bind_Done in H1 as ([] & c1 & o2 & o3 & H1 & H2 & ->).
    unfold modify in H1. injection H1 as <- <-.
    apply flush_send_buf_sent in H2 as (Hfr & _).
    unfold flush_frame in *. rewrite Hfr at 1. by destruct c.
Qed.

Section InboundEof.

Variable bytes_decode : string -> bytes -> decode_result.

(** X8. The peer's EOF ends the inbound data: once [_process_eof] has
    returned, the receive state is ['eof_received'], so that any further
    [CHANNEL_DATA], [CHANNEL_EXTENDED_DATA] or [CHANNEL_EOF] is a
    protocol error, while window adjustments and the close are still
    taken; on a paused channel that is not closing the EOF waits in the
    receive buffer behind the data and the session hears nothing
    yet. *)
Theorem inbound_eof_ends_data (c c' : chan) (out : list event) :
  _process_eof bytes_decode c = Done tt c' out ->
  _recv_state c' = eof_received
  /\ (forall data,
        _process_data bytes_decode data c'
        = Raise (DisconnectError DISC_PROTOCOL_ERROR
                   "Channel not open for sending"))
  /\ (forall datatype data,
        _process_extended_data bytes_decode datatype data c'
        = Raise (DisconnectError DISC_PROTOCOL_ERROR
                   "Channel not open for sending"))
  /\ _process_eof bytes_decode c'
     = Raise (DisconnectError DISC_PROTOCOL_ERROR
                "Channel not open for sending")
  /\ receiving (_recv_state c') = true
  /\ (_recv_paused c = true -> closing (_send_state c) = false ->
      c' = set_recv_buf (_recv_buf c ++ [(EOF, None)])
             (set_recv_state eof_received c)
      /\ out = []).
Proof.
  intros H.
  assert (Hst : _recv_state c' = eof_received
          /\ (_recv_paused c = true -> closing (_send_state c) = false ->
              c' = set_recv_buf (_recv_buf c ++ [(EOF, None)])
                     (set_recv_state eof_received c)
              /\ out = [])).
  { unfold _process_eof in H.
    apply bind_Done in H as (c0 & c0' & o0 & o1 & H0 & H1 & ->).
    unfold get in H0. injection H0 as <- <- <-.
    destruct (_recv_state c); try discriminate.
    apply bind_Done in H1 as ([] & c1 & o2 & o3 & H1 & H2 & ->).
    unfold modify in H1. injection H1 as <- <-.
    unfold _accept_data in H2.
    apply bind_Done in H2 as (c0 & c0' & o0 & o1 & H0 & H2 & ->).
    unfold get in H0. injection H0 as <- <- <-. chan_simpl.
    destruct (closing (_send_state c)) eqn:Hcl.
    { unfold ret in H2. injection H2 as <- <-. by split. }
    destruct (_recv_paused c) eqn:Hpau.
    { unfold modify in H2. injection H2 as <- <-. by split. }
    split; [|done]. unfold _deliver_data in H2.
    apply bind_Done in H2 as (c0 & c0' & o0 & o2 & H0 & H2 & ->).
    unfold get in H0. injection H0 as <- <- <-. chan_simpl.
    destruct (bool_decide (is_Some (_recv_partial c !! None)));
      [discriminate|].
    destruct (_session c) as [s|]; [|discriminate].
    apply bind_Done in H2 as ([] & c1 & o3 & o4 & H1 & H2 & ->).
    unfold emit in H1. injection H1 as <- <-.
    unfold when in H2. destruct (negb (eof_received_answer s)).
    - apply close_frame in H2. rewrite H2. reflexivity.
    - unfold ret in H2. by injection H2 as <- <-. }
  destruct Hst as [Hst Hpaused].
  unfold _process_data, _process_extended_data, _process_eof, bind, get.
  rewrite Hst. by split_all.
Qed.

End InboundEof.

Lemma inbound_eof_ends_data_witness :
  _recv_state backlog_channel = eof_received
  /\ (forall data,
        _process_data utf8_codec data backlog_channel
        = Raise (DisconnectError DISC_PROTOCOL_ERROR
                   "Channel not open for sending"))
  /\ (forall datatype data,
        _process_extended_data utf8_codec datatype data backlog_channel
        = Raise (DisconnectError DISC_PROTOCOL_ERROR
                   "Channel not open for sending"))
  /\ _process_eof utf8_codec backlog_channel
     = Raise (DisconnectError DISC_PROTOCOL_ERROR
                "Channel not open for sending")
  /\ receiving (_recv_state backlog_channel) = true
  /\ (_recv_paused eof_waiting_channel = true ->
      closing (_send_state eof_waiting_channel) = false ->
      backlog_channel
      = set_recv_buf (_recv_buf eof_waiting_channel ++ [(EOF, None)])
          (set_recv_state eof_received eof_waiting_channel)
      /\ events (_process_eof utf8_codec) eof_waiting_channel = []).
Proof.
  apply (inbound_eof_ends_data utf8_codec eof_waiting_channel backlog_channel
           (events (_process_eof utf8_codec) eof_waiting_channel)).
  vm_compute. reflexivity.
Defined.

(** ** The open handshake *)

(** X9. The open handshake resolves the waiter [_open] returned: on a
    closed channel [_open] sends one [CHANNEL_OPEN] with the channel's
    own number, window and packet size and returns a fresh pending
    waiter, and a second [_open] raises [OSError]; the peer's
    confirmation then opens both directions with the peer's number,
    window and packet size and gives the waiter the confirmation packet,
    or leaves it cancelled if its caller gave up; after it a second
    confirmation is a protocol error. *)
Theorem open_handshake_resolves_waiter (chantype : bytes)
    (args : list Packet.field) (send_chan send_window send_pktsize : Z)
    (pkt : bytes) (c : chan) (n : Z) :
  _send_state c = closed -> _conn c = true -> _recv_chan c = Some n ->
  exists c1,
    _open chantype args c
    = Done (length (futures c)) c1
        [ConnSendPacket
           (Packet.Byte MSG_CHANNEL_OPEN :: Packet.String chantype
            :: Packet.UInt32 n :: Packet.UInt32 (_recv_window c)
            :: Packet.UInt32 (_recv_pktsize c) :: args)]
    /\ futures c1 !! length (futures c) = Some Pending
    /\ _open chantype args c1 = Raise (OSError "Channel already open")
    /\ (exists c2,
          process_open_confirmation send_chan send_window send_pktsize pkt c1
          = Done tt c2 []
          /\ futures c2 !! length (futures c) = Some (Result (VPacket pkt))
          /\ _send_state c2 = open /\ _recv_state c2 = open
          /\ _send_chan c2 = Some send_chan
          /\ _send_window c2 = send_window
          /\ _send_pktsize c2 = send_pktsize
          /\ forall send_chan' send_window' send_pktsize' pkt',
               process_open_confirmation send_chan' send_window'
                 send_pktsize' pkt' c2
               = Raise (DisconnectError DISC_PROTOCOL_ERROR
                          "Channel not being opened"))
    /\ (exists c3,
          process_open_confirmation send_chan send_window send_pktsize pkt
            (cancel (length (futures c)) c1)
          = Done tt c3 []
          /\ futures c3 !! length (futures c) = Some Cancelled
          /\ _send_state c3 = open /\ _recv_state c3 = open).
Proof.
  intros Hst Hco Hch.
  assert (Hnew : (futures c ++ [Pending]) !! length (futures c)
                 = Some Pending).
  { rewrite lookup_app_r by lia. by rewrite Nat.sub_diag. }
  eexists. split.
  { unfold _open, new_future. run_forward. reflexivity. }
  chan_simpl. split; [exact Hnew|]. split; [reflexivity|]. split.
  - eexists. split.
    { unfold process_open_confirmation, cancelled, set_result, settle.
      run_forward. rewrite ?Hnew. run_forward. rewrite ?Hnew. run_forward.
      reflexivity. }
    chan_simpl. split_all; try reflexivity.
    rewrite list_lookup_insert_eq; [done|]. rewrite length_app. simpl. lia.
  - unfold cancel. chan_simpl. rewrite Hnew.
    assert (Hcan : (<[length (futures c) := Cancelled]>
                      (futures c ++ [Pending])) !! length (futures c)
                   = Some Cancelled).
    { rewrite list_lookup_insert_eq; [done|]. rewrite length_app. simpl. lia. }
    eexists. split.
    { unfold process_open_confirmation, cancelled.
      run_forward. rewrite ?Hcan. run_forward. reflexivity. }
    chan_simpl. by split_all.
Qed.

Lemma open_handshake_resolves_waiter_witness :
  exists c1,
    _open chantype_session []
      (SSHChannel_init None 100 32768 1 {[EXTENDED_DATA_STDERR]} ∅)
    = Done 0%nat c1
        [ConnSendPacket
           [Packet.Byte MSG_CHANNEL_OPEN; Packet.String chantype_session;
            Packet.UInt32 1; Packet.UInt32 100; Packet.UInt32 32768]]
    /\ futures c1 !! 0%nat = Some Pending
    /\ _open chantype_session [] c1 = Raise (OSError "Channel already open")
    /\ (exists c2,
          process_open_confirmation 0 4 100 [] c1 = Done tt c2 []
          /\ futures c2 !! 0%nat = Some (Result (VPacket []))
          /\ _send_state c2 = open /\ _recv_state c2 = open
          /\ _send_chan c2 = Some 0
          /\ _send_window c2 = 4
          /\ _send_pktsize c2 = 100
          /\ forall send_chan' send_window' send_pktsize' pkt',
               process_open_confirmation send_chan' send_window'
                 send_pktsize' pkt' c2
               = Raise (DisconnectError DISC_PROTOCOL_ERROR
                          "Channel not being opened"))
    /\ (exists c3,
          process_open_confirmation 0 4 100 [] (cancel 0 c1) = Done tt c3 []
          /\ futures c3 !! 0%nat = Some Cancelled
          /\ _send_state c3 = open /\ _recv_state c3 = open).
Proof.
  apply (open_handshake_resolves_waiter chantype_session [] 0 4 100 []
           (SSHChannel_init None 100 32768 1 {[EXTENDED_DATA_STDERR]} ∅) 1);
    reflexivity.
Defined.

(** ** Teardown *)

(** X10. [_cleanup] is needed once only: a completed cleanup told the
    session [connection_lost] once if there was a session, and took a
    channel with a non-zero number off the connection once if the
    connection was still held, and nothing else; it leaves a channel on
    which a further cleanup, [close()] and [abort()] do nothing at all,
    [write] and [write_eof] raise [BrokenPipeError], and every inbound
    data, EOF, window adjustment or close is a protocol error. *)
Theorem cleanup_runs_once (str_encode : string -> pystr -> encode_result)
    (bytes_decode : string -> bytes -> decode_result)
    (exc : option exn) (c c' : chan) (out : list event) :
  _cleanup exc c = Done tt c' out ->
  out = cleanup_events exc c
  /\ (forall exc', _cleanup exc' c' = Done tt c' [])
  /\ close c' = Done tt c' [] /\ abort c' = Done tt c' []
  /\ (forall data datatype,
        write str_encode data datatype c'
        = Raise (BrokenPipeError "Channel not open for sending"))
  /\ write_eof c' = Raise (BrokenPipeError "Channel not open for sending")
  /\ (forall data,
        _process_data bytes_decode data c'
        = Raise (DisconnectError DISC_PROTOCOL_ERROR
                   "Channel not open for sending"))
  /\ _process_eof bytes_decode c'
     = Raise (DisconnectError DISC_PROTOCOL_ERROR
                "Channel not open for sending")
  /\ (forall adjust,
        _process_window_adjust adjust c'
        = Raise (DisconnectError DISC_PROTOCOL_ERROR "Channel not open"))
  /\ _process_close c'
     = Raise (DisconnectError DISC_PROTOCOL_ERROR "Channel not open").
Proof.
  intros H.
  pose proof (cleanup_Done _ _ _ _ H) as (Hse & Hss & Hrs & How & Hrw & Hcw & _).
  assert (Hout : out = cleanup_events exc c /\ _conn c' = false).
  { unfold _cleanup in H.
    apply bind_Done in H as ([] & c1 & o1 & ? & H1 & H & ->).
    apply bind_Done in H as ([] & c2 & o2 & ? & H2 & H & ->).
    apply bind_Done in H as ([] & c3 & o3 & ? & H3 & H & ->).
    apply bind_Done in H as ([] & c4 & o4 & ? & H4 & H & ->).
    apply bind_Done in H as ([] & c5 & o5 & ? & H5 & H & ->).
    apply bind_Done in H as ([] & c6 & o6 & ? & H6 & H7 & ->).
    unfold modify in H6, H7. injection H6 as <- <-. injection H7 as <- <-.
    apply cleanup_open_waiter_Done in H1 as (Hc1 & -> & _).
    apply cleanup_request_waiters_Done in H2 as (Hc2 & -> & _).
    apply cleanup_close_waiters_Done in H3 as (Hc3 & -> & _).
    assert (Hs3 : _session c3 = _session c)
      by (rewrite Hc3, Hc2, Hc1; reflexivity).
    assert (Hco3 : _conn c3 = _conn c)
      by (rewrite Hc3, Hc2, Hc1; reflexivity).
    assert (Hch3 : _recv_chan c3 = _recv_chan c)
      by (rewrite Hc3, Hc2, Hc1; reflexivity).
    unfold cleanup_events. rewrite <- Hs3, <- Hco3, <- Hch3. cbn [app].
    rewrite app_nil_r.
    assert (H4' : o4 = match _session c3 with
                       | Some _ => [SessConnectionLost exc]
                       | None => []
                       end
                  /\ _conn c4 = _conn c3 /\ _recv_chan c4 = _recv_chan c3).
    { unfold cleanup_session in H4.
      apply bind_Done in H4 as (c0 & c0' & o0 & o7 & H0 & H4 & ->).
      unfold get in H0. injection H0 as <- <- <-.
      destruct (_session c3); inv_run; by split_all. }
    destruct H4' as (-> & Hco4 & Hch4). rewrite <- Hco4, <- Hch4.
    unfold cleanup_conn in H5.
    apply bind_Done in H5 as (c0 & c0' & o0 & o7 & H0 & H5 & ->).
    unfold get in H0. injection H0 as <- <- <-. cbn [app]. chan_simpl.
    destruct (_conn c4) eqn:Hco; unfold when in H5.
    - destruct (_recv_chan c4) as [k|] eqn:Hk.
      + destruct (k =? 0); inv_run; chan_simpl; by split.
      + inv_run; chan_simpl; by split.
    - unfold ret in H5. injection H5 as <- <-. by split. }
  destruct Hout as [Hout Hco].
  split; [exact Hout|].
  assert (Hcl : forall exc', _cleanup exc' c' = Done tt c' []).
  { intros exc'. unfold _cleanup, cleanup_open_waiter,
      cleanup_request_waiters, cleanup_close_waiters, cleanup_session,
      cleanup_conn.
    run_forward. f_equal. clear H Hout.
    destruct c'; simpl in *; by subst. }
  split; [exact Hcl|].
  unfold close, abort, write, write_eof, _process_data, _process_eof,
    _process_window_adjust, _process_close, bind, get, ret.
  rewrite Hss, Hrs. by split_all.
Qed.

Lemma cleanup_runs_once_witness :
  events (_cleanup None) waiting_channel
  = cleanup_events None waiting_channel
  /\ (forall exc', _cleanup exc' torn_down_channel
                   = Done tt torn_down_channel [])
  /\ close torn_down_channel = Done tt torn_down_channel []
  /\ abort torn_down_channel = Done tt torn_down_channel []
  /\ (forall data datatype,
        write no_encoder data datatype torn_down_channel
        = Raise (BrokenPipeError "Channel not open for sending"))
  /\ write_eof torn_down_channel
     = Raise (BrokenPipeError "Channel not open for sending")
  /\ (forall data,
        _process_data utf8_codec data torn_down_channel
        = Raise (DisconnectError DISC_PROTOCOL_ERROR
                   "Channel not open for sending"))
  /\ _process_eof utf8_codec torn_down_channel
     = Raise (DisconnectError DISC_PROTOCOL_ERROR
                "Channel not open for sending")
  /\ (forall adjust,
        _process_window_adjust adjust torn_down_channel
        = Raise (DisconnectError DISC_PROTOCOL_ERROR "Channel not open"))
  /\ _process_close torn_down_channel
     = Raise (DisconnectError DISC_PROTOCOL_ERROR "Channel not open").
Proof.
  apply (cleanup_runs_once no_encoder utf8_codec None waiting_channel
           torn_down_channel (events (_cleanup None) waiting_channel)).
  vm_compute. reflexivity.
Defined.

Lemma cleanup_events_waiting :
  cleanup_events None waiting_channel
  = [SessConnectionLost None; ConnRemoveChannel 1].
Proof. vm_compute. reflexivity. Qed.

(** ** Integers and ASCII text on the wire *)

Lemma int_of_byte_of_int v : int_of_byte (byte_of_int v) = v `mod` 256.
Proof.
  unfold int_of_byte, byte_of_int.
  pose proof (Z.mod_pos_bound v 256 eq_refl) as Hb.
  destruct (Byte.of_N (Z.to_N (v `mod` 256))) as [b|] eqn:Hof.
  - apply Byte.to_of_N in Hof. simpl. rewrite Hof. lia.
  - apply Byte.of_N_None_iff in Hof. lia.
Qed.

Lemma int_of_byte_range b : 0 <= int_of_byte b < 256.
Proof.
  unfold int_of_byte. pose proof (Byte.to_N_bounded b). lia.
Qed.

Lemma int_from_bytes_from acc b :
  foldl (fun acc x => acc * 256 + int_of_byte x) acc b
  = acc * 256 ^ len b + int_from_bytes b.
Proof.
  unfold int_from_bytes. revert acc.
  induction b as [|x b IH]; intros acc; cbn [foldl].
  - unfold len. cbn. lia.
  - rewrite IH, (IH (0 * 256 + int_of_byte x)).
    unfold len. cbn [length]. rewrite Nat2Z.inj_succ, Z.pow_succ_r by lia.
    lia.
Qed.

Lemma digits_big_length n v : length (digits_big n v) = n.
Proof. induction n as [|n IH]; cbn [digits_big length]; congruence. Qed.

(** The digits read back give the integer, modulo the number of
    digits. *)
Lemma int_from_digits_big n v :
  int_from_bytes (digits_big n v) = v `mod` 256 ^ Z.of_nat n.
Proof.
  induction n as [|n IH].
  - cbn. by rewrite Z.mod_1_r.
  - cbn [digits_big]. unfold int_from_bytes. cbn [foldl].
    rewrite int_from_bytes_from, IH, int_of_byte_of_int.
    unfold len. rewrite digits_big_length.
    rewrite Nat2Z.inj_succ, Z.pow_succ_r by lia.
    rewrite (Z.mul_comm 256), (Z.rem_mul_r v (256 ^ Z.of_nat n) 256) by lia.
    lia.
Qed.

Lemma int_round_trip n v b :
  int_to_bytes n v = Some b -> int_from_bytes b = v /\ length b = n.
Proof.
  unfold int_to_bytes.
  destruct ((0 <=? v) && (v <? 256 ^ Z.of_nat n)) eqn:Hr; [|done].
  intros [= <-]. apply andb_prop in Hr as [H0 H1]. reflect_tests.
  rewrite int_from_digits_big, digits_big_length.
  by rewrite Z.mod_small by lia.
Qed.

Lemma ascii_decode_from_encode s b : forall pos,
  ascii_encode s = Encoded b -> ascii_decode_from pos b = Decoded s.
Proof.
  revert b. induction s as [|cp s IH]; intros b pos; cbn [ascii_encode].
  - by intros [= <-].
  - destruct (cp <? 128)%N eqn:Hcp; [|done].
    destruct (Byte.of_N cp) as [x|] eqn:Hx; [|done].
    destruct (ascii_encode s) as [b'|] eqn:Hs; [|done].
    intros [= <-]. cbn [ascii_decode_from].
    rewrite (Byte.to_of_N cp Hx), Hcp, (IH b' (S pos) eq_refl). done.
Qed.

(** ASCII text survives the wire. *)
Lemma ascii_round_trip s b :
  ascii_encode s = Encoded b -> ascii_decode b = Decoded s.
Proof. apply ascii_decode_from_encode. Qed.

Lemma ascii_encode_total s :
  Forall (fun cp => (cp < 128)%N) s -> exists b, ascii_encode s = Encoded b.
Proof.
  induction 1 as [|cp s Hcp _ [b IH]]; cbn [ascii_encode]; [by eexists|].
  assert ((cp <? 128)%N = true) as -> by (by apply N.ltb_lt).
  destruct (Byte.of_N cp) as [x|] eqn:Hx.
  - rewrite IH. by eexists.
  - apply Byte.of_N_None_iff in Hx. lia.
Qed.

(** ** Terminal modes *)

Section TerminalModeCodec.

Variable PTY_OP_END PTY_OP_RESERVED : Z.
Hypothesis end_is_a_byte : 0 <= PTY_OP_END < 256.
Hypothesis reserved_in_a_byte : PTY_OP_RESERVED <= 256.

Lemma digits_big_1 v : digits_big 1 v = [byte_of_int v].
Proof. cbn [digits_big]. by rewrite Z.pow_0_r, Z.div_1_r. Qed.

Lemma encode_modes_loop_valid items : forall modes,
  Forall (valid_mode PTY_OP_END PTY_OP_RESERVED) items ->
  encode_modes_loop PTY_OP_END PTY_OP_RESERVED items modes
  = inr (modes ++ concat (mode_bytes <$> items)).
Proof.
  induction items as [|[mode value] items IH]; intros modes Hv;
    cbn [encode_modes_loop fmap list_fmap concat].
  - by rewrite app_nil_r.
  - apply Forall_cons in Hv as [[Hm Hval] Hv]. cbn [fst snd] in Hm, Hval.
    assert ((mode <=? PTY_OP_END) || (PTY_OP_RESERVED <=? mode) = false)
      as ->.
    { apply orb_false_intro; [apply Z.leb_gt|apply Z.leb_gt]; lia. }
    unfold Wire.Byte, Wire.UInt32, int_to_bytes.
    assert ((0 <=? mode) && (mode <? 256 ^ Z.of_nat 1) = true) as ->.
    { apply andb_true_intro. split; [apply Z.leb_le|apply Z.ltb_lt]; lia. }
    assert ((0 <=? value) && (value <? 256 ^ Z.of_nat 4) = true) as ->.
    { apply andb_true_intro.
      split; [apply Z.leb_le|apply Z.ltb_lt]; [lia|].
      change (256 ^ Z.of_nat 4) with (2 ^ 32). lia. }
    rewrite IH by done. unfold mode_bytes. cbn [fst snd].
    by rewrite <- !app_assoc.
Qed.

Lemma decode_mode_bytes items : forall rest term_modes,
  Forall (valid_mode PTY_OP_END PTY_OP_RESERVED) items ->
  decode_modes_loop PTY_OP_END PTY_OP_RESERVED
    (concat (mode_bytes <$> items) ++ rest) term_modes
  = decode_modes_loop PTY_OP_END PTY_OP_RESERVED rest
      (foldl (fun acc item => <[item.1 := item.2]> acc) term_modes items).
Proof.
  induction items as [|[mode value] items IH]; intros rest term_modes Hv;
    cbn [fmap list_fmap concat foldl app]; [done|].
  apply Forall_cons in Hv as [[Hm Hval] Hv]. cbn [fst snd] in Hm, Hval |- *.
  unfold mode_bytes. cbn [fst snd]. rewrite digits_big_1.
  pose proof (int_from_digits_big 4 value) as Hvalue.
  change (256 ^ Z.of_nat 4) with (2 ^ 32) in Hvalue.
  rewrite Z.mod_small in Hvalue by lia.
  cbn [digits_big app] in Hvalue |- *. cbn [decode_modes_loop].
  rewrite int_of_byte_of_int, Z.mod_small by lia.
  assert ((mode =? PTY_OP_END) || (PTY_OP_RESERVED <=? mode) = false) as ->.
  { apply orb_false_intro; [apply Z.eqb_neq|apply Z.leb_gt]; lia. }
  rewrite Hvalue. by apply IH.
Qed.

Lemma foldl_insert_union (items : list (Z * Z)) : forall old : gmap Z Z,
  NoDup items.*1 ->
  foldl (fun acc item => <[item.1 := item.2]> acc) old items
  = list_to_map items ∪ old.
Proof.
  induction items as [|[mode value] items IH]; intros old Hnd.
  - simpl. by rewrite (left_id_L ∅ (∪)).
  - rewrite fmap_cons in Hnd. apply NoDup_cons in Hnd as [Hnew Hnd].
    cbn [foldl]. rewrite IH by done. cbn [fst snd].
    rewrite list_to_map_cons, <- insert_union_l.
    symmetry. apply insert_union_r. by apply not_elem_of_list_to_map_1.
Qed.

(** The modes string [create] builds for a dictionary of valid modes is
    taken apart into the same dictionary, on top of the modes the server
    had. *)
Lemma term_modes_round_trip (term_modes old : gmap Z Z)
    (items : list (Z * Z)) :
  items ≡ₚ map_to_list term_modes ->
  (forall mode value, term_modes !! mode = Some value ->
     valid_mode PTY_OP_END PTY_OP_RESERVED (mode, value)) ->
  exists modes,
    encode_modes PTY_OP_END PTY_OP_RESERVED items = inr modes
    /\ decode_modes_loop PTY_OP_END PTY_OP_RESERVED modes old
       = inr (term_modes ∪ old)
    /\ length modes = (5 * length items + 1)%nat.
Proof.
  intros Hperm Hvalid.
  assert (Hv : Forall (valid_mode PTY_OP_END PTY_OP_RESERVED) items).
  { apply Forall_forall. intros [mode value] Hin. apply Hvalid.
    apply elem_of_map_to_list. by rewrite <- Hperm. }
  assert (Hnd : NoDup items.*1).
  { rewrite Hperm. apply NoDup_fst_map_to_list. }
  assert (Hmap : list_to_map items = term_modes).
  { rewrite <- (list_to_map_to_list term_modes).
    by apply list_to_map_proper. }
  unfold encode_modes. rewrite encode_modes_loop_valid by done.
  unfold Wire.Byte, int_to_bytes.
  assert ((0 <=? PTY_OP_END) && (PTY_OP_END <? 256 ^ Z.of_nat 1) = true)
    as ->.
  { apply andb_true_intro. split; [apply Z.leb_le|apply Z.ltb_lt]; lia. }
  rewrite digits_big_1. cbn [app]. eexists. split; [reflexivity|]. split.
  - rewrite decode_mode_bytes by done. cbn [decode_modes_loop].
    rewrite int_of_byte_of_int, Z.mod_small, Z.eqb_refl by lia.
    cbn [orb]. by rewrite foldl_insert_union, Hmap.
  - rewrite length_app. cbn [length].
    assert (length (concat (mode_bytes <$> items)) = (5 * length items)%nat)
      as ->; [|lia].
    clear. induction items as [|item items IH]; [done|].
    cbn [fmap list_fmap concat]. rewrite length_app, IH.
    unfold mode_bytes. rewrite length_app, !digits_big_length.
    cbn [length]. lia.
Qed.

End TerminalModeCodec.

Section TerminalRequest.

Variable PTY_OP_END PTY_OP_RESERVED : Z.
Variable conn : SSHServerChannel.connection.
Variable session : SSHServerChannel.server_session.

(** X11. A terminal request survives the wire: the arguments the
    client's [create] puts into its [pty-req] request for a non-empty
    ASCII terminal type, a terminal size of none, two or four unsigned
    32-bit integers and a dictionary of valid modes with 32-bit values
    make the server's handler, when the key and the certificate permit a
    terminal, ask the session for that terminal type, that size with the
    missing pixel sizes zero, and exactly those modes on top of the ones
    the channel had; the handler returns the session's answer and the
    channel's getters report the terminal. *)
Theorem pty_request_reaches_session (term_type : pystr)
    (term_size : list Z) (term_modes : gmap Z Z) (items : list (Z * Z))
    (s : SSHServerChannel.fields) :
  0 <= PTY_OP_END < 256 -> PTY_OP_RESERVED <= 256 ->
  term_type <> [] -> Forall (fun cp => (cp < 128)%N) term_type ->
  length term_size ∈ [0; 2; 4]%nat ->
  Forall (fun v => 0 <= v < 2 ^ 32) term_size ->
  items ≡ₚ map_to_list term_modes ->
  (forall mode value, term_modes !! mode = Some value ->
     valid_mode PTY_OP_END PTY_OP_RESERVED (mode, value)) ->
  SSHServerChannel.check_key_permission conn "pty" = true ->
  SSHServerChannel.check_certificate_permission conn "pty" = true ->
  exists t width height pixwidth pixheight modes s',
    pty_req_args PTY_OP_END PTY_OP_RESERVED term_type term_size items
    = inr [Packet.String t; Packet.UInt32 width; Packet.UInt32 height;
           Packet.UInt32 pixwidth; Packet.UInt32 pixheight;
           Packet.String modes]
    /\ (width, height, pixwidth, pixheight)
       = (default 0 (term_size !! 0%nat), default 0 (term_size !! 1%nat),
          default 0 (term_size !! 2%nat), default 0 (term_size !! 3%nat))
    /\ SSHServerChannel._process_pty_req_request PTY_OP_END PTY_OP_RESERVED
         conn session t width height pixwidth pixheight modes s
       = Handled
           (SSHServerChannel.pty_requested_answer session term_type
              (width, height, pixwidth, pixheight)
              (term_modes ∪ SSHServerChannel._term_modes s))
           s'
           [SSHServerChannel.pty_requested term_type
              (width, height, pixwidth, pixheight)
              (term_modes ∪ SSHServerChannel._term_modes s)]
    /\ SSHServerChannel.get_terminal_type s' = Some term_type
    /\ SSHServerChannel.get_terminal_size s'
       = (width, height, pixwidth, pixheight)
    /\ (forall mode value, term_modes !! mode = Some value ->
          SSHServerChannel.get_terminal_mode mode s' = Some value)
    /\ (forall mode, term_modes !! mode = None ->
          SSHServerChannel.get_terminal_mode mode s'
          = SSHServerChannel.get_terminal_mode mode s).
Proof.
  intros Hend Hres _ Hascii Hsize Hfit Hperm Hvalid Hkey Hcert.
  destruct (ascii_encode_total _ Hascii) as [t Ht].
  destruct (term_modes_round_trip PTY_OP_END PTY_OP_RESERVED Hend Hres
              term_modes (SSHServerChannel._term_modes s) items Hperm Hvalid)
    as (modes & Henc & Hdec & _).
  assert (Hwire : forall v, 0 <= v < 2 ^ 32 ->
            Wire.UInt32 v = Some (digits_big 4 v)).
  { intros v Hv. unfold Wire.UInt32, int_to_bytes.
    change (256 ^ Z.of_nat 4) with (2 ^ 32).
    destruct (0 <=? v) eqn:H0, (v <? 2 ^ 32) eqn:H1; reflect_tests;
      try lia; done. }
  assert (Hshape : exists width height pixwidth pixheight,
            pty_term_size term_size
            = inr (width, height, pixwidth, pixheight)
            /\ (width, height, pixwidth, pixheight)
               = (default 0 (term_size !! 0%nat),
                  default 0 (term_size !! 1%nat),
                  default 0 (term_size !! 2%nat),
                  default 0 (term_size !! 3%nat))
            /\ Forall (fun v => 0 <= v < 2 ^ 32)
                 [width; height; pixwidth; pixheight]).
  { destruct term_size as [|w [|h [|pw [|ph [|? ?]]]]]; cbn [length] in Hsize;
      try (eexists _, _, _, _; split_all; [reflexivity..|];
           repeat (apply Forall_cons in Hfit as [? Hfit]);
           repeat constructor; (done || lia));
      repeat (apply elem_of_cons in Hsize as [Hsize|Hsize]; [discriminate|]);
      by apply elem_of_nil in Hsize. }
  destruct Hshape
    as (width & height & pixwidth & pixheight & Hsz & Hdef & Hall).
  apply Forall_cons in Hall as [Hw Hall].
  apply Forall_cons in Hall as [Hh Hall].
  apply Forall_cons in Hall as [Hpw Hall].
  apply Forall_cons in Hall as [Hph _].
  exists t, width, height, pixwidth, pixheight, modes. eexists.
  split.
  { unfold pty_req_args. rewrite Ht, Hsz, Henc.
    by rewrite (Hwire _ Hw), (Hwire _ Hh), (Hwire _ Hpw), (Hwire _ Hph). }
  split; [exact Hdef|]. split.
  - unfold SSHServerChannel._process_pty_req_request.
    rewrite (ascii_round_trip _ _ Ht), Hkey, Hcert. cbn [negb orb].
    cbn [SSHServerChannel._term_modes]. rewrite Hdec. reflexivity.
  - cbn. split_all; try done.
    + intros mode value Hm. by apply lookup_union_Some_l.
    + intros mode Hm. by apply lookup_union_r.
Qed.

End TerminalRequest.

Lemma pty_request_reaches_session_witness :
  exists t width height pixwidth pixheight modes s',
    pty_req_args rfc_PTY_OP_END rfc_PTY_OP_RESERVED xterm [80; 24]
      (map_to_list example_modes)
    = inr [Packet.String t; Packet.UInt32 width; Packet.UInt32 height;
           Packet.UInt32 pixwidth; Packet.UInt32 pixheight;
           Packet.String modes]
    /\ (width, height, pixwidth, pixheight) = (80, 24, 0, 0)
    /\ SSHServerChannel._process_pty_req_request rfc_PTY_OP_END
         rfc_PTY_OP_RESERVED permissive accepting t width height pixwidth
         pixheight modes (SSHServerChannel.init permissive)
       = Handled true s'
           [SSHServerChannel.pty_requested xterm
              (width, height, pixwidth, pixheight)
              (example_modes
               ∪ SSHServerChannel._term_modes
                   (SSHServerChannel.init permissive))]
    /\ SSHServerChannel.get_terminal_type s' = Some xterm
    /\ SSHServerChannel.get_terminal_size s'
       = (width, height, pixwidth, pixheight)
    /\ (forall mode value, example_modes !! mode = Some value ->
          SSHServerChannel.get_terminal_mode mode s' = Some value)
    /\ (forall mode, example_modes !! mode = None ->
          SSHServerChannel.get_terminal_mode mode s'
          = SSHServerChannel.get_terminal_mode mode
              (SSHServerChannel.init permissive)).
Proof.
  apply (pty_request_reaches_session rfc_PTY_OP_END rfc_PTY_OP_RESERVED
           permissive accepting xterm [80; 24] example_modes
           (map_to_list example_modes) (SSHServerChannel.init permissive)).
  - vm_compute. split; [discriminate|reflexivity].
  - vm_compute. discriminate.
  - discriminate.
  - repeat constructor.
  - set_solver.
  - repeat constructor; lia.
  - reflexivity.
  - intros mode value Hm. unfold example_modes in Hm.
    apply lookup_insert_Some in Hm as [[<- <-]|[_ Hm]];
      [vm_compute; by split_all|].
    apply lookup_insert_Some in Hm as [[<- <-]|[_ Hm]];
      [vm_compute; by split_all|].
    apply lookup_singleton_Some in Hm as [<- <-]. vm_compute. by split_all.
  - reflexivity.
  - reflexivity.
Defined.

(** A terminal size that is not made of unsigned 32-bit integers sends
    no request: [create] raises [OverflowError]. *)
Lemma pty_request_size_overflow :
  pty_req_args rfc_PTY_OP_END rfc_PTY_OP_RESERVED xterm [2 ^ 40; -5]
    (map_to_list example_modes)
  = inl OverflowError.
Proof. vm_compute. reflexivity. Qed.

Lemma int_from_bytes_4_range b1 b2 b3 b4 :
  0 <= int_from_bytes [b1; b2; b3; b4] < 2 ^ 32.
Proof.
  unfold int_from_bytes. cbn [foldl].
  pose proof (int_of_byte_range b1). pose proof (int_of_byte_range b2).
  pose proof (int_of_byte_range b3). pose proof (int_of_byte_range b4).
  change (2 ^ 32) with 4294967296. lia.
Qed.

Section TerminalModeDecoder.

Variable PTY_OP_END PTY_OP_RESERVED : Z.

(** What the decoding loop can store: an opcode other than [PTY_OP_END]
    below [PTY_OP_RESERVED], with a 32-bit value. *)
Lemma decode_modes_loop_stores n : forall modes old term_modes,
  (length modes <= n)%nat ->
  decode_modes_loop PTY_OP_END PTY_OP_RESERVED modes old = inr term_modes ->
  forall mode,
    term_modes !! mode = old !! mode
    \/ exists value,
         term_modes !! mode = Some value /\ 0 <= value < 2 ^ 32
         /\ mode <> PTY_OP_END /\ mode < PTY_OP_RESERVED /\ 0 <= mode < 256.
Proof.
  induction n as [|n IH]; intros modes old term_modes Hlen.
  - destruct modes; [|cbn in Hlen; lia]. cbn. intros [= <-]. by left.
  - destruct modes as [|m rest]; cbn [decode_modes_loop].
    { intros [= <-]. by left. }
    destruct ((int_of_byte m =? PTY_OP_END)
              || (PTY_OP_RESERVED <=? int_of_byte m)) eqn:Hstop.
    { intros [= <-]. by left. }
    apply orb_false_elim in Hstop as [Hne Hlt]. reflect_tests.
    destruct rest as [|b1 [|b2 [|b3 [|b4 rest]]]]; try discriminate.
    intros Hrun mode. cbn [length] in Hlen.
    apply IH with (mode := mode) in Hrun; [|lia].
    destruct Hrun as [Hsame|Hnew]; [|by right].
    destruct (decide (mode = int_of_byte m)) as [->|Hother].
    + right. rewrite lookup_insert_eq in Hsame. eexists.
      split; [exact Hsame|].
      pose proof (int_from_bytes_4_range b1 b2 b3 b4).
      pose proof (int_of_byte_range m). by split_all; try lia.
    + left. by rewrite lookup_insert_ne in Hsame.
Qed.

Lemma decode_modes_loop_error n : forall modes old e,
  (length modes <= n)%nat ->
  decode_modes_loop PTY_OP_END PTY_OP_RESERVED modes old = inl e ->
  e = DisconnectError DISC_PROTOCOL_ERROR "Invalid pty modes string".
Proof.
  induction n as [|n IH]; intros modes old e Hlen.
  - destruct modes; [|cbn in Hlen; lia]. discriminate.
  - destruct modes as [|m rest]; cbn [decode_modes_loop]; [discriminate|].
    destruct ((int_of_byte m =? PTY_OP_END)
              || (PTY_OP_RESERVED <=? int_of_byte m)); [discriminate|].
    destruct rest as [|b1 [|b2 [|b3 [|b4 rest]]]]; try (by intros [= <-]).
    cbn [length] in Hlen. apply IH. lia.
Qed.

(** X12. Whatever modes string the peer sends, the decoding loop of the
    [pty-req] handler either raises the protocol error ['Invalid pty
    modes string'] or changes the terminal modes only at opcodes other
    than [PTY_OP_END] below [PTY_OP_RESERVED], to 32-bit values; it
    stops at the first [PTY_OP_END] or reserved opcode and ignores what
    follows, and an opcode followed by fewer than four bytes is the
    error. *)
Theorem pty_modes_decoder_is_safe (modes : bytes) (old : gmap Z Z) :
  match decode_modes_loop PTY_OP_END PTY_OP_RESERVED modes old with
  | inr term_modes =>
    forall mode,
      term_modes !! mode = old !! mode
      \/ exists value,
           term_modes !! mode = Some value /\ 0 <= value < 2 ^ 32
           /\ mode <> PTY_OP_END /\ mode < PTY_OP_RESERVED
           /\ 0 <= mode < 256
  | inl e => e = DisconnectError DISC_PROTOCOL_ERROR "Invalid pty modes string"
  end
  /\ (forall m rest,
        int_of_byte m = PTY_OP_END \/ PTY_OP_RESERVED <= int_of_byte m ->
        decode_modes_loop PTY_OP_END PTY_OP_RESERVED (m :: rest) old
        = inr old)
  /\ (forall m rest,
        int_of_byte m <> PTY_OP_END -> int_of_byte m < PTY_OP_RESERVED ->
        (length rest < 4)%nat ->
        decode_modes_loop PTY_OP_END PTY_OP_RESERVED (m :: rest) old
        = inl (DisconnectError DISC_PROTOCOL_ERROR
                 "Invalid pty modes string")).
Proof.
  split_all.
  - destruct (decode_modes_loop PTY_OP_END PTY_OP_RESERVED modes old)
      as [e|term_modes] eqn:Hrun.
    + by eapply decode_modes_loop_error.
    + by eapply decode_modes_loop_stores.
  - intros m rest Hstop. cbn [decode_modes_loop].
    assert ((int_of_byte m =? PTY_OP_END)
            || (PTY_OP_RESERVED <=? int_of_byte m) = true) as ->; [|done].
    apply orb_true_intro.
    destruct Hstop; [left; by apply Z.eqb_eq|right; by apply Z.leb_le].
  - intros m rest Hne Hlt Hshort. cbn [decode_modes_loop].
    assert ((int_of_byte m =? PTY_OP_END)
            || (PTY_OP_RESERVED <=? int_of_byte m) = false) as ->.
    { apply orb_false_intro; [by apply Z.eqb_neq|by apply Z.leb_gt]. }
    destruct rest as [|b1 [|b2 [|b3 [|b4 rest]]]]; try done.
    cbn [length] in Hshort. lia.
Qed.

End TerminalModeDecoder.

(** ** Server requests *)

Section ServerRequests.

Variable PTY_OP_END PTY_OP_RESERVED : Z.
Variable conn : SSHServerChannel.connection.
Variable session : SSHServerChannel.server_session.

(** X13. The [pty-req] handler never gives a terminal the key or the
    certificate does not permit: without the permission it returns
    false, the session is not asked, and the terminal size and modes
    stay as they were.  Whatever the request, the handler either
    returns, having asked the session at most once, or raises one of
    its two protocol errors, ['Invalid pty request'] for a terminal
    type that is not ASCII. *)
Theorem pty_request_needs_permission (term_type : bytes)
    (width height pixwidth pixheight : Z) (modes : bytes)
    (s : SSHServerChannel.fields) :
  match SSHServerChannel._process_pty_req_request PTY_OP_END PTY_OP_RESERVED
          conn session term_type width height pixwidth pixheight modes s with
  | Handled result s' calls =>
    (exists t, ascii_decode term_type = Decoded t
               /\ SSHServerChannel.get_terminal_type s' = Some t)
    /\ if SSHServerChannel.check_key_permission conn "pty"
          && SSHServerChannel.check_certificate_permission conn "pty"
       then
         SSHServerChannel.get_terminal_size s'
         = (width, height, pixwidth, pixheight)
         /\ exists t,
              calls = [SSHServerChannel.pty_requested t
                         (width, height, pixwidth, pixheight)
                         (SSHServerChannel._term_modes s')]
              /\ result
                 = SSHServerChannel.pty_requested_answer session t
                     (width, height, pixwidth, pixheight)
                     (SSHServerChannel._term_modes s')
       else
         result = false /\ calls = []
         /\ SSHServerChannel.get_terminal_size s'
            = SSHServerChannel.get_terminal_size s
         /\ SSHServerChannel._term_modes s' = SSHServerChannel._term_modes s
  | Failed e =>
    (e = DisconnectError DISC_PROTOCOL_ERROR "Invalid pty request"
     /\ forall t, ascii_decode term_type <> Decoded t)
    \/ e = DisconnectError DISC_PROTOCOL_ERROR "Invalid pty modes string"
  end.
Proof.
  unfold SSHServerChannel._process_pty_req_request.
  destruct (ascii_decode term_type) as [t|pos reason|] eqn:Hdec;
    [|by left|by left].
  destruct (SSHServerChannel.check_key_permission conn "pty");
    destruct (SSHServerChannel.check_certificate_permission conn "pty");
    cbn [negb orb andb]; try (split; [by eexists|]; by split_all).
  cbn [SSHServerChannel._term_modes].
  destruct (decode_modes_loop PTY_OP_END PTY_OP_RESERVED modes
              (SSHServerChannel._term_modes s)) as [e|term_modes] eqn:Hrun.
  - right. by eapply decode_modes_loop_error.
  - split; [by eexists|]. split; [done|]. by eexists.
Qed.

(** X14. A forced command always wins: when the certificate has a
    [force-command] option, or it has none and the key has a [command]
    option, every way of starting the session ([shell], [exec] and
    [subsystem] requests that decode) asks the session to run the forced
    command and records it as the channel's command, whatever the
    client asked for, the certificate's option going before the key's;
    and no [exec] or [subsystem] request makes the session run anything
    else. *)
Theorem forced_command_overrides_request (forced : pystr)
    (s : SSHServerChannel.fields) :
  SSHServerChannel.get_certificate_option_force_command conn = Some forced
  \/ (SSHServerChannel.get_certificate_option_force_command conn = None
      /\ SSHServerChannel.get_key_option_command conn = Some forced) ->
  (forall command subsystem,
     exists s',
       SSHServerChannel._start_session conn session command subsystem s
       = Handled
           (SSHServerChannel.exec_requested_answer session forced) s'
           [SSHServerChannel.exec_requested forced]
       /\ SSHServerChannel.get_command s' = Some forced
       /\ SSHServerChannel.get_subsystem s'
          = SSHServerChannel.get_subsystem s)
  /\ SSHServerChannel._process_shell_request conn session s
     = SSHServerChannel._start_session conn session None None s
  /\ (forall command,
        match SSHServerChannel._process_exec_request conn session command s
        with
        | Handled result _ calls =>
          (calls = [SSHServerChannel.exec_requested forced]
           /\ exists text, Utf8.decode command = Decoded text)
          \/ (calls = [] /\ result = false)
        | Failed _ => False
        end)
  /\ (forall subsystem,
        match SSHServerChannel._process_subsystem_request conn session
                subsystem s with
        | Handled result _ calls =>
          (calls = [SSHServerChannel.exec_requested forced]
           /\ exists text, ascii_decode subsystem = Decoded text)
          \/ (calls = [] /\ result = false)
        | Failed _ => False
        end).
Proof.
  intros Hforced.
  assert (Hstart : forall command subsystem,
    SSHServerChannel._start_session conn session command subsystem s
    = Handled
        (SSHServerChannel.exec_requested_answer session forced)
        {| SSHServerChannel._env := SSHServerChannel._env s;
           SSHServerChannel._command := Some forced;
           SSHServerChannel._subsystem := SSHServerChannel._subsystem s;
           SSHServerChannel._term_type := SSHServerChannel._term_type s;
           SSHServerChannel._term_size := SSHServerChannel._term_size s;
           SSHServerChannel._term_modes := SSHServerChannel._term_modes s |}
        [SSHServerChannel.exec_requested forced]).
  { intros command subsystem. unfold SSHServerChannel._start_session.
    destruct Hforced as [->|[-> ->]]; reflexivity. }
  split_all.
  - intros command subsystem. eexists. by rewrite Hstart.
  - reflexivity.
  - intros command. unfold SSHServerChannel._process_exec_request.
    destruct (Utf8.decode command) as [text| |];
      [rewrite Hstart; left; by eauto| |]; by right.
  - intros subsystem. unfold SSHServerChannel._process_subsystem_request.
    destruct (ascii_decode subsystem) as [text| |];
      [rewrite Hstart; left; by eauto| |]; by right.
Qed.

End ServerRequests.

Lemma forced_command_overrides_request_witness :
  (forall command subsystem,
     exists s',
       SSHServerChannel._start_session forcing accepting command subsystem
         (SSHServerChannel.init forcing)
       = Handled
           (SSHServerChannel.exec_requested_answer accepting [120%N]) s'
           [SSHServerChannel.exec_requested [120%N]]
       /\ SSHServerChannel.get_command s' = Some [120%N]
       /\ SSHServerChannel.get_subsystem s'
          = SSHServerChannel.get_subsystem (SSHServerChannel.init forcing))
  /\ SSHServerChannel._process_shell_request forcing accepting
       (SSHServerChannel.init forcing)
     = SSHServerChannel._start_session forcing accepting None None
         (SSHServerChannel.init forcing)
  /\ (forall command,
        match SSHServerChannel._process_exec_request forcing accepting
                command (SSHServerChannel.init forcing) with
        | Handled result _ calls =>
          (calls = [SSHServerChannel.exec_requested [120%N]]
           /\ exists text, Utf8.decode command = Decoded text)
          \/ (calls = [] /\ result = false)
        | Failed _ => False
        end)
  /\ (forall subsystem,
        match SSHServerChannel._process_subsystem_request forcing accepting
                subsystem (SSHServerChannel.init forcing) with
        | Handled result _ calls =>
          (calls = [SSHServerChannel.exec_requested [120%N]]
           /\ exists text, ascii_decode subsystem = Decoded text)
          \/ (calls = [] /\ result = false)
        | Failed _ => False
        end).
Proof.
  apply (forced_command_overrides_request forcing accepting [120%N]
           (SSHServerChannel.init forcing)).
  left. reflexivity.
Defined.

(** ** Reporting how the process ended *)

Lemma land_0xff status : Z.land status 0xff = status `mod` 256.
Proof. change 0xff with (Z.ones 8). by rewrite Z.land_ones. Qed.

(** X15. [exit(status)] reports the status and then closes: on a
    channel that can send and has not been closed it sends one
    [exit-status] request that wants no reply and carries
    [status mod 256], then does what [close()] does, so that the close
    goes out at once or waits behind the buffered data, and a second
    [exit] raises [OSError]; the client's handler stores exactly that
    value as the exit status, a number from 0 to 255.  On a channel
    whose send side is not open, [exit] raises [OSError] and sends
    nothing. *)
Theorem exit_reports_status_then_closes (status : Z) (c : chan) :
  sendable c -> not_closing c ->
  (exists n c' out,
     _send_chan c = Some n
     /\ SSHServerChannel.exit status c
        = Done tt c'
            (ConnSendPacket
               [Packet.Byte MSG_CHANNEL_REQUEST; Packet.UInt32 n;
                Packet.String (ascii_bytes "exit-status");
                Packet.Boolean false; Packet.UInt32 (status `mod` 256)]
             :: out)
     /\ close c = Done tt c' out
     /\ close_requested c'
     /\ channel_closes out
        = (if bool_decide (_send_state c' = close_sent) then 1 else 0)%nat
     /\ (forall status',
           SSHServerChannel.exit status' c' = Raise (OSError "Channel not open")))
  /\ (forall s,
        exists s',
          SSHClientChannel._process_exit_status_request (status `mod` 256) s
          = Handled true s'
              [SSHClientChannel.exit_status_received (status `mod` 256)]
          /\ SSHClientChannel.get_exit_status s' = Some (status `mod` 256)
          /\ 0 <= status `mod` 256 < 256).
Proof.
  intros Hsend Hopen. split.
  - pose proof Hsend as ((Hco & [n Hch] & _) & _).
    destruct (not_closing_close c Hsend Hopen)
      as (c' & out & Hclose & _ & Hreq & Hcount).
    exists n, c', out. split; [exact Hch|].
    assert (Hexit : SSHServerChannel.exit status c
                    = Done tt c'
                        (ConnSendPacket
                           [Packet.Byte MSG_CHANNEL_REQUEST; Packet.UInt32 n;
                            Packet.String (ascii_bytes "exit-status");
                            Packet.Boolean false;
                            Packet.UInt32 (status `mod` 256)] :: out)).
    { unfold SSHServerChannel.exit, _send_request. rewrite land_0xff.
      destruct Hopen as [Hst|[Hst|Hst]]; run_forward; rewrite ?Hclose;
        reflexivity. }
    split; [exact Hexit|]. split; [exact Hclose|]. split; [exact Hreq|].
    split; [exact Hcount|].
    intros status'. unfold SSHServerChannel.exit, bind, get.
    destruct Hreq as [[-> _]|[-> _]]; reflexivity.
  - intros s. eexists.
    unfold SSHClientChannel._process_exit_status_request.
    rewrite land_0xff, Z.mod_mod by lia.
    split; [reflexivity|]. split; [reflexivity|].
    apply Z.mod_pos_bound. lia.
Qed.

Lemma exit_reports_status_then_closes_witness :
  (exists n c' out,
     _send_chan limited_channel = Some n
     /\ SSHServerChannel.exit 259 limited_channel
        = Done tt c'
            (ConnSendPacket
               [Packet.Byte MSG_CHANNEL_REQUEST; Packet.UInt32 n;
                Packet.String (ascii_bytes "exit-status");
                Packet.Boolean false; Packet.UInt32 (259 `mod` 256)]
             :: out)
     /\ close limited_channel = Done tt c' out
     /\ close_requested c'
     /\ channel_closes out
        = (if bool_decide (_send_state c' = close_sent) then 1 else 0)%nat
     /\ (forall status',
           SSHServerChannel.exit status' c' = Raise (OSError "Channel not open")))
  /\ (forall s,
        exists s',
          SSHClientChannel._process_exit_status_request (259 `mod` 256) s
          = Handled true s'
              [SSHClientChannel.exit_status_received (259 `mod` 256)]
          /\ SSHClientChannel.get_exit_status s' = Some (259 `mod` 256)
          /\ 0 <= 259 `mod` 256 < 256).
Proof.
  apply (exit_reports_status_then_closes 259 limited_channel).
  - repeat split; try (vm_compute; reflexivity);
      try (vm_compute; eexists; reflexivity).
    vm_compute; discriminate.
  - left. vm_compute. reflexivity.
Defined.

(** [exit] on a channel whose send side is closing or was never opened. *)
Lemma exit_not_open status c :
  ~ not_closing c ->
  SSHServerChannel.exit status c = Raise (OSError "Channel not open").
Proof.
  intros Hn. unfold SSHServerChannel.exit, bind, get.
  destruct (_send_state c) eqn:Hst; try reflexivity;
    exfalso; apply Hn; unfold not_closing; auto.
Qed.

(** X16. The exit status a client channel reports is the one of the
    last [exit-status] request, taken modulo 256, however many exit
    requests of either kind the server sent and in whatever order; only
    when there was none is it -1 for an exit signal, and [None] when
    there was no exit request at all.  An exit signal whose names or
    message do not decode is a protocol error. *)
Theorem exit_status_goes_before_signal (rs : list exit_request)
    (s : SSHClientChannel.fields) :
  process_exit_requests rs SSHClientChannel.init = Some s ->
  SSHClientChannel.get_exit_status s
  = match last_exit_status rs with
    | Some status => Some (status `mod` 256)
    | None => if has_exit_signal rs then Some (-1) else None
    end
  /\ (forall status, SSHClientChannel.get_exit_status s = Some status ->
        -1 <= status < 256)
  /\ (has_exit_signal rs = true ->
      is_Some (SSHClientChannel.get_exit_signal s)).
Proof.
  assert (Hgen : forall rs s0 s,
    process_exit_requests rs s0 = Some s ->
    SSHClientChannel._exit_status s
    = match last_exit_status rs with
      | Some status => Some (status `mod` 256)
      | None => SSHClientChannel._exit_status s0
      end
    /\ (is_Some (SSHClientChannel._exit_signal s)
        <-> has_exit_signal rs = true
            \/ is_Some (SSHClientChannel._exit_signal s0))).
  { clear. induction rs as [|r rs IH]; intros s0 s; cbn.
    - intros [= <-]. split; [done|]. split; [by right|].
      by intros [?|?].
    - destruct r as [status|signal core msg lang]; cbn.
      + intros H. apply IH in H as [Hst Hsig]. cbn in Hst, Hsig.
        rewrite land_0xff in Hst. split.
        * by destruct (last_exit_status rs).
        * done.
      + unfold SSHClientChannel._process_exit_signal_request.
        destruct (ascii_decode signal); try done.
        destruct (Utf8.decode msg); try done.
        destruct (ascii_decode lang); try done.
        intros H. apply IH in H as [Hst Hsig]. cbn in Hst, Hsig.
        split; [by destruct (last_exit_status rs)|].
        rewrite Hsig. split; [by left|]. intros _. by right. }
  intros H. apply Hgen in H as [Hst Hsig].
  unfold SSHClientChannel.get_exit_status, SSHClientChannel.get_exit_signal.
  rewrite Hst. cbn [SSHClientChannel.init SSHClientChannel._exit_status
                    SSHClientChannel._exit_signal] in *.
  assert (Hsig' : is_Some (SSHClientChannel._exit_signal s)
                  <-> has_exit_signal rs = true).
  { rewrite Hsig. split; [intros [?|[? ?]]; done|by left]. }
  split_all.
  - destruct (last_exit_status rs); [done|].
    destruct (has_exit_signal rs) eqn:Hhas.
    + destruct (proj2 Hsig' eq_refl) as [sig ->]. done.
    + destruct (SSHClientChannel._exit_signal s) eqn:Hs; [|done].
      assert (false = true) by (apply Hsig'; by eexists). done.
  - intros status. destruct (last_exit_status rs) as [st|].
    + intros [= <-]. pose proof (Z.mod_pos_bound st 256). lia.
    + destruct (SSHClientChannel._exit_signal s); [|done].
      intros [= <-]. lia.
  - apply Hsig'.
Qed.

Lemma exit_status_goes_before_signal_witness :
  exists s,
    process_exit_requests
      [ExitStatusRequest 259; ExitSignalRequest SEGV true [] []]
      SSHClientChannel.init = Some s
    /\ SSHClientChannel.get_exit_status s
       = match last_exit_status
                 [ExitStatusRequest 259; ExitSignalRequest SEGV true [] []]
         with
         | Some status => Some (status `mod` 256)
         | None =>
           if has_exit_signal
                [ExitStatusRequest 259; ExitSignalRequest SEGV true [] []]
           then Some (-1) else None
         end
    /\ (forall status, SSHClientChannel.get_exit_status s = Some status ->
          -1 <= status < 256)
    /\ (has_exit_signal
          [ExitStatusRequest 259; ExitSignalRequest SEGV true [] []] = true ->
        is_Some (SSHClientChannel.get_exit_signal s)).
Proof.
  eexists. split; [vm_compute; reflexivity|].
  apply (exit_status_goes_before_signal
           [ExitStatusRequest 259; ExitSignalRequest SEGV true [] []]).
  vm_compute. reflexivity.
Defined.

Lemma exit_requests_example :
  (SSHClientChannel.get_exit_status <$>
     process_exit_requests
       [ExitStatusRequest 259; ExitSignalRequest SEGV true [] []]
       SSHClientChannel.init) = Some (Some 3)
  /\ (SSHClientChannel.get_exit_status <$>
        process_exit_requests [ExitSignalRequest SEGV true [] []]
          SSHClientChannel.init) = Some (Some (-1))
  /\ process_exit_requests [ExitSignalRequest [Byte.xff] true [] []]
       SSHClientChannel.init = None.
Proof. by_computation. Qed.

(** X21. An exit signal survives the wire: on a channel that can send
    and has not been closed, [exit_with_signal] with ASCII names and a
    message the UTF-8 codec can encode and read back sends one
    [exit-signal] request that wants no reply and then does what
    [close()] does; the client's handler, given the strings of that
    request, tells the session the same signal, core flag, message and
    language and keeps them for [get_exit_signal], and the exit status
    is then -1 unless an exit status had been received. *)
Theorem exit_signal_reaches_client
    (str_encode : string -> pystr -> encode_result)
    (signal : pystr) (core_dumped : bool) (msg lang : pystr) (mb : bytes)
    (c : chan) (s : SSHClientChannel.fields) :
  sendable c -> not_closing c ->
  Forall (fun cp => (cp < 128)%N) signal ->
  Forall (fun cp => (cp < 128)%N) lang ->
  str_encode "utf-8" msg = Encoded mb -> Utf8.decode mb = Decoded msg ->
  exists n sb lb c' out s',
    _send_chan c = Some n
    /\ SSHServerChannel.exit_with_signal str_encode signal core_dumped msg
         lang c
       = Done tt c'
           (ConnSendPacket
              [Packet.Byte MSG_CHANNEL_REQUEST; Packet.UInt32 n;
               Packet.String (ascii_bytes "exit-signal");
               Packet.Boolean false; Packet.String sb;
               Packet.Boolean core_dumped; Packet.String mb;
               Packet.String lb]
            :: out)
    /\ close c = Done tt c' out /\ close_requested c'
    /\ SSHClientChannel._process_exit_signal_request sb core_dumped mb lb s
       = Handled true s'
           [SSHClientChannel.exit_signal_received signal core_dumped msg lang]
    /\ SSHClientChannel.get_exit_signal s'
       = Some (signal, core_dumped, msg, lang)
    /\ SSHClientChannel.get_exit_status s'
       = Some (default (-1) (SSHClientChannel._exit_status s)).
Proof.
  intros Hsend Hopen Hsig Hlang Henc Hdec.
  pose proof Hsend as ((Hco & [n Hch] & _) & _).
  destruct (ascii_encode_total _ Hsig) as [sb Hsb].
  destruct (ascii_encode_total _ Hlang) as [lb Hlb].
  destruct (not_closing_close c Hsend Hopen)
    as (c' & out & Hclose & _ & Hreq & _).
  exists n, sb, lb, c', out. eexists.
  split; [exact Hch|]. split.
  { unfold SSHServerChannel.exit_with_signal, _send_request.
    destruct Hopen as [Hst|[Hst|Hst]]; run_forward;
      rewrite ?Hsb, ?Henc, ?Hlb; run_forward; rewrite ?Hclose;
      reflexivity. }
  split; [exact Hclose|]. split; [exact Hreq|].
  unfold SSHClientChannel._process_exit_signal_request.
  rewrite (ascii_round_trip _ _ Hsb), Hdec, (ascii_round_trip _ _ Hlb).
  split; [reflexivity|]. split; [reflexivity|].
  unfold SSHClientChannel.get_exit_status. cbn.
  by destruct (SSHClientChannel._exit_status s).
Qed.

Lemma exit_signal_reaches_client_witness :
  exists n sb lb c' out s',
    _send_chan limited_channel = Some n
    /\ SSHServerChannel.exit_with_signal ascii_encoder (ascii_str "SEGV")
         true (ascii_str "core dumped") (ascii_str "en") limited_channel
       = Done tt c'
           (ConnSendPacket
              [Packet.Byte MSG_CHANNEL_REQUEST; Packet.UInt32 n;
               Packet.String (ascii_bytes "exit-signal");
               Packet.Boolean false; Packet.String sb;
               Packet.Boolean true;
               Packet.String (ascii_bytes "core dumped");
               Packet.String lb]
            :: out)
    /\ close limited_channel = Done tt c' out /\ close_requested c'
    /\ SSHClientChannel._process_exit_signal_request sb true
         (ascii_bytes "core dumped") lb SSHClientChannel.init
       = Handled true s'
           [SSHClientChannel.exit_signal_received (ascii_str "SEGV") true
              (ascii_str "core dumped") (ascii_str "en")]
    /\ SSHClientChannel.get_exit_signal s'
       = Some (ascii_str "SEGV", true, ascii_str "core dumped",
               ascii_str "en")
    /\ SSHClientChannel.get_exit_status s'
       = Some (default (-1)
                 (SSHClientChannel._exit_status SSHClientChannel.init)).
Proof.
  apply (exit_signal_reaches_client ascii_encoder (ascii_str "SEGV") true
           (ascii_str "core dumped") (ascii_str "en")
           (ascii_bytes "core dumped") limited_channel SSHClientChannel.init).
  - repeat split; try (vm_compute; reflexivity);
      try (vm_compute; eexists; reflexivity).
    vm_compute; discriminate.
  - left. vm_compute. reflexivity.
  - repeat constructor.
  - repeat constructor.
  - vm_compute. reflexivity.
  - vm_compute. reflexivity.
Defined.

(** * Properties of DSA keys *)

Section DSAKeys.

Variable all_ints : list DSA.pyobj -> bool.
Variable der_encode : DSA.pyobj -> bytes.
Variable der_decode : bytes -> DSA.pyobj.
Variable String : bytes -> bytes.
Variable get_string : bytes -> option (bytes * bytes).
Variable key_sign : DSA.key_object -> bytes -> Z * Z.
Variable key_verify : DSA.key_object -> bytes -> Z * Z -> bool.

(** X17. A private DSA key comes back from its PKCS#1 and PKCS#8 forms:
    decoding what [encode_pkcs1_private] gives yields the numbers
    [p, q, g, y, x] of the key, decoding what [encode_pkcs1_public]
    gives yields [p, q, g, y], and neither decoder takes the other's
    form; decoding what [encode_pkcs8_private] gives yields [p, q, g],
    the public number recomputed as [g ^ x mod p], and [x], and
    decoding what [encode_pkcs8_public] gives yields [p, q, g, y].  The
    assumptions are that [all_ints] accepts a tuple of integers and
    that DER decoding reads back the encoded [x] and [y].  The same key
    held as a public key gives the same public forms and raises
    [KeyExportError] for each private form. *)
Theorem dsa_key_export_round_trip (MPInt : Z -> bytes) (k : DSA._DSAKey)
    (x : Z) :
  (forall ns, all_ints (DSA.Int <$> ns) = true) ->
  der_decode (der_encode (DSA.Int x)) = DSA.Int x ->
  der_decode (der_encode (DSA.Int (DSA.y (DSA._key k))))
  = DSA.Int (DSA.y (DSA._key k)) ->
  DSA._private k = true -> DSA.x (DSA._key k) = Some x ->
  0 <= x -> DSA.p (DSA._key k) <> 0 ->
  (exists key_data,
     DSA.encode_pkcs1_private k = inr key_data
     /\ DSA.decode_pkcs1_private all_ints key_data
        = Some (DSA.Int <$> [DSA.p (DSA._key k); DSA.q (DSA._key k);
                             DSA.g (DSA._key k); DSA.y (DSA._key k); x])
     /\ DSA.decode_pkcs1_public all_ints key_data = None)
  /\ DSA.decode_pkcs1_public all_ints (DSA.encode_pkcs1_public k)
     = Some (DSA.Int <$> [DSA.p (DSA._key k); DSA.q (DSA._key k);
                          DSA.g (DSA._key k); DSA.y (DSA._key k)])
  /\ DSA.decode_pkcs1_private all_ints (DSA.encode_pkcs1_public k) = None
  /\ (exists alg_params data,
        DSA.encode_pkcs8_private der_encode k = inr (alg_params, data)
        /\ DSA.decode_pkcs8_private all_ints der_decode alg_params data
           = inr (Some (DSA.Int <$>
                          [DSA.p (DSA._key k); DSA.q (DSA._key k);
                           DSA.g (DSA._key k);
                           DSA.g (DSA._key k) ^ x `mod` DSA.p (DSA._key k);
                           x])))
  /\ DSA.decode_pkcs8_public all_ints der_decode
       (DSA.encode_pkcs8_public der_encode k).1
       (DSA.encode_pkcs8_public der_encode k).2
     = Some (DSA.Int <$> [DSA.p (DSA._key k); DSA.q (DSA._key k);
                          DSA.g (DSA._key k); DSA.y (DSA._key k)])
  /\ (let public := {| DSA._key := DSA._key k; DSA._private := false |} in
      DSA.encode_pkcs1_public public = DSA.encode_pkcs1_public k
      /\ DSA.encode_pkcs8_public der_encode public
         = DSA.encode_pkcs8_public der_encode k
      /\ DSA.encode_pkcs1_private public
         = inl (DSA.KeyExportError "Key is not private")
      /\ DSA.encode_pkcs8_private der_encode public
         = inl (DSA.KeyExportError "Key is not private")
      /\ DSA.encode_ssh_private String MPInt public
         = inl (DSA.KeyExportError "Key is not private")).
Proof.
  intros Hints Hdx Hdy Hpriv Hx Hx0 Hp.
  unfold DSA.encode_pkcs1_private, DSA.encode_pkcs8_private,
    DSA.encode_ssh_private, DSA.encode_pkcs1_public,
    DSA.encode_pkcs8_public, DSA.key_x.
  rewrite Hpriv, Hx. cbn [negb fst snd DSA._private DSA._key].
  split_all; try reflexivity.
  - eexists. split; [reflexivity|].
    unfold DSA.decode_pkcs1_private, DSA.decode_pkcs1_public.
    pose proof (Hints [0; DSA.p (DSA._key k); DSA.q (DSA._key k);
                       DSA.g (DSA._key k); DSA.y (DSA._key k); x]) as H6.
    cbn [fmap list_fmap] in H6. by rewrite H6.
  - unfold DSA.decode_pkcs1_public.
    pose proof (Hints [DSA.y (DSA._key k); DSA.p (DSA._key k);
                       DSA.q (DSA._key k); DSA.g (DSA._key k)]) as H4.
    cbn [fmap list_fmap] in H4. by rewrite H4.
  - eexists _, _. split; [reflexivity|].
    unfold DSA.decode_pkcs8_private.
    pose proof (Hints [DSA.p (DSA._key k); DSA.q (DSA._key k);
                       DSA.g (DSA._key k)]) as H3.
    cbn [fmap list_fmap] in H3. rewrite Hdx, H3.
    cbn [length DSA.is_int andb]. rewrite bool_decide_eq_true_2 by done.
    cbn [andb]. unfold DSA.pow.
    assert ((x <? 0) || (DSA.p (DSA._key k) =? 0) = false) as ->.
    { apply orb_false_intro; [by apply Z.ltb_ge|by apply Z.eqb_neq]. }
    done.
  - unfold DSA.decode_pkcs8_public.
    pose proof (Hints [DSA.p (DSA._key k); DSA.q (DSA._key k);
                       DSA.g (DSA._key k)]) as H3.
    cbn [fmap list_fmap] in H3. by rewrite Hdy, H3.
Qed.

(** X18. A DSA signature survives its SSH form: when the key object
    signs with two numbers below [2 ^ 160], [sign] gives a blob in
    which [verify] finds the algorithm name and the same two numbers,
    so that it answers what the key object's [verify] answers for
    them; a blob that names another algorithm is refused without the
    key being asked, and a public key does not sign.  The assumption is
    that [get_string] reads back what [String] wrote, for strings whose
    length fits 32 bits. *)
Theorem dsa_signature_round_trip (k verifier : DSA._DSAKey)
    (data : bytes) (r s : Z) :
  (forall b rest, len b < 2 ^ 32 ->
     get_string (String b ++ rest) = Some (b, rest)) ->
  DSA._private k = true ->
  key_sign (DSA._key k) data = (r, s) ->
  0 <= r < 2 ^ 160 -> 0 <= s < 2 ^ 160 ->
  (exists rb sb,
     int_to_bytes 20 r = Some rb /\ int_to_bytes 20 s = Some sb
     /\ DSA.sign String key_sign k data
        = inr (String DSA.algorithm ++ String (rb ++ sb))
     /\ DSA.verify get_string key_verify verifier data
          (String DSA.algorithm ++ String (rb ++ sb))
        = Some (key_verify (DSA._key verifier) data (r, s)))
  /\ (forall name rest,
        len name < 2 ^ 32 -> name <> DSA.algorithm ->
        DSA.verify get_string key_verify verifier data (String name ++ rest)
        = Some false)
  /\ DSA.sign String key_sign
       {| DSA._key := DSA._key k; DSA._private := false |} data
     = inl (DSA.ValueError "Private key needed for signing").
Proof.
  intros Hget Hpriv Hsign Hr Hs. split_all.
  - assert (Hfit : forall n, 0 <= n < 2 ^ 160 ->
              int_to_bytes 20 n = Some (digits_big 20 n)).
    { intros n Hn. unfold int_to_bytes.
      change (256 ^ Z.of_nat 20) with (2 ^ 160).
      assert ((0 <=? n) && (n <? 2 ^ 160) = true) as ->; [|done].
      apply andb_true_intro. split; [apply Z.leb_le|apply Z.ltb_lt]; lia. }
    exists (digits_big 20 r), (digits_big 20 s).
    split; [by apply Hfit|]. split; [by apply Hfit|].
    destruct (int_round_trip 20 r _ (Hfit r Hr)) as [Hrv Hrl].
    destruct (int_round_trip 20 s _ (Hfit s Hs)) as [Hsv Hsl].
    split.
    + unfold DSA.sign. by rewrite Hpriv, Hsign, (Hfit r Hr), (Hfit s Hs).
    + unfold DSA.verify. rewrite Hget by (vm_compute; reflexivity).
      rewrite bool_decide_eq_true_2 by done. cbn [negb].
      rewrite <- (app_nil_r (String _)), Hget.
      2:{ unfold len. rewrite length_app, Hrl, Hsl. vm_compute. reflexivity. }
      unfold slice_to, slice_from, slice_bound. cbn [Z.ltb Z.compare].
      change (Z.to_nat 20) with 20%nat.
      rewrite take_app_length', drop_app_length' by done.
      by rewrite Hrv, Hsv.
  - intros name rest Hlen Hname. unfold DSA.verify. rewrite Hget by done.
    by rewrite bool_decide_eq_false_2.
  - reflexivity.
Qed.

(** X19. [__eq__] on DSA keys agrees with their exported forms: two
    private keys are equal exactly when their PKCS#1 private forms are
    the same, and two public keys exactly when their PKCS#1 public
    forms are. *)
Theorem dsa_key_equality_is_equal_export (k other : DSA._DSAKey) :
  (DSA._private k = true -> DSA._private other = true ->
   is_Some (DSA.x (DSA._key k)) -> is_Some (DSA.x (DSA._key other)) ->
   (DSA.eq k other = inr true
    <-> DSA.encode_pkcs1_private k = DSA.encode_pkcs1_private other))
  /\ (DSA._private k = false -> DSA._private other = false ->
      (DSA.eq k other = inr true
       <-> DSA.encode_pkcs1_public k = DSA.encode_pkcs1_public other)).
Proof.
  unfold DSA.eq, DSA.private_part, DSA.encode_pkcs1_private,
    DSA.encode_pkcs1_public, DSA.key_x.
  split.
  - intros -> -> [a ->] [b ->]. cbn [negb]. split.
    + destruct ((DSA.p (DSA._key k) =? DSA.p (DSA._key other))
                && (DSA.q (DSA._key k) =? DSA.q (DSA._key other))
                && (DSA.g (DSA._key k) =? DSA.g (DSA._key other))
                && (DSA.y (DSA._key k) =? DSA.y (DSA._key other))) eqn:Hpub;
        [|discriminate].
      intros [= Hx]. repeat apply andb_prop in Hpub as [Hpub ?].
      reflect_tests. congruence.
    + intros [= -> -> -> -> ->]. by rewrite !Z.eqb_refl.
  - intros -> ->. split.
    + destruct ((DSA.p (DSA._key k) =? DSA.p (DSA._key other))
                && (DSA.q (DSA._key k) =? DSA.q (DSA._key other))
                && (DSA.g (DSA._key k) =? DSA.g (DSA._key other))
                && (DSA.y (DSA._key k) =? DSA.y (DSA._key other))) eqn:Hpub;
        [|discriminate].
      intros _. repeat apply andb_prop in Hpub as [Hpub ?].
      reflect_tests. congruence.
    + intros [= -> -> -> ->]. by rewrite !Z.eqb_refl.
Qed.

End DSAKeys.

Lemma every_int_ints ns : every_int (DSA.Int <$> ns) = true.
Proof. unfold every_int. by induction ns. Qed.

Lemma ssh_get_string_string b rest :
  len b < 2 ^ 32 -> ssh_get_string (ssh_string b ++ rest) = Some (b, rest).
Proof.
  intros Hlen. unfold ssh_get_string, ssh_string.
  assert (Hl : length (digits_big 4 (len b)) = 4%nat)
    by apply digits_big_length.
  rewrite <- app_assoc.
  rewrite bool_decide_eq_true_2 by (rewrite length_app; lia).
  rewrite take_app_length', drop_app_length' by done.
  rewrite int_from_digits_big. change (256 ^ Z.of_nat 4) with (2 ^ 32).
  rewrite Z.mod_small by (pose proof (len_nonneg b); lia).
  unfold len. rewrite Nat2Z.id.
  rewrite bool_decide_eq_true_2 by (rewrite length_app; lia).
  by rewrite take_app_length, drop_app_length.
Qed.

Lemma dsa_key_export_round_trip_witness :
  (exists key_data,
     DSA.encode_pkcs1_private toy_private_key = inr key_data
     /\ DSA.decode_pkcs1_private every_int key_data
        = Some (DSA.Int <$> [23; 11; 4; 3; 7])
     /\ DSA.decode_pkcs1_public every_int key_data = None)
  /\ DSA.decode_pkcs1_public every_int
       (DSA.encode_pkcs1_public toy_private_key)
     = Some (DSA.Int <$> [23; 11; 4; 3])
  /\ DSA.decode_pkcs1_private every_int
       (DSA.encode_pkcs1_public toy_private_key) = None
  /\ (exists alg_params data,
        DSA.encode_pkcs8_private tally_encode toy_private_key
        = inr (alg_params, data)
        /\ DSA.decode_pkcs8_private every_int tally_decode alg_params data
           = inr (Some (DSA.Int <$> [23; 11; 4; 4 ^ 7 `mod` 23; 7])))
  /\ DSA.decode_pkcs8_public every_int tally_decode
       (DSA.encode_pkcs8_public tally_encode toy_private_key).1
       (DSA.encode_pkcs8_public tally_encode toy_private_key).2
     = Some (DSA.Int <$> [23; 11; 4; 3])
  /\ (let public := {| DSA._key := DSA._key toy_private_key;
                       DSA._private := false |} in
      DSA.encode_pkcs1_public public
      = DSA.encode_pkcs1_public toy_private_key
      /\ DSA.encode_pkcs8_public tally_encode public
         = DSA.encode_pkcs8_public tally_encode toy_private_key
      /\ DSA.encode_pkcs1_private public
         = inl (DSA.KeyExportError "Key is not private")
      /\ DSA.encode_pkcs8_private tally_encode public
         = inl (DSA.KeyExportError "Key is not private")
      /\ DSA.encode_ssh_private ssh_string (fun n => ssh_string (digits_big 4 n))
           public
         = inl (DSA.KeyExportError "Key is not private")).
Proof.
  apply (dsa_key_export_round_trip every_int tally_encode tally_decode
           ssh_string (fun n => ssh_string (digits_big 4 n))
           toy_private_key 7).
  - apply every_int_ints.
  - vm_compute. reflexivity.
  - vm_compute. reflexivity.
  - reflexivity.
  - reflexivity.
  - lia.
  - vm_compute. discriminate.
Defined.

Lemma dsa_signature_round_trip_witness :
  (exists rb sb,
     int_to_bytes 20 (len [Byte.x68; Byte.x69] + 1) = Some rb
     /\ int_to_bytes 20 (2 ^ 160 - 1) = Some sb
     /\ DSA.sign ssh_string toy_sign toy_private_key [Byte.x68; Byte.x69]
        = inr (ssh_string DSA.algorithm ++ ssh_string (rb ++ sb))
     /\ DSA.verify ssh_get_string toy_verify toy_public_key
          [Byte.x68; Byte.x69]
          (ssh_string DSA.algorithm ++ ssh_string (rb ++ sb))
        = Some (toy_verify (DSA._key toy_public_key) [Byte.x68; Byte.x69]
                  (len [Byte.x68; Byte.x69] + 1, 2 ^ 160 - 1)))
  /\ (forall name rest,
        len name < 2 ^ 32 -> name <> DSA.algorithm ->
        DSA.verify ssh_get_string toy_verify toy_public_key
          [Byte.x68; Byte.x69] (ssh_string name ++ rest)
        = Some false)
  /\ DSA.sign ssh_string toy_sign
       {| DSA._key := DSA._key toy_private_key; DSA._private := false |}
       [Byte.x68; Byte.x69]
     = inl (DSA.ValueError "Private key needed for signing").
Proof.
  apply (dsa_signature_round_trip ssh_string ssh_get_string toy_sign
           toy_verify toy_private_key toy_public_key [Byte.x68; Byte.x69]).
  - apply ssh_get_string_string.
  - reflexivity.
  - reflexivity.
  - vm_compute. split; [discriminate|reflexivity].
  - vm_compute. split; [discriminate|reflexivity].
Defined.

(** * Properties of channel requests *)

Lemma flush_body_no_reply c c' out :
  flush_body c = Done tt c' out -> Forall no_reply out.
Proof.
  unfold flush_body. intros H.
  destruct (_send_buf c) as [|[buf [dt|]] rest]; inv_run;
    repeat constructor.
Qed.

Lemma flush_loop_no_reply fuel : forall c c' out,
  flush_loop fuel c = Done tt c' out -> Forall no_reply out.
Proof.
  induction fuel as [|fuel IH]; intros c c' out; simpl;
    destruct (can_send c); try discriminate.
  1,3: intros [= <- <-]; constructor.
  intros H. apply bind_Done in H as ([] & c1 & o1 & o2 & H1 & H2 & ->).
  apply Forall_app_2; eauto using flush_body_no_reply.
Qed.

Lemma flush_send_buf_no_reply c c' out :
  _flush_send_buf c = Done tt c' out -> Forall no_reply out.
Proof.
  intros H. unfold _flush_send_buf in H.
  apply bind_Done in H as ([] & c1 & o1 & o2 & H1 & H2 & ->).
  apply bind_Done in H1 as (c0 & c0' & o0 & o1' & H0 & H1 & ->).
  unfold get in H0. injection H0 as <- <- <-.
  apply bind_Done in H2 as ([] & c2 & o2' & o3 & H2 & H3 & ->).
  apply flush_loop_no_reply in H1.
  apply pause_resume_writing_spec in H2 as (_ & _ & _ & ->).
  assert (H2 : Forall no_reply
                 (if _send_paused c1
                  then if _send_paused c2 then [] else [SessResumeWriting]
                  else if _send_paused c2 then [SessPauseWriting] else [])).
  { destruct (_send_paused c1), (_send_paused c2); repeat constructor. }
  assert (H3' : Forall no_reply o3).
  { unfold flush_finish in H3.
    apply bind_Done in H3 as (c0 & c0' & o0 & o4 & H0 & H3 & ->).
    unfold get in H0. injection H0 as <- <- <-.
    destruct (_send_buf c2); [|inv_run; constructor].
    destruct (_send_state c2); inv_run; repeat constructor. }
  cbn [app]. auto using Forall_app_2.
Qed.

Lemma close_no_reply c c' out :
  close c = Done tt c' out -> Forall no_reply out.
Proof.
  unfold close. intros H.
  apply bind_Done in H as (c0 & c0' & o0 & o1 & H0 & H1 & ->).
  unfold get in H0. injection H0 as <- <- <-.
  destruct (closing (_send_state c)).
  - unfold ret in H1. injection H1 as <- <-. constructor.
  - apply bind_Done in H1 as ([] & c1 & o2 & o3 & H1 & H2 & ->).
    unfold modify in H1. injection H1 as <- <-.
    by apply flush_send_buf_no_reply in H2.
Qed.

Section RequestReplies.

Variable bytes_decode : string -> bytes -> decode_result.
Variable pauses : event -> bool.

Lemma deliver_data_no_reply data datatype c c' out :
  _deliver_data bytes_decode data datatype c = Done tt c' out ->
  Forall no_reply out.
Proof.
  intros H. destruct data as [|d]; unfold _deliver_data in H.
  - apply bind_Done in H as (c0 & c0' & o0 & o1 & H0 & H1 & ->).
    unfold get in H0. injection H0 as <- <- <-.
    destruct (bool_decide (is_Some (_recv_partial c !! datatype)));
      [discriminate|].
    destruct (_session c) as [s|]; [|discriminate].
    apply bind_Done in H1 as ([] & c1 & o3 & o4 & H1 & H2 & ->).
    unfold emit in H1. injection H1 as <- <-.
    unfold when in H2. destruct (negb (eof_received_answer s)).
    + apply close_no_reply in H2. by repeat constructor.
    + unfold ret in H2. injection H2 as <- <-. repeat constructor.
  - inv_run.
    all: try match goal with
             | H : decode_loop _ _ _ _ _ _ = _ |- _ =>
               apply decode_loop_frame in H as [? H]
             end.
    all: rewrite ?Forall_app; split_all; repeat constructor.
    all: match goal with
         | H : Forall is_session_data ?o |- Forall no_reply ?o =>
           eapply Forall_impl; [exact H|]; by intros []
         end.
Qed.

Lemma deliver_buffered_no_reply data datatype c c' out :
  deliver_buffered bytes_decode pauses data datatype c = Done tt c' out ->
  Forall no_reply out.
Proof.
  unfold deliver_buffered.
  destruct (_deliver_data bytes_decode data datatype c) as [[] c1 o1| |]
    eqn:H; [|discriminate..].
  intros [= _ <-]. by apply deliver_data_no_reply in H.
Qed.

Lemma resume_loop_no_reply fuel : forall c c' out,
  resume_loop bytes_decode pauses fuel c = Done tt c' out ->
  Forall no_reply out.
Proof.
  induction fuel as [|fuel IH]; intros c c' out; cbn [resume_loop];
    destruct (_recv_buf c) as [|[data datatype] rest];
    try (intros [= <- <-]; constructor);
    destruct (_recv_paused c); try discriminate;
    try (intros [= <- <-]; constructor).
  intros H. apply bind_Done in H as ([] & c1 & o1 & o2 & H1 & H2 & ->).
  unfold modify in H1. injection H1 as <- <-.
  apply bind_Done in H2 as ([] & c2 & o3 & o4 & H2 & H3 & ->).
  apply deliver_buffered_no_reply in H2. apply IH in H3.
  cbn [app]. by apply Forall_app_2.
Qed.

Lemma resume_reading_no_reply c c' out :
  resume_reading bytes_decode pauses c = Done tt c' out ->
  Forall no_reply out.
Proof.
  unfold resume_reading. intros H.
  apply bind_Done in H as (c0 & c0' & o0 & o1 & H0 & H1 & ->).
  unfold get in H0. injection H0 as <- <- <-.
  unfold when in H1. destruct (_recv_paused c).
  - apply bind_Done in H1 as ([] & c1 & o2 & o3 & H1 & H2 & ->).
    unfold modify in H1. injection H1 as <- <-.
    by apply resume_loop_no_reply in H2.
  - unfold ret in H1. injection H1 as <- <-. constructor.
Qed.

End RequestReplies.

Section RequestObservers.

Context {C : Type}.

Lemma replies_app (out1 out2 : list (request_event C)) :
  replies (out1 ++ out2) = replies out1 ++ replies out2.
Proof. apply omap_app. Qed.

Lemma session_calls_app (out1 out2 : list (request_event C)) :
  session_calls (out1 ++ out2) = session_calls out1 ++ session_calls out2.
Proof. apply omap_app. Qed.

Lemma sessions_started_app (out1 out2 : list (request_event C)) :
  sessions_started (out1 ++ out2)
  = (sessions_started out1 + sessions_started out2)%nat.
Proof. unfold sessions_started. by rewrite filter_app, length_app. Qed.

Lemma session_calls_only (calls : list C) :
  replies (SessionCall <$> calls) = []
  /\ session_calls (SessionCall <$> calls) = calls
  /\ sessions_started (SessionCall <$> calls) = 0%nat.
Proof.
  induction calls as [|call calls (IH1 & IH2 & IH3)]; [done|].
  split_all; [exact IH1|cbn; by f_equal|exact IH3].
Qed.

Lemma channel_events_only (out : list event) :
  session_calls (C := C) (ChannelEvent <$> out) = []
  /\ sessions_started (C := C) (ChannelEvent <$> out) = 0%nat
  /\ (Forall no_reply out -> replies (C := C) (ChannelEvent <$> out) = []).
Proof.
  induction out as [|e out (IH1 & IH2 & IH3)]; [done|].
  split_all; [exact IH1|exact IH2|].
  intros Hno. apply Forall_cons in Hno as [He Hno].
  rewrite fmap_cons. unfold replies. cbn [omap list_omap].
  fold (omap (reply_of (C := C)) (ChannelEvent <$> out)).
  fold (replies (C := C) (ChannelEvent <$> out)). rewrite (IH3 Hno).
  destruct e as [[|[[]| | |] p]| | | | | | |]; try done;
    destruct p as [|[] [|]]; done.
Qed.

End RequestObservers.

Section RequestDispatch.

Context {S C : Type}.

Variable bytes_decode : string -> bytes -> decode_result.
Variable pauses : event -> bool.
Variable handler : pystr -> option (list Packet.field -> S -> handled S C).

(** X20. Every request gets the reply it asked for and no other: when
    [_process_request] returns on a channel whose send side is not
    closing, the request name is ASCII, the handler found under that
    name with dashes for underscores (or none, which counts as false)
    ran once on the channel's attributes, the session was asked exactly
    what the handler asked, one [CHANNEL_SUCCESS] or [CHANNEL_FAILURE]
    according to the handler's answer was sent if a reply was wanted and
    none otherwise, and [session_started] was called once exactly for a
    successful [shell], [exec] or [subsystem] request; on a closing
    channel the request is dropped unanswered, on a channel that is not
    open for receiving it is a protocol error, as is a name that is not
    ASCII, and a request without a handler on a connected channel is
    answered with a failure. *)
Theorem request_gets_one_reply (request : bytes) (want_reply : bool)
    (packet : list Packet.field) (s : S) (c : chan) :
  match _process_request bytes_decode pauses handler request want_reply
          packet s c
  with
  | Processed s' c' out =>
    receiving (_recv_state c) = true
    /\ if closing (_send_state c) then s' = s /\ c' = c /\ out = []
       else
         exists name result,
           ascii_decode request = Decoded name
           /\ match handler (replace_dash name) with
              | Some handle => handle packet s
              | None => Handled false s []
              end = Handled result s' (session_calls out)
           /\ replies out = (if want_reply then [result] else [])
           /\ sessions_started out
              = (if result && starts_session name then 1 else 0)%nat
  | Refused e =>
    receiving (_recv_state c) = false
    -> e = DisconnectError DISC_PROTOCOL_ERROR "Channel not open"
  | Unfinished => receiving (_recv_state c) = true
  end
  /\ (receiving (_recv_state c) = true -> closing (_send_state c) = false ->
      (forall name, ascii_decode request <> Decoded name) ->
      _process_request bytes_decode pauses handler request want_reply
          packet s c
      = Refused (DisconnectError DISC_PROTOCOL_ERROR
                   "Invalid channel request"))
  /\ (forall name n,
        receiving (_recv_state c) = true ->
        closing (_send_state c) = false ->
        ascii_decode request = Decoded name ->
        handler (replace_dash name) = None ->
        _conn c = true -> _send_chan c = Some n ->
        _process_request bytes_decode pauses handler request want_reply
          packet s c
        = Processed s c
            (if want_reply
             then [ChannelEvent
                     (ConnSendPacket [Packet.Byte MSG_CHANNEL_FAILURE;
                                      Packet.UInt32 n])]
             else [])).
Proof.
  split_all.
  - unfold _process_request.
    destruct (receiving (_recv_state c)) eqn:Hrecv; cbn [negb]; [|done].
    destruct (closing (_send_state c)) eqn:Hclosing.
    { done. }
    destruct (ascii_decode request) as [name| |] eqn:Hname; try done.
    destruct (match handler (replace_dash name) with
              | Some handle => handle packet s
              | None => Handled false s []
              end) as [result s' calls|e] eqn:Hh; [|done].
    destruct (when want_reply
                (_send_packet
                   (if result then MSG_CHANNEL_SUCCESS
                    else MSG_CHANNEL_FAILURE) []) c)
      as [[] c1 out1| |] eqn:Hreply; try done.
    assert (Hout1 : replies (C := C) (ChannelEvent <$> out1)
                    = (if want_reply then [result] else [])).
    { unfold when in Hreply. destruct want_reply.
      - unfold _send_packet in Hreply. inv_run. by destruct result.
      - unfold ret in Hreply. by injection Hreply as <- <-. }
    pose proof (session_calls_only calls) as (Hc1 & Hc2 & Hc3).
    pose proof (channel_events_only (C := C) out1) as (He1 & He2 & _).
    destruct (result && starts_session name) eqn:Hstart.
    + destruct (_session c1); [|done].
      destruct (resume_reading bytes_decode pauses c1) as [[] c2 out2| |] eqn:Hres;
        try done.
      pose proof (channel_events_only (C := C) out2) as (Hr1 & Hr2 & Hr3).
      specialize (Hr3 (resume_reading_no_reply _ _ _ _ _ Hres)).
      split; [done|]. exists name, result.
      rewrite !session_calls_app, !replies_app, !sessions_started_app.
      rewrite Hc1, Hc2, Hc3, He1, He2, Hout1, Hr1, Hr2, Hr3, Hstart.
      cbn. rewrite !app_nil_r. done.
    + split; [done|]. exists name, result.
      rewrite !session_calls_app, !replies_app, !sessions_started_app.
      rewrite Hc1, Hc2, Hc3, He1, He2, Hout1, Hstart.
      cbn. rewrite !app_nil_r. done.
  - intros Hrecv Hclosing Hname. unfold _process_request.
    rewrite Hrecv, Hclosing. cbn [negb].
    destruct (ascii_decode request) as [name| |]; try done.
    by destruct (Hname name).
  - intros name n Hrecv Hclosing Hname Hnone Hco Hch.
    unfold _process_request.
    rewrite Hrecv, Hclosing, Hname, Hnone. cbn [negb andb].
    destruct want_reply; run_forward; reflexivity.
Qed.

End RequestDispatch.

Lemma exec_request_example :
  match exec_request_outcome with
  | Processed s c out =>
    SSHServerChannel.get_command s = Some (ascii_str "ls")
    /\ replies out = [true]
    /\ session_calls out = [SSHServerChannel.exec_requested (ascii_str "ls")]
    /\ sessions_started out = 1%nat
    /\ _recv_paused c = false /\ _recv_buf c = []
  | _ => False
  end
  /\ match exit_status_request_outcome with
     | Processed s c out =>
       s = SSHServerChannel.init permissive /\ c = eof_waiting_channel
       /\ replies out = [false] /\ session_calls out = []
       /\ sessions_started out = 0%nat
     | _ => False
     end.
Proof. vm_compute. by split_all. Qed.

(** * Writing a list of data *)

Lemma sent_chunks_payloads out : data_payloads out = (sent_chunks out).*1.
Proof.
  unfold data_payloads, sent_chunks.
  induction out as [|e out IH]; [done|]. cbn [omap list_omap].
  fold (omap data_payload_of out). fold (omap sent_chunk_of out).
  rewrite IH.
  destruct e as [[|[[]| | |] p]| | | | | | |]; try done.
  - destruct p as [|[] [|[] [|]]]; done.
  - destruct p as [|[] [|[] [|[] [|]]]]; done.
Qed.

Lemma total_len_tagged chunks : total_len chunks.*1 = len (tagged chunks).
Proof.
  induction chunks as [|[b dt] chunks IH]; [done|].
  rewrite fmap_cons, tagged_cons, len_app. cbn [total_len foldr fst].
  fold (total_len chunks.*1). rewrite IH. unfold len.
  by rewrite length_fmap.
Qed.

Section WritelinesStream.

Variable str_encode : string -> pystr -> encode_result.

Lemma join_bytes_PBytes datas :
  join_bytes (PBytes <$> datas) = Some (concat datas).
Proof.
  induction datas as [|b datas IH]; [done|].
  cbn [fmap list_fmap join_bytes concat].
  fold (PBytes <$> datas). by rewrite IH.
Qed.

Lemma written_writes c datas datatype :
  text_encoding c = None ->
  tagged (written str_encode c (writes datas datatype))
  = tagged [(concat datas, datatype)].
Proof.
  intros Henc. unfold written, writes.
  induction datas as [|b datas IH]; [done|].
  cbn [fmap list_fmap mbind list_bind concat].
  rewrite tagged_app, IH. unfold written_chunk. rewrite Henc.
  rewrite !tagged_cons. cbn [tagged mbind list_bind].
  rewrite !app_nil_r, fmap_app. f_equal.
  destruct b; [done|]. rewrite tagged_cons. cbn [tagged mbind list_bind].
  by rewrite app_nil_r.
Qed.

Lemma write_greedy data datatype c c' out :
  greedy c -> write str_encode data datatype c = Done tt c' out ->
  greedy c'
  /\ _send_window c' = _send_window c - len (tagged (sent_chunks out)).
Proof.
  intros (Hw & Hp & Hstop) H.
  apply write_Done in H as [(_ & -> & ->)|(raw & _ & H)].
  { split; [done|].
    change (len (tagged (sent_chunks []))) with 0. lia. }
  pose proof H as H'.
  apply flush_send_buf_Done in H as (Hfr & _ & Hw' & _ & Hw0 & Hstop' & _);
    [|done..].
  chan_simpl. rewrite sent_chunks_payloads, total_len_tagged in Hw'.
  split; [|exact Hw'].
  unfold greedy. split_all; [done| |done].
  rewrite Hfr. exact Hp.
Qed.

Lemma writes_greedy datas datatype : forall c c' out,
  greedy c ->
  send_steps_run str_encode (writes datas datatype) c = Done tt c' out ->
  greedy c'
  /\ _send_window c' = _send_window c - len (tagged (sent_chunks out)).
Proof.
  induction datas as [|b datas IH]; intros c c' out Hg;
    cbn [writes fmap list_fmap send_steps_run].
  - unfold ret. intros [= <- <-]. split; [done|].
    change (len (tagged (sent_chunks []))) with 0. lia.
  - intros H. apply bind_Done in H as ([] & c1 & o1 & o2 & H1 & H2 & ->).
    cbn [send_step_run] in H1.
    apply (write_greedy _ _ _ _ _ Hg) in H1 as [Hg1 Hw1].
    apply (IH _ _ _ Hg1) in H2 as [Hg2 Hw2].
    split; [done|]. rewrite sent_chunks_app, tagged_app, len_app. lia.
Qed.

(** X22. [writelines] sends what writing the items one by one sends:
    on a binary channel on which the last flush went as far as the
    window allowed, [writelines] of a list of byte strings and [write]
    of each item in turn hand the connection the same bytes under the
    same data type in the same order, leave the same bytes in the send
    buffer and leave the same send window; only the packet boundaries
    may differ. *)
Theorem writelines_sends_what_writes_send (datas : list bytes)
    (datatype : option Z) (c c1 c2 : chan) (out1 out2 : list event) :
  text_encoding c = None ->
  0 <= _send_window c -> 0 <= _send_pktsize c ->
  _send_buf c = [] \/ _send_window c = 0 ->
  writelines str_encode (PBytes <$> datas) datatype c = Done tt c1 out1 ->
  send_steps_run str_encode (writes datas datatype) c = Done tt c2 out2 ->
  tagged (sent_chunks out1) = tagged (sent_chunks out2)
  /\ tagged (_send_buf c1) = tagged (_send_buf c2)
  /\ _send_window c1 = _send_window c2.
Proof.
  intros Henc Hw Hp Hstop H1 H2.
  assert (Hg : greedy c) by done.
  unfold writelines in H1.
  apply bind_Done in H1 as (c0 & c0' & o0 & o1 & H0 & H1 & ->).
  unfold get in H0. injection H0 as <- <- <-.
  rewrite Henc, join_bytes_PBytes in H1. cbn [app].
  assert (H1' : send_steps_run str_encode
                  [SessionWrite (PBytes (concat datas)) datatype] c
                = Done tt c1 o1).
  { cbn [send_steps_run send_step_run]. unfold bind. rewrite H1.
    unfold ret. by rewrite app_nil_r. }
  pose proof (write_greedy _ _ _ _ _ Hg H1) as [(Hw1 & _ & Hstop1) Hwin1].
  pose proof (writes_greedy _ _ _ _ _ Hg H2) as [(Hw2 & _ & Hstop2) Hwin2].
  apply send_steps_sent in H1' as (_ & Hst1 & _).
  apply send_steps_sent in H2 as (_ & Hst2 & _).
  specialize (Hst1 ltac:(repeat constructor)).
  assert (Hk : Forall keeps_send_buf (writes datas datatype)).
  { unfold writes. apply Forall_fmap, Forall_forall. by intros. }
  specialize (Hst2 Hk). rewrite written_writes in Hst2 by done.
  assert (Hone : tagged (written str_encode c
                           [SessionWrite (PBytes (concat datas)) datatype])
                 = tagged [(concat datas, datatype)]).
  { unfold written. cbn [mbind list_bind]. rewrite app_nil_r.
    unfold written_chunk. rewrite Henc. by destruct (concat datas). }
  rewrite Hone in Hst1. rewrite <- Hst2 in Hst1.
  assert (Hlen : length (tagged (sent_chunks o1))
                 = length (tagged (sent_chunks out2))).
  { pose proof (f_equal length Hst1) as Htot. rewrite !length_app in Htot.
    unfold len in Hwin1, Hwin2.
    assert (Hb : forall x : chan,
              _send_buf x = [] -> length (tagged (_send_buf x)) = 0%nat)
      by (by intros x ->).
    destruct Hstop1 as [Hb1|Hz1], Hstop2 as [Hb2|Hz2];
      rewrite ?(Hb _ Hb1), ?(Hb _ Hb2) in Htot; lia. }
  apply app_inj_1 in Hst1 as [Hsent Hbuf]; [|exact Hlen].
  split_all; [done..|]. unfold len in Hwin1, Hwin2. lia.
Qed.

End WritelinesStream.

Lemma writelines_sends_what_writes_send_witness :
  tagged (sent_chunks
            (events (writelines no_encoder (PBytes <$> three_lines) None)
               limited_channel))
  = tagged (sent_chunks
              (events (send_steps_run no_encoder (writes three_lines None))
                 limited_channel))
  /\ tagged (_send_buf
               (default limited_channel
                  (exec (writelines no_encoder (PBytes <$> three_lines) None)
                     limited_channel)))
     = tagged (_send_buf
                 (default limited_channel
                    (exec (send_steps_run no_encoder (writes three_lines None))
                       limited_channel)))
  /\ _send_window
       (default limited_channel
          (exec (writelines no_encoder (PBytes <$> three_lines) None)
             limited_channel))
     = _send_window
         (default limited_channel
            (exec (send_steps_run no_encoder (writes three_lines None))
               limited_channel)).
Proof.
  apply (writelines_sends_what_writes_send no_encoder three_lines None
           limited_channel).
  - vm_compute. reflexivity.
  - vm_compute. discriminate.
  - vm_compute. discriminate.
  - left. vm_compute. reflexivity.
  - vm_compute. reflexivity.
  - vm_compute. reflexivity.
Defined.

Lemma writelines_packets_differ :
  data_payloads
    (events (writelines no_encoder (PBytes <$> three_lines) None)
       wide_channel)
  = [ascii_bytes "onetwo three"]
  /\ data_payloads
       (events (send_steps_run no_encoder (writes three_lines None))
          wide_channel)
     = [ascii_bytes "one"; ascii_bytes "two three"].
Proof. by_computation. Qed.
